(** * Channel rate limiting: service/channel_rate_limit.go

    A shallow embedding of the per-(channel, model) rate-limit accounting of
    [service/channel_rate_limit.go] and the properties its specification
    states about it.

    The source file carries two revisions of the package.  The first one
    (lines 1-269) records request history even for an unlimited RPM dimension
    and answers every saturation with one message; it is embedded at top
    level.  The second one (lines 270-533) records a dimension only when its
    limit is positive; the parts of it that differ are embedded in
    [Module Guarded].

    Go code is embedded as a program of the monad [Go]: a finite tree of
    calls to the outside world (the clock, the Redis client [common.RDB], the
    three in-process maps) that ends in a returned value or in a run-time
    panic.  A handler answers the calls; [result], [final] and [trace] run a
    program against a handler.  Properties that hold whatever the store
    answers are stated for every handler; properties about stored data are
    stated for the handler [handle], which implements the in-process maps and
    a model of the Redis commands the package uses. *)

From stdpp Require Import gmap strings list fin_maps pretty.
From Stdlib Require Import ZArith Lia Ascii.

Open Scope Z_scope.

(** ** Machine integers

    [int64] values are integers of [Z] with the wrap-around of the addition
    and subtraction written out.  Go's [int] is taken to be 64 bits wide, so
    that the conversions [int64(rpm)] and [int(lenVal)] are the identity. *)

Definition wrap64 (z : Z) : Z := (z + 2 ^ 63) mod 2 ^ 64 - 2 ^ 63.
Definition add64 (a b : Z) : Z := wrap64 (a + b).
Definition sub64 (a b : Z) : Z := wrap64 (a - b).

Definition int64 (z : Z) : Prop := - 2 ^ 63 <= z < 2 ^ 63.

(** A Unix time as the clock delivers it: not negative and far from the end
    of the [int64] range. *)
Definition unix_time (t : Z) : Prop := 0 <= t < 2 ^ 62.

(** ** Keys *)

Definition ChannelRPMPrefix : string := "channel:rpm:".
Definition ChannelTPMPrefix : string := "channel:tpm:".
Definition ChannelRPDPrefix : string := "channel:rpd:".

(** [fmt.Sprintf("%d:%s", channelId, modelName)] *)
Definition memoryKey (channelId : Z) (modelName : string) : string :=
  pretty channelId +:+ ":" +:+ modelName.

(** [fmt.Sprintf("%s%d:%s", prefix, channelId, modelName)] *)
Definition redisKey (prefix : string) (channelId : Z) (modelName : string) : string :=
  prefix +:+ pretty channelId +:+ ":" +:+ modelName.

(** ** Values *)

Record MemoryCountItem := { Count : Z; Expiration : Z }.

(** A Go [error]: [None] is [nil]. *)
Definition error : Type := option string.
Definition nil : error := None.
Definition Errorf (msg : string) : error := Some msg.

(** What a Redis command of the client returns: a value, or an error (in
    which case the value the client hands out is the zero value). *)
Inductive RedisError := RedisNil | WrongType | OutOfRange | IOFailure.

Inductive reply (A : Type) :=
| Ok (a : A)
| Err (e : RedisError).
Arguments Ok {A} a.
Arguments Err {A} e.

Definition val (r : reply Z) : Z :=
  match r with Ok v => v | Err _ => 0 end.

(** ** Calls to the outside world *)

Inductive Ev : Type -> Type :=
| TimeNowUnix : Ev Z
(* common.RDB *)
| LLen (key : string) : Ev (reply Z)
| LIndex (key : string) (index : Z) : Ev (reply Z)
| Get (key : string) : Ev (reply Z)
| LPush (key : string) (v : Z) : Ev (reply Z)
| LTrim (key : string) (start stop : Z) : Ev (reply unit)
| Expire (key : string) (seconds : Z) : Ev (reply bool)
| Incr (key : string) : Ev (reply Z)
| IncrBy (key : string) (n : Z) : Ev (reply Z)
(* memoryRPMStore, memoryTPMStore, memoryRPDStore *)
| RPMLoad (key : string) : Ev (option (list Z))
| RPMStore (key : string) (v : list Z) : Ev unit
| TPMLoad (key : string) : Ev (option MemoryCountItem)
| TPMStore (key : string) (v : MemoryCountItem) : Ev unit
| RPDLoad (key : string) : Ev (option MemoryCountItem)
| RPDStore (key : string) (v : MemoryCountItem) : Ev unit.

(** ** Programs *)

Inductive Go (A : Type) : Type :=
| Ret (a : A)
| Panic
| Vis {X : Type} (e : Ev X) (k : X -> Go A).
Arguments Ret {A} a.
Arguments Panic {A}.
Arguments Vis {A X} e k.

Fixpoint bind {A B} (p : Go A) (f : A -> Go B) : Go B :=
  match p with
  | Ret a => f a
  | Panic => Panic
  | Vis e k => Vis e (fun x => bind (k x) f)
  end.

Definition call {X} (e : Ev X) : Go X := Vis e Ret.

Notation "'let*' x ':=' p 'in' q" := (bind p (fun x => q))
  (at level 10, x name, p at level 100, q at level 200).

(** A block of statements either returns from the enclosing function or
    falls through to the statements after it. *)
Definition returns {A} (a : A) : Go (option A) := Ret (Some a).
Definition falls {A} : Go (option A) := Ret None.

Notation "'stmt' blk 'next' rest" :=
  (bind blk (fun r => match r with Some a => Ret a | None => rest end))
  (at level 10, blk at level 100, rest at level 200).

(** One answered call. *)
Inductive Step :=
| Did {X : Type} (e : Ev X) (x : X).

Definition handler (W : Type) : Type := forall X, Ev X -> W -> X * W.

Section Run.
Context {W : Type} (h : handler W).

Fixpoint result {A} (p : Go A) (w : W) : option A :=
  match p with
  | Ret a => Some a
  | Panic => None
  | Vis e k => result (k (fst (h _ e w))) (snd (h _ e w))
  end.

Fixpoint final {A} (p : Go A) (w : W) : W :=
  match p with
  | Ret _ => w
  | Panic => w
  | Vis e k => final (k (fst (h _ e w))) (snd (h _ e w))
  end.

Fixpoint trace {A} (p : Go A) (w : W) : list Step :=
  match p with
  | Ret _ => []
  | Panic => []
  | Vis e k => Did e (fst (h _ e w)) :: trace (k (fst (h _ e w))) (snd (h _ e w))
  end.
End Run.

(** ** The world the package runs in

    The in-process stores are the three maps of the package.  The Redis
    store is modelled after the documented behaviour of the commands the
    package issues: every key holds a list or an integer and may carry an
    expiration time; a key whose expiration time has been reached is absent
    for every command (it is dropped lazily, when it is next written).  List
    elements and counters are written by the client as decimal integers and
    parsed back, so they are kept as integers.  Time is counted in whole
    seconds, and the Redis server reads the same clock as the package. *)

Inductive RedisData :=
| RList (l : list Z)
| RInt (n : Z).

Record RedisEntry := { data : RedisData; expireAt : option Z }.

Record World := {
  clock : Z;
  rdb : gmap string RedisEntry;
  memoryRPMStore : gmap string (list Z);
  memoryTPMStore : gmap string MemoryCountItem;
  memoryRPDStore : gmap string MemoryCountItem
}.

Definition emptyWorld (t : Z) : World :=
  {| clock := t; rdb := ∅; memoryRPMStore := ∅; memoryTPMStore := ∅; memoryRPDStore := ∅ |}.

Definition setClock (t : Z) (w : World) : World :=
  {| clock := t; rdb := rdb w; memoryRPMStore := memoryRPMStore w;
     memoryTPMStore := memoryTPMStore w; memoryRPDStore := memoryRPDStore w |}.
Definition setRdb (db : gmap string RedisEntry) (w : World) : World :=
  {| clock := clock w; rdb := db; memoryRPMStore := memoryRPMStore w;
     memoryTPMStore := memoryTPMStore w; memoryRPDStore := memoryRPDStore w |}.
Definition setRPM (m : gmap string (list Z)) (w : World) : World :=
  {| clock := clock w; rdb := rdb w; memoryRPMStore := m;
     memoryTPMStore := memoryTPMStore w; memoryRPDStore := memoryRPDStore w |}.
Definition setTPM (m : gmap string MemoryCountItem) (w : World) : World :=
  {| clock := clock w; rdb := rdb w; memoryRPMStore := memoryRPMStore w;
     memoryTPMStore := m; memoryRPDStore := memoryRPDStore w |}.
Definition setRPD (m : gmap string MemoryCountItem) (w : World) : World :=
  {| clock := clock w; rdb := rdb w; memoryRPMStore := memoryRPMStore w;
     memoryTPMStore := memoryTPMStore w; memoryRPDStore := m |}.

Module Redis.

(** The entry of [key] at time [now], if it has not expired. *)
Definition live (now : Z) (db : gmap string RedisEntry) (key : string) : option RedisEntry :=
  match db !! key with
  | Some e =>
      match expireAt e with
      | Some t => if decide (t <= now) then None else Some e
      | None => Some e
      end
  | None => None
  end.

Definition llen (now : Z) (db : gmap string RedisEntry) (key : string) : reply Z :=
  match live now db key with
  | None => Ok 0
  | Some e =>
      match data e with
      | RList l => Ok (Z.of_nat (length l))
      | RInt _ => Err WrongType
      end
  end.

(** LINDEX: a negative index counts from the tail. *)
Definition lindex (now : Z) (db : gmap string RedisEntry) (key : string) (index : Z) : reply Z :=
  match live now db key with
  | None => Err RedisNil
  | Some e =>
      match data e with
      | RList l =>
          let i := if decide (index < 0) then Z.of_nat (length l) + index else index in
          if decide (0 <= i) then
            match l !! Z.to_nat i with
            | Some v => Ok v
            | None => Err RedisNil
            end
          else Err RedisNil
      | RInt _ => Err WrongType
      end
  end.

Definition get (now : Z) (db : gmap string RedisEntry) (key : string) : reply Z :=
  match live now db key with
  | None => Err RedisNil
  | Some e =>
      match data e with
      | RInt n => Ok n
      | RList _ => Err WrongType
      end
  end.

Definition lpush (now : Z) (db : gmap string RedisEntry) (key : string) (v : Z)
  : reply Z * gmap string RedisEntry :=
  match live now db key with
  | None => (Ok 1, <[key := {| data := RList [v]; expireAt := None |}]> db)
  | Some e =>
      match data e with
      | RList l =>
          (Ok (Z.of_nat (length l) + 1),
           <[key := {| data := RList (v :: l); expireAt := expireAt e |}]> db)
      | RInt _ => (Err WrongType, db)
      end
  end.

(** LTRIM keeps the elements from [start] to [stop], both included;
    negative indices count from the tail; a list left empty is removed. *)
Definition ltrim (now : Z) (db : gmap string RedisEntry) (key : string) (start stop : Z)
  : reply unit * gmap string RedisEntry :=
  match live now db key with
  | None => (Ok tt, db)
  | Some e =>
      match data e with
      | RList l =>
          let n := Z.of_nat (length l) in
          let s := Z.max 0 (if decide (start < 0) then n + start else start) in
          let t := Z.min (n - 1) (if decide (stop < 0) then n + stop else stop) in
          let kept := if decide (s <= t)
                      then take (Z.to_nat (t - s + 1)) (drop (Z.to_nat s) l)
                      else [] in
          match kept with
          | [] => (Ok tt, delete key db)
          | _ => (Ok tt, <[key := {| data := RList kept; expireAt := expireAt e |}]> db)
          end
      | RInt _ => (Err WrongType, db)
      end
  end.

Definition expire (now : Z) (db : gmap string RedisEntry) (key : string) (seconds : Z)
  : reply bool * gmap string RedisEntry :=
  match live now db key with
  | None => (Ok false, db)
  | Some e =>
      if decide (seconds <= 0) then (Ok true, delete key db)
      else (Ok true, <[key := {| data := data e; expireAt := Some (now + seconds) |}]> db)
  end.

(** INCRBY (and INCR, with [n = 1]): an absent key counts as 0; an
    increment that leaves the signed 64-bit range is refused. *)
Definition incrby (now : Z) (db : gmap string RedisEntry) (key : string) (n : Z)
  : reply Z * gmap string RedisEntry :=
  match live now db key with
  | None => (Ok n, <[key := {| data := RInt n; expireAt := None |}]> db)
  | Some e =>
      match data e with
      | RInt v =>
          if decide (- 2 ^ 63 <= v + n < 2 ^ 63)
          then (Ok (v + n), <[key := {| data := RInt (v + n); expireAt := expireAt e |}]> db)
          else (Err OutOfRange, db)
      | RList _ => (Err WrongType, db)
      end
  end.

End Redis.

Definition onRdb {A} (w : World) (r : A * gmap string RedisEntry) : A * World :=
  (fst r, setRdb (snd r) w).

(** The handler of the modelled world. *)
Definition handle : handler World := fun X e =>
  match e in Ev X return World -> X * World with
  | TimeNowUnix => fun w => (clock w, w)
  | LLen key => fun w => (Redis.llen (clock w) (rdb w) key, w)
  | LIndex key index => fun w => (Redis.lindex (clock w) (rdb w) key index, w)
  | Get key => fun w => (Redis.get (clock w) (rdb w) key, w)
  | LPush key v => fun w => onRdb w (Redis.lpush (clock w) (rdb w) key v)
  | LTrim key start stop => fun w => onRdb w (Redis.ltrim (clock w) (rdb w) key start stop)
  | Expire key seconds => fun w => onRdb w (Redis.expire (clock w) (rdb w) key seconds)
  | Incr key => fun w => onRdb w (Redis.incrby (clock w) (rdb w) key 1)
  | IncrBy key n => fun w => onRdb w (Redis.incrby (clock w) (rdb w) key n)
  | RPMLoad key => fun w => (memoryRPMStore w !! key, w)
  | RPMStore key v => fun w => (tt, setRPM (<[key := v]> (memoryRPMStore w)) w)
  | TPMLoad key => fun w => (memoryTPMStore w !! key, w)
  | TPMStore key v => fun w => (tt, setTPM (<[key := v]> (memoryTPMStore w)) w)
  | RPDLoad key => fun w => (memoryRPDStore w !! key, w)
  | RPDStore key v => fun w => (tt, setRPD (<[key := v]> (memoryRPDStore w)) w)
  end.

(** ** The package, lines 1-269 *)

Definition errSaturated : error := Errorf "当前渠道模型负载已饱和".

(** *** Redis implementation *)

Definition checkChannelRateLimitRedis (channelId : Z) (modelName : string) (rpm tpm rpd : Z)
  : Go error :=
  (* RPM Check (Sliding Window using List) *)
  stmt (if decide (rpm > 0) then
          let key := redisKey ChannelRPMPrefix channelId modelName in
          let* lenVal := call (LLen key) in
          match lenVal with
          | Ok lenVal =>
              if decide (lenVal >= rpm) then
                let* oldTimeVal := call (LIndex key (-1)) in
                match oldTimeVal with
                | Ok oldTimeVal =>
                    let* now := call TimeNowUnix in
                    if decide (sub64 now oldTimeVal < 60) then returns errSaturated
                    else falls
                | Err _ => falls
                end
              else falls
          | Err _ => falls
          end
        else falls)
  next
  (* RPD Check (Fixed Window 24h) *)
  stmt (if decide (rpd > 0) then
          let key := redisKey ChannelRPDPrefix channelId modelName in
          let* v := call (Get key) in
          match v with
          | Ok v => if decide (v >= rpd) then returns errSaturated else falls
          | Err _ => falls
          end
        else falls)
  next
  (* TPM Check (Fixed Window 1m) *)
  stmt (if decide (tpm > 0) then
          let key := redisKey ChannelTPMPrefix channelId modelName in
          let* v := call (Get key) in
          match v with
          | Ok v => if decide (v >= tpm) then returns errSaturated else falls
          | Err _ => falls
          end
        else falls)
  next
  Ret nil.

Definition recordChannelRateLimitRedis (channelId : Z) (modelName : string)
    (rpm tpm rpd : Z) (tokens : Z) : Go unit :=
  (* RPM Record *)
  let limitRPM := if decide (rpm <= 0) then 1000 else rpm in
  let keyRPM := redisKey ChannelRPMPrefix channelId modelName in
  let* now := call TimeNowUnix in
  let* _ := call (LPush keyRPM now) in
  let* _ := call (LTrim keyRPM 0 (limitRPM - 1)) in
  let* _ := call (Expire keyRPM 60) in
  (* RPD Record *)
  let keyRPD := redisKey ChannelRPDPrefix channelId modelName in
  let* v := call (Incr keyRPD) in
  let* _ := (if decide (val v = 1) then
               let* _ := call (Expire keyRPD (24 * 3600)) in Ret tt
             else Ret tt) in
  (* TPM Record *)
  if decide (tokens > 0) then
    let keyTPM := redisKey ChannelTPMPrefix channelId modelName in
    let* v := call (IncrBy keyTPM tokens) in
    if decide (val v = tokens) then
      let* _ := call (Expire keyTPM 60) in Ret tt
    else Ret tt
  else Ret tt.

Definition getChannelRateLimitUsageRedis (channelId : Z) (modelName : string)
  : Go (Z * Z * Z) :=
  let rpmKey := redisKey ChannelRPMPrefix channelId modelName in
  let* rpm := call (LLen rpmKey) in
  let tpmKey := redisKey ChannelTPMPrefix channelId modelName in
  let* tpm := call (Get tpmKey) in
  let rpdKey := redisKey ChannelRPDPrefix channelId modelName in
  let* rpd := call (Get rpdKey) in
  Ret (val rpm, val tpm, val rpd).

(** *** Memory implementation *)

(** [for _, ts := range timestamps { if now-ts < 60 { count++ } }]; the
    count never exceeds the length of the slice ([countRecent_bounds]), so
    its increment is written without wrap-around. *)
Definition countRecent (now : Z) (timestamps : list Z) : Z :=
  fold_left (fun count ts => if decide (sub64 now ts < 60) then count + 1 else count)
            timestamps 0.

(** [for _, ts := range timestamps { if now-ts < 60 { new = append(new, ts) } }] *)
Definition keepRecent (now : Z) (timestamps : list Z) : list Z :=
  fold_left (fun newTimestamps ts =>
               if decide (sub64 now ts < 60) then newTimestamps ++ [ts] else newTimestamps)
            timestamps [].

(** The slice expression [s[low:]], which panics when [low] is out of range. *)
Definition sliceFrom {A} (s : list A) (low : Z) : Go (list A) :=
  if decide (0 <= low <= Z.of_nat (length s)) then Ret (drop (Z.to_nat low) s) else Panic.

Definition checkChannelRateLimitMemory (channelId : Z) (modelName : string) (rpm tpm rpd : Z)
  : Go error :=
  let* now := call TimeNowUnix in
  let key := memoryKey channelId modelName in
  (* RPM Check *)
  stmt (if decide (rpm > 0) then
          let* found := call (RPMLoad key) in
          match found with
          | Some timestamps =>
              let count := countRecent now timestamps in
              if decide (count >= rpm) then returns errSaturated else falls
          | None => falls
          end
        else falls)
  next
  (* TPM Check *)
  stmt (if decide (tpm > 0) then
          let* found := call (TPMLoad key) in
          match found with
          | Some item =>
              if decide (now < Expiration item /\ Count item >= tpm)
              then returns errSaturated else falls
          | None => falls
          end
        else falls)
  next
  (* RPD Check *)
  stmt (if decide (rpd > 0) then
          let* found := call (RPDLoad key) in
          match found with
          | Some item =>
              if decide (now < Expiration item /\ Count item >= rpd)
              then returns errSaturated else falls
          | None => falls
          end
        else falls)
  next
  Ret nil.

Definition recordChannelRateLimitMemory (channelId : Z) (modelName : string)
    (rpm tpm rpd : Z) (tokens : Z) : Go unit :=
  let* now := call TimeNowUnix in
  let key := memoryKey channelId modelName in
  (* RPM Record *)
  let* found := call (RPMLoad key) in
  let timestamps := default [] found in
  let newTimestamps := keepRecent now timestamps in
  let newTimestamps := newTimestamps ++ [now] in
  let limitRPM := if decide (rpm <= 0) then 1000 else rpm in
  let* newTimestamps :=
    (if decide (Z.of_nat (length newTimestamps) > limitRPM)
     then sliceFrom newTimestamps (Z.of_nat (length newTimestamps) - limitRPM)
     else Ret newTimestamps) in
  let* _ := call (RPMStore key newTimestamps) in
  (* TPM Record *)
  let* _ := (if decide (tokens > 0) then
               let* found := call (TPMLoad key) in
               let item :=
                 match found with
                 | Some item =>
                     if decide (now >= Expiration item)
                     then {| Count := tokens; Expiration := add64 now 60 |}
                     else {| Count := add64 (Count item) tokens;
                             Expiration := Expiration item |}
                 | None => {| Count := tokens; Expiration := add64 now 60 |}
                 end in
               call (TPMStore key item)
             else Ret tt) in
  (* RPD Record *)
  let* found := call (RPDLoad key) in
  let item :=
    match found with
    | Some item =>
        if decide (now >= Expiration item)
        then {| Count := 1; Expiration := add64 now (24 * 3600) |}
        else {| Count := add64 (Count item) 1; Expiration := Expiration item |}
    | None => {| Count := 1; Expiration := add64 now (24 * 3600) |}
    end in
  call (RPDStore key item).

Definition getChannelRateLimitUsageMemory (channelId : Z) (modelName : string)
  : Go (Z * Z * Z) :=
  let* now := call TimeNowUnix in
  let key := memoryKey channelId modelName in
  (* RPM *)
  let* found := call (RPMLoad key) in
  let rpm := match found with
             | Some timestamps => countRecent now timestamps
             | None => 0
             end in
  (* TPM *)
  let* found := call (TPMLoad key) in
  let tpm := match found with
             | Some item => if decide (now < Expiration item) then Count item else 0
             | None => 0
             end in
  (* RPD *)
  let* found := call (RPDLoad key) in
  let rpd := match found with
             | Some item => if decide (now < Expiration item) then Count item else 0
             | None => 0
             end in
  Ret (rpm, tpm, rpd).

(** *** The three operations; [RedisEnabled] is [common.RedisEnabled]. *)

Definition CheckChannelRateLimit (RedisEnabled : bool)
    (channelId : Z) (modelName : string) (rpm tpm rpd : Z) : Go error :=
  if RedisEnabled then checkChannelRateLimitRedis channelId modelName rpm tpm rpd
  else checkChannelRateLimitMemory channelId modelName rpm tpm rpd.

Definition RecordChannelRateLimit (RedisEnabled : bool)
    (channelId : Z) (modelName : string) (rpm tpm rpd : Z) (tokens : Z) : Go unit :=
  if RedisEnabled then recordChannelRateLimitRedis channelId modelName rpm tpm rpd tokens
  else recordChannelRateLimitMemory channelId modelName rpm tpm rpd tokens.

Definition GetChannelRateLimitUsage (RedisEnabled : bool)
    (channelId : Z) (modelName : string) : Go (Z * Z * Z) :=
  if RedisEnabled then getChannelRateLimitUsageRedis channelId modelName
  else getChannelRateLimitUsageMemory channelId modelName.

(** ** The package, lines 270-533

    This revision names the saturated dimension in its error, records a
    dimension only when its limit is positive, and does not cap the
    in-process RPM history.  Reading usage is the same code as above. *)

Module Guarded.

Definition errExceeded (modelName dimension : string) : error :=
  Errorf ("model " +:+ modelName +:+ " " +:+ dimension +:+ " limit exceeded").

Definition checkChannelRateLimitRedis (channelId : Z) (modelName : string) (rpm tpm rpd : Z)
  : Go error :=
  (* RPM Check (Sliding Window using List) *)
  stmt (if decide (rpm > 0) then
          let key := redisKey ChannelRPMPrefix channelId modelName in
          let* lenVal := call (LLen key) in
          match lenVal with
          | Ok lenVal =>
              if decide (lenVal >= rpm) then
                let* oldTimeVal := call (LIndex key (-1)) in
                match oldTimeVal with
                | Ok oldTimeVal =>
                    let* now := call TimeNowUnix in
                    if decide (sub64 now oldTimeVal < 60)
                    then returns (errExceeded modelName "RPM")
                    else falls
                | Err _ => falls
                end
              else falls
          | Err _ => falls
          end
        else falls)
  next
  (* RPD Check (Fixed Window 24h) *)
  stmt (if decide (rpd > 0) then
          let key := redisKey ChannelRPDPrefix channelId modelName in
          let* v := call (Get key) in
          match v with
          | Ok v => if decide (v >= rpd) then returns (errExceeded modelName "RPD") else falls
          | Err _ => falls
          end
        else falls)
  next
  (* TPM Check (Fixed Window 1m) *)
  stmt (if decide (tpm > 0) then
          let key := redisKey ChannelTPMPrefix channelId modelName in
          let* v := call (Get key) in
          match v with
          | Ok v => if decide (v >= tpm) then returns (errExceeded modelName "TPM") else falls
          | Err _ => falls
          end
        else falls)
  next
  Ret nil.

Definition recordChannelRateLimitRedis (channelId : Z) (modelName : string)
    (rpm tpm rpd : Z) (tokens : Z) : Go unit :=
  (* RPM Record *)
  let* _ := (if decide (rpm > 0) then
               let key := redisKey ChannelRPMPrefix channelId modelName in
               let* now := call TimeNowUnix in
               let* _ := call (LPush key now) in
               let* _ := call (LTrim key 0 (rpm - 1)) in
               let* _ := call (Expire key 60) in
               Ret tt
             else Ret tt) in
  (* RPD Record *)
  let* _ := (if decide (rpd > 0) then
               let key := redisKey ChannelRPDPrefix channelId modelName in
               let* v := call (Incr key) in
               if decide (val v = 1) then
                 let* _ := call (Expire key (24 * 3600)) in Ret tt
               else Ret tt
             else Ret tt) in
  (* TPM Record *)
  if decide (tpm > 0 /\ tokens > 0) then
    let key := redisKey ChannelTPMPrefix channelId modelName in
    let* v := call (IncrBy key tokens) in
    if decide (val v = tokens) then
      let* _ := call (Expire key 60) in Ret tt
    else Ret tt
  else Ret tt.

Definition checkChannelRateLimitMemory (channelId : Z) (modelName : string) (rpm tpm rpd : Z)
  : Go error :=
  let* now := call TimeNowUnix in
  let key := memoryKey channelId modelName in
  (* RPM Check *)
  stmt (if decide (rpm > 0) then
          let* found := call (RPMLoad key) in
          match found with
          | Some timestamps =>
              let count := countRecent now timestamps in
              if decide (count >= rpm) then returns (errExceeded modelName "RPM") else falls
          | None => falls
          end
        else falls)
  next
  (* TPM Check *)
  stmt (if decide (tpm > 0) then
          let* found := call (TPMLoad key) in
          match found with
          | Some item =>
              if decide (now < Expiration item /\ Count item >= tpm)
              then returns (errExceeded modelName "TPM") else falls
          | None => falls
          end
        else falls)
  next
  (* RPD Check *)
  stmt (if decide (rpd > 0) then
          let* found := call (RPDLoad key) in
          match found with
          | Some item =>
              if decide (now < Expiration item /\ Count item >= rpd)
              then returns (errExceeded modelName "RPD") else falls
          | None => falls
          end
        else falls)
  next
  Ret nil.

Definition recordChannelRateLimitMemory (channelId : Z) (modelName : string)
    (rpm tpm rpd : Z) (tokens : Z) : Go unit :=
  let* now := call TimeNowUnix in
  let key := memoryKey channelId modelName in
  (* RPM Record *)
  let* _ := (if decide (rpm > 0) then
               let* found := call (RPMLoad key) in
               let timestamps := default [] found in
               let newTimestamps := keepRecent now timestamps in
               let newTimestamps := newTimestamps ++ [now] in
               call (RPMStore key newTimestamps)
             else Ret tt) in
  (* TPM Record *)
  let* _ := (if decide (tpm > 0 /\ tokens > 0) then
               let* found := call (TPMLoad key) in
               let item :=
                 match found with
                 | Some item =>
                     if decide (now >= Expiration item)
                     then {| Count := tokens; Expiration := add64 now 60 |}
                     else {| Count := add64 (Count item) tokens;
                             Expiration := Expiration item |}
                 | None => {| Count := tokens; Expiration := add64 now 60 |}
                 end in
               call (TPMStore key item)
             else Ret tt) in
  (* RPD Record *)
  if decide (rpd > 0) then
    let* found := call (RPDLoad key) in
    let item :=
      match found with
      | Some item =>
          if decide (now >= Expiration item)
          then {| Count := 1; Expiration := add64 now (24 * 3600) |}
          else {| Count := add64 (Count item) 1; Expiration := Expiration item |}
      | None => {| Count := 1; Expiration := add64 now (24 * 3600) |}
      end in
    call (RPDStore key item)
  else Ret tt.

Definition RecordChannelRateLimit (RedisEnabled : bool)
    (channelId : Z) (modelName : string) (rpm tpm rpd : Z) (tokens : Z) : Go unit :=
  if RedisEnabled then recordChannelRateLimitRedis channelId modelName rpm tpm rpd tokens
  else recordChannelRateLimitMemory channelId modelName rpm tpm rpd tokens.

Definition CheckChannelRateLimit (RedisEnabled : bool)
    (channelId : Z) (modelName : string) (rpm tpm rpd : Z) : Go error :=
  if RedisEnabled then checkChannelRateLimitRedis channelId modelName rpm tpm rpd
  else checkChannelRateLimitMemory channelId modelName rpm tpm rpd.

Definition getChannelRateLimitUsageRedis (channelId : Z) (modelName : string)
  : Go (Z * Z * Z) :=
  let rpmKey := redisKey ChannelRPMPrefix channelId modelName in
  let* rpm := call (LLen rpmKey) in
  let tpmKey := redisKey ChannelTPMPrefix channelId modelName in
  let* tpm := call (Get tpmKey) in
  let rpdKey := redisKey ChannelRPDPrefix channelId modelName in
  let* rpd := call (Get rpdKey) in
  Ret (val rpm, val tpm, val rpd).

Definition getChannelRateLimitUsageMemory (channelId : Z) (modelName : string)
  : Go (Z * Z * Z) :=
  let* now := call TimeNowUnix in
  let key := memoryKey channelId modelName in
  (* RPM *)
  let* found := call (RPMLoad key) in
  let rpm := match found with
             | Some timestamps => countRecent now timestamps
             | None => 0
             end in
  (* TPM *)
  let* found := call (TPMLoad key) in
  let tpm := match found with
             | Some item => if decide (now < Expiration item) then Count item else 0
             | None => 0
             end in
  (* RPD *)
  let* found := call (RPDLoad key) in
  let rpd := match found with
             | Some item => if decide (now < Expiration item) then Count item else 0
             | None => 0
             end in
  Ret (rpm, tpm, rpd).

Definition GetChannelRateLimitUsage (RedisEnabled : bool)
    (channelId : Z) (modelName : string) : Go (Z * Z * Z) :=
  if RedisEnabled then getChannelRateLimitUsageRedis channelId modelName
  else getChannelRateLimitUsageMemory channelId modelName.

End Guarded.

(** ** Scripted runs

    A script is a list of calls, each made at a given clock reading; running
    it against one backend yields the result of every call. *)

Inductive Call :=
| Check (channelId : Z) (modelName : string) (rpm tpm rpd : Z)
| Record_ (channelId : Z) (modelName : string) (rpm tpm rpd : Z) (tokens : Z)
| GetUsage (channelId : Z) (modelName : string).

Inductive Outcome :=
| Checked (e : error)
| Recorded
| Usage (rpm tpm rpd : Z)
| Panicked.

Definition perform (RedisEnabled : bool) (c : Call) (w : World) : Outcome * World :=
  match c with
  | Check channelId modelName rpm tpm rpd =>
      let p := CheckChannelRateLimit RedisEnabled channelId modelName rpm tpm rpd in
      (match result handle p w with Some e => Checked e | None => Panicked end,
       final handle p w)
  | Record_ channelId modelName rpm tpm rpd tokens =>
      let p := RecordChannelRateLimit RedisEnabled channelId modelName rpm tpm rpd tokens in
      (match result handle p w with Some _ => Recorded | None => Panicked end,
       final handle p w)
  | GetUsage channelId modelName =>
      let p := GetChannelRateLimitUsage RedisEnabled channelId modelName in
      (match result handle p w with
       | Some (rpm, tpm, rpd) => Usage rpm tpm rpd
       | None => Panicked
       end,
       final handle p w)
  end.

Fixpoint runScript (RedisEnabled : bool) (script : list (Z * Call)) (w : World)
  : list Outcome :=
  match script with
  | [] => []
  | (t, c) :: script =>
      let r := perform RedisEnabled c (setClock t w) in
      fst r :: runScript RedisEnabled script (snd r)
  end.

(** The world a script leaves behind. *)
Fixpoint endScript (RedisEnabled : bool) (script : list (Z * Call)) (w : World) : World :=
  match script with
  | [] => w
  | (t, c) :: script => endScript RedisEnabled script (snd (perform RedisEnabled c (setClock t w)))
  end.

Definition tokensOf (c : Call) : Z :=
  match c with
  | Record_ _ _ _ _ _ tokens => tokens
  | _ => 0
  end.

Fixpoint totalTokens (script : list (Z * Call)) : Z :=
  match script with
  | [] => 0
  | (_, c) :: script => tokensOf c + totalTokens script
  end.

(** * Vocabulary of the properties *)

(** ** Dimensions and keys *)

(** No character of [s] is a colon. *)
Fixpoint colonFree (s : string) : Prop :=
  match s with
  | EmptyString => True
  | String a s => a <> ":"%char /\ colonFree s
  end.

(** The three quota dimensions. *)
Inductive Dimension := RPM | TPM | RPD.

Global Instance Dimension_eq_dec : EqDecision Dimension.
Proof. solve_decision. Defined.

(** The Redis key prefix of a dimension. *)
Definition prefixOf (d : Dimension) : string :=
  match d with
  | RPM => ChannelRPMPrefix
  | TPM => ChannelTPMPrefix
  | RPD => ChannelRPDPrefix
  end.

(** The dimension a Redis key belongs to, by its prefix. *)
Definition keyDimension (key : string) : option Dimension :=
  if String.prefix ChannelRPMPrefix key then Some RPM
  else if String.prefix ChannelTPMPrefix key then Some TPM
  else if String.prefix ChannelRPDPrefix key then Some RPD
  else None.

(** The dimension whose store a call reads or writes. *)
Definition eventDimension {X} (e : Ev X) : option Dimension :=
  match e with
  | TimeNowUnix => None
  | LLen key | LIndex key _ | Get key | LPush key _ | LTrim key _ _
  | Expire key _ | Incr key | IncrBy key _ => keyDimension key
  | RPMLoad _ | RPMStore _ _ => Some RPM
  | TPMLoad _ | TPMStore _ _ => Some TPM
  | RPDLoad _ | RPDStore _ _ => Some RPD
  end.

Definition stepDimension (s : Step) : option Dimension :=
  match s with Did e _ => eventDimension e end.

(** The dimensions a run consulted, in the order of their first call. *)
Definition consulted (tr : list Step) : list Dimension :=
  reverse (remove_dups (reverse (omap stepDimension tr))).

(** The limit of dimension [d] among the arguments of [Check]. *)
Definition limitOf (d : Dimension) (rpm tpm rpd : Z) : Z :=
  match d with RPM => rpm | TPM => tpm | RPD => rpd end.

(** ** The in-process backend in closed form *)

(** The cap of the RPM history: [limitRPM] in [Record]. *)
Definition capOf (rpm : Z) : Z := if decide (rpm <= 0) then 1000 else rpm.

(** The RPM history [Record] stores: the events of the last minute and the
    current one, cut to the newest [capOf rpm]. *)
Definition nextTimestamps (now rpm : Z) (found : option (list Z)) : list Z :=
  let kept := filter (fun ts => sub64 now ts < 60) (default [] found) ++ [now] in
  drop (length kept - Z.to_nat (capOf rpm)) kept.

(** The counter [Record] stores: a fresh one when there is none or it has
    expired, the old one plus [amount] otherwise. *)
Definition nextCounter (now amount window : Z) (found : option MemoryCountItem)
  : MemoryCountItem :=
  match found with
  | Some item =>
      if decide (now >= Expiration item)
      then {| Count := amount; Expiration := add64 now window |}
      else {| Count := add64 (Count item) amount; Expiration := Expiration item |}
  | None => {| Count := amount; Expiration := add64 now window |}
  end.

(** The world after [recordChannelRateLimitMemory]. *)
Definition afterRecordMemory (channelId : Z) (modelName : string) (rpm tokens : Z)
    (w : World) : World :=
  let now := clock w in
  let key := memoryKey channelId modelName in
  {| clock := now;
     rdb := rdb w;
     memoryRPMStore :=
       <[key := nextTimestamps now rpm (memoryRPMStore w !! key)]> (memoryRPMStore w);
     memoryTPMStore :=
       if decide (tokens > 0)
       then <[key := nextCounter now tokens 60 (memoryTPMStore w !! key)]> (memoryTPMStore w)
       else memoryTPMStore w;
     memoryRPDStore :=
       <[key := nextCounter now 1 (24 * 3600) (memoryRPDStore w !! key)]> (memoryRPDStore w) |}.

(** The same for the [Record] of lines 458-500. *)
Definition afterGuardedRecordMemory (channelId : Z) (modelName : string) (rpm tpm rpd tokens : Z)
    (w : World) : World :=
  let now := clock w in
  let key := memoryKey channelId modelName in
  {| clock := now;
     rdb := rdb w;
     memoryRPMStore :=
       if decide (rpm > 0)
       then <[key := filter (fun ts => sub64 now ts < 60)
                            (default [] (memoryRPMStore w !! key)) ++ [now]]>
              (memoryRPMStore w)
       else memoryRPMStore w;
     memoryTPMStore :=
       if decide (tpm > 0 /\ tokens > 0)
       then <[key := nextCounter now tokens 60 (memoryTPMStore w !! key)]> (memoryTPMStore w)
       else memoryTPMStore w;
     memoryRPDStore :=
       if decide (rpd > 0)
       then <[key := nextCounter now 1 (24 * 3600) (memoryRPDStore w !! key)]>
              (memoryRPDStore w)
       else memoryRPDStore w |}.

(** The count of a counter at time [now]: 0 when absent or expired. *)
Definition readCounter (now : Z) (found : option MemoryCountItem) : Z :=
  match found with
  | Some item => if decide (now < Expiration item) then Count item else 0
  | None => 0
  end.

(** The next [record] on a key replaces a stale counter of [store], one
    whose expiration time is not after the current time, with a fresh pair:
    afterwards the key holds a counter with a new expiration time, one that
    is still to come. *)
Definition replacesStale (store : World -> gmap string MemoryCountItem)
    (record : Z -> string -> Z -> Z -> Z -> Z -> Go unit) : Prop :=
  forall w channelId modelName item rpm tpm rpd tokens,
    let now := clock w in
    let key := memoryKey channelId modelName in
    unix_time now ->
    store w !! key = Some item ->
    Expiration item <= now ->
    exists fresh,
      store (final handle (record channelId modelName rpm tpm rpd tokens) w) !! key
      = Some fresh /\
      now < Expiration fresh.

(** ** The verdict of [Check] *)

(** The usage of dimension [d] has reached [limit], as the in-process
    backend measures it. *)
Definition reachedMemory (w : World) (key : string) (d : Dimension) (limit : Z) : bool :=
  match d with
  | RPM =>
      match memoryRPMStore w !! key with
      | Some timestamps => bool_decide (countRecent (clock w) timestamps >= limit)
      | None => false
      end
  | TPM =>
      match memoryTPMStore w !! key with
      | Some item => bool_decide (clock w < Expiration item /\ Count item >= limit)
      | None => false
      end
  | RPD =>
      match memoryRPDStore w !! key with
      | Some item => bool_decide (clock w < Expiration item /\ Count item >= limit)
      | None => false
      end
  end.

(** The usage of dimension [d] has reached [limit], as the Redis backend
    measures it. *)
Definition reachedRedis (w : World) (channelId : Z) (modelName : string)
    (d : Dimension) (limit : Z) : bool :=
  let now := clock w in
  match d with
  | RPM =>
      let key := redisKey ChannelRPMPrefix channelId modelName in
      match Redis.llen now (rdb w) key with
      | Ok lenVal =>
          bool_decide (lenVal >= limit) &&
          match Redis.lindex now (rdb w) key (-1) with
          | Ok oldTimeVal => bool_decide (sub64 now oldTimeVal < 60)
          | Err _ => false
          end
      | Err _ => false
      end
  | TPM =>
      match Redis.get now (rdb w) (redisKey ChannelTPMPrefix channelId modelName) with
      | Ok v => bool_decide (v >= limit)
      | Err _ => false
      end
  | RPD =>
      match Redis.get now (rdb w) (redisKey ChannelRPDPrefix channelId modelName) with
      | Ok v => bool_decide (v >= limit)
      | Err _ => false
      end
  end.

(** Whether [d] is limited and has reached its limit, as backend
    [RedisEnabled] measures it in world [w]. *)
Definition blocks (RedisEnabled : bool) (w : World) (channelId : Z) (modelName : string)
    (rpm tpm rpd : Z) (d : Dimension) : bool :=
  bool_decide (limitOf d rpm tpm rpd > 0) &&
  (if RedisEnabled then reachedRedis w channelId modelName d (limitOf d rpm tpm rpd)
   else reachedMemory w (memoryKey channelId modelName) d (limitOf d rpm tpm rpd)).

(** What [Check] returns. *)
Definition verdict (blocked : bool) : error :=
  if blocked then errSaturated else nil.

(** Going through the dimensions in [order]: unlimited dimensions are
    skipped, the others are consulted one after the other up to the first one
    that has reached its limit.  Yields the dimensions consulted and whether
    one of them blocks. *)
Fixpoint walk (order : list Dimension) (limited reached : Dimension -> bool)
  : list Dimension * bool :=
  match order with
  | [] => ([], false)
  | d :: order =>
      if limited d then
        if reached d then ([d], true)
        else (d :: (walk order limited reached).1, (walk order limited reached).2)
      else walk order limited reached
  end.

(** [Check] goes through the dimensions in [order]: it consults what [walk]
    consults and returns what [walk] finds. *)
Definition followsOrder (order : list Dimension) (RedisEnabled : bool) (w : World)
    (channelId : Z) (modelName : string) (rpm tpm rpd : Z) : Prop :=
  let p := CheckChannelRateLimit RedisEnabled channelId modelName rpm tpm rpd in
  let r := walk order
             (fun d => bool_decide (limitOf d rpm tpm rpd > 0))
             (fun d => if RedisEnabled
                       then reachedRedis w channelId modelName d (limitOf d rpm tpm rpd)
                       else reachedMemory w (memoryKey channelId modelName) d
                              (limitOf d rpm tpm rpd)) in
  consulted (trace handle p w) = r.1 /\ result handle p w = Some (verdict r.2).

(** ** The Redis backend in closed form *)

(** An entry that has not expired at time [now]. *)
Definition liveEntry (now : Z) (found : option RedisEntry) : option RedisEntry :=
  match found with
  | Some e =>
      match expireAt e with
      | Some t => if decide (t <= now) then None else Some e
      | None => Some e
      end
  | None => None
  end.

(** The list a key holds at time [now]; empty when the key is absent. *)
Definition liveList (now : Z) (db : gmap string RedisEntry) (key : string) : list Z :=
  match Redis.live now db key with
  | Some {| data := RList l |} => l
  | _ => []
  end.

(** The key is absent at time [now] or holds a list. *)
Definition listOrAbsent (now : Z) (db : gmap string RedisEntry) (key : string) : Prop :=
  match Redis.live now db key with
  | Some {| data := RInt _ |} => False
  | _ => True
  end.

(** INCRBY, then EXPIRE when the counter is new: what [Record] does for a
    counter. *)
Definition counterWrite (now : Z) (db : gmap string RedisEntry) (key : string) (n ttl : Z)
  : gmap string RedisEntry :=
  let r := Redis.incrby now db key n in
  if decide (val r.1 = n) then (Redis.expire now r.2 key ttl).2 else r.2.

(** The entry [Record] leaves for a counter: a counter that is there grows,
    one that is absent starts with the amount and a full window. *)
Definition nextEntry (now n ttl : Z) (found : option RedisEntry) : RedisEntry :=
  match found with
  | Some {| data := RInt v; expireAt := e |} => {| data := RInt (v + n); expireAt := e |}
  | _ => {| data := RInt n; expireAt := Some (now + ttl) |}
  end.

(** The counter under [key] can take [n] more: it is absent, or an integer
    other than 0 that stays in range. *)
Definition counterOk (now : Z) (db : gmap string RedisEntry) (key : string) (n : Z) : Prop :=
  match Redis.live now db key with
  | None => True
  | Some {| data := RInt v |} => v <> 0 /\ int64 (v + n)
  | Some {| data := RList _ |} => False
  end.

(** [record] writes the RPM history on every call: the clock reading goes
    to the head of the stored list, which is cut to the configured limit, or
    to 1000 when the limit is zero or negative. *)
Definition recordsHistory (record : Z -> string -> Z -> Z -> Z -> Z -> Go unit) : Prop :=
  forall w channelId modelName rpm tpm rpd tokens,
    let now := clock w in
    let key := redisKey ChannelRPMPrefix channelId modelName in
    listOrAbsent now (rdb w) key ->
    rdb (final handle (record channelId modelName rpm tpm rpd tokens) w) !! key
    = Some {| data := RList (take (Z.to_nat (capOf rpm)) (now :: liveList now (rdb w) key));
              expireAt := Some (now + 60) |}.

(** ** Scripts *)

(** A [Record] on [(channelId, modelName)] with a positive token count, made
    in the minute that starts at [t1]. *)
Definition recordsInWindow (channelId : Z) (modelName : string) (t1 : Z) (tc : Z * Call)
  : Prop :=
  unix_time tc.1 /\ t1 <= tc.1 < t1 + 60 /\
  exists rpm tpm rpd tokens,
    tc.2 = Record_ channelId modelName rpm tpm rpd tokens /\ tokens > 0.

(** Every [Check] and [Record] carries the RPM limit configured for its
    (channel, model) pair. *)
Definition usesLimit (limit : Z -> string -> Z) (c : Call) : Prop :=
  match c with
  | Check channelId modelName rpm _ _ => rpm = limit channelId modelName
  | Record_ channelId modelName rpm _ _ _ => rpm = limit channelId modelName
  | GetUsage _ _ => True
  end.

(** The clock readings are Unix times and never go back. *)
Fixpoint clockwise (t0 : Z) (script : list (Z * Call)) : Prop :=
  match script with
  | [] => True
  | (t, _) :: script => t0 <= t /\ unix_time t /\ clockwise t script
  end.

(** An upper bound on what the calls of a script add to any counter. *)
Fixpoint load (script : list (Z * Call)) : Z :=
  match script with
  | [] => 0
  | (_, c) :: script => 1 + Z.max 0 (tokensOf c) + load script
  end.

(** The outcomes of one call on the Redis backend and on the in-process
    backend agree: the same verdict, the same TPM and RPD usage, and an RPM
    usage that the in-process backend, which counts only the last minute,
    reports no higher than the Redis backend, which reports the length of
    its list. *)
Definition agree (redis memory : Outcome) : Prop :=
  match redis, memory with
  | Checked e, Checked e' => e = e'
  | Recorded, Recorded => True
  | Usage rpm tpm rpd, Usage rpm' tpm' rpd' => tpm = tpm' /\ rpd = rpd' /\ rpm' <= rpm
  | _, _ => False
  end.

(** The two backends give the same outcomes on [script]. *)
Definition backendsIdentical (script : list (Z * Call)) : Prop :=
  runScript true script (emptyWorld 0) = runScript false script (emptyWorld 0).

(** ** The two backends side by side *)

(** Newest first. *)
Fixpoint descending (l : list Z) : Prop :=
  match l with
  | [] => True
  | x :: l => Forall (fun y => y <= x) l /\ descending l
  end.

(** What the Redis list and the in-process history of one key have in
    common at time [now]: the list holds the recorded clock readings newest
    first, cut to [cap] and expiring a minute after the newest one; the
    history holds, oldest first, those of them that were within a minute of
    the newest one when it was recorded. *)
Definition rpmRelated (now cap : Z) (E : option RedisEntry) (M : option (list Z)) : Prop :=
  (E = None /\ M = None) \/
  exists hd tl,
    E = Some {| data := RList (hd :: tl); expireAt := Some (hd + 60) |} /\
    M = Some (reverse (filter (fun ts => hd - ts < 60) (hd :: tl))) /\
    hd <= now /\ descending (hd :: tl) /\ Forall unix_time (hd :: tl) /\
    Z.of_nat (length (hd :: tl)) <= cap.

(** A Redis counter and an in-process counter hold the same count and the
    same expiration time. *)
Definition counterRelated (bound : Z) (E : option RedisEntry) (M : option MemoryCountItem)
  : Prop :=
  (E = None /\ M = None) \/
  exists v x,
    E = Some {| data := RInt v; expireAt := Some x |} /\
    M = Some {| Count := v; Expiration := x |} /\
    0 < v <= bound.

(** The Redis store of [wr] and the in-process stores of [wm] are related
    key by key. *)
Definition related (limit : Z -> string -> Z) (now bound : Z) (wr wm : World) : Prop :=
  forall channelId modelName,
    rpmRelated now (capOf (limit channelId modelName))
      (rdb wr !! redisKey ChannelRPMPrefix channelId modelName)
      (memoryRPMStore wm !! memoryKey channelId modelName) /\
    counterRelated bound
      (rdb wr !! redisKey ChannelTPMPrefix channelId modelName)
      (memoryTPMStore wm !! memoryKey channelId modelName) /\
    counterRelated bound
      (rdb wr !! redisKey ChannelRPDPrefix channelId modelName)
      (memoryRPDStore wm !! memoryKey channelId modelName).

(** ** Example worlds *)

(** A world in which channel 1 has reached a TPM limit of 10 and an RPD limit
    of 1, but not an RPM limit of 5. *)
Definition busyWorld : World :=
  {| clock := 100;
     rdb := ∅;
     memoryRPMStore := {[ "1:gpt-4" := [10; 90]; "2:gpt-4" := [95] ]};
     memoryTPMStore := {[ "1:gpt-4" := {| Count := 40; Expiration := 150 |};
                          "2:gpt-4" := {| Count := 7; Expiration := 155 |} ]};
     memoryRPDStore := {[ "1:gpt-4" := {| Count := 2; Expiration := 86410 |};
                          "2:gpt-4" := {| Count := 1; Expiration := 86495 |} ]} |}.

(** A world with expired TPM and RPD counters. *)
Definition staleWorld : World :=
  {| clock := 200;
     rdb := ∅;
     memoryRPMStore := ∅;
     memoryTPMStore := {[ "1:gpt-4" := {| Count := 40; Expiration := 150 |} ]};
     memoryRPDStore := {[ "1:gpt-4" := {| Count := 40; Expiration := 150 |} ]} |}.

(** A world whose Redis store holds three events for channel 1. *)
Definition queuedWorld : World :=
  {| clock := 100;
     rdb := {[ "channel:rpm:1:gpt-4" := {| data := RList [90; 80; 70]; expireAt := Some 150 |} ]};
     memoryRPMStore := ∅; memoryTPMStore := ∅; memoryRPDStore := ∅ |}.

(** ** Further vocabulary *)

(** A call that reads: the clock, a Redis read command, a map lookup. *)
Definition isRead {X} (e : Ev X) : bool :=
  match e with
  | TimeNowUnix | LLen _ | LIndex _ _ | Get _ | RPMLoad _ | TPMLoad _ | RPDLoad _ => true
  | _ => false
  end.

Definition stepIsRead (s : Step) : bool :=
  match s with Did e _ => isRead e end.

(** The name of a dimension in the errors of lines 270-533. *)
Definition dimensionName (d : Dimension) : string :=
  match d with
  | RPM => "RPM"
  | TPM => "TPM"
  | RPD => "RPD"
  end.

(** A limited dimension whose usage is at or over its limit. *)
Definition reaches (usage limit : Z) : Prop := limit > 0 /\ usage >= limit.

(** A [Record] on [(channelId, modelName)] made in the day that starts at
    [t0]. *)
Definition recordsInDay (channelId : Z) (modelName : string) (t0 : Z) (tc : Z * Call) : Prop :=
  unix_time tc.1 /\ t0 <= tc.1 < t0 + 24 * 3600 /\
  exists rpm tpm rpd tokens, tc.2 = Record_ channelId modelName rpm tpm rpd tokens.

(** A [Record] on [(channelId, modelName)] with RPM limit [rpm], made in the
    minute that starts at [t1]. *)
Definition recordsWithLimit (channelId : Z) (modelName : string) (rpm t1 : Z) (tc : Z * Call)
  : Prop :=
  unix_time tc.1 /\ t1 <= tc.1 < t1 + 60 /\
  exists tpm rpd tokens, tc.2 = Record_ channelId modelName rpm tpm rpd tokens.

(** Whether [o] is the dimension [d]. *)
Definition isDimension (d : Dimension) (o : option Dimension) : bool :=
  match o, d with
  | Some RPM, RPM | Some TPM, TPM | Some RPD, RPD => true
  | _, _ => false
  end.

(** A run that made a writing call on the store of dimension [d]. *)
Definition writesTo (d : Dimension) (tr : list Step) : bool :=
  existsb (fun s => negb (stepIsRead s) && isDimension d (stepDimension s)) tr.

(** A run that made any call on the store of dimension [d]. *)
Definition touches (d : Dimension) (tr : list Step) : bool :=
  existsb (fun s => isDimension d (stepDimension s)) tr.

(** A Unix time in the minute that starts at [t1]. *)
Definition inMinute (t1 ts : Z) : Prop := unix_time ts /\ t1 <= ts < t1 + 60.

(** * Properties *)

(** ** Machine integers *)

Lemma wrap64_int64 z : int64 z -> wrap64 z = z.
Proof.
  unfold int64, wrap64. intros Hz.
  rewrite Z.mod_small by lia. lia.
Qed.

Lemma sub64_unix a b : unix_time a -> unix_time b -> sub64 a b = a - b.
Proof. unfold unix_time, sub64. intros Ha Hb. apply wrap64_int64. unfold int64. lia. Qed.

Lemma add64_unix a d : unix_time a -> 0 <= d <= 24 * 3600 -> add64 a d = a + d.
Proof. unfold unix_time, add64. intros Ha Hd. apply wrap64_int64. unfold int64. lia. Qed.

Lemma add64_int64 a b : int64 (a + b) -> add64 a b = a + b.
Proof. apply wrap64_int64. Qed.

(** ** The loops over the stored timestamps *)

Lemma keepRecent_filter now timestamps :
  keepRecent now timestamps = filter (fun ts => sub64 now ts < 60) timestamps.
Proof.
  unfold keepRecent.
  enough (H : forall acc,
             fold_left (fun newTimestamps ts =>
                          if decide (sub64 now ts < 60) then newTimestamps ++ [ts]
                          else newTimestamps) timestamps acc
             = acc ++ filter (fun ts => sub64 now ts < 60) timestamps)
    by apply (H []).
  induction timestamps as [|ts l IH]; intros acc; simpl.
  - by rewrite app_nil_r.
  - rewrite IH, filter_cons. destruct (decide (sub64 now ts < 60)); [|done].
    by rewrite <- app_assoc.
Qed.

Lemma countRecent_filter now timestamps :
  countRecent now timestamps
  = Z.of_nat (length (filter (fun ts => sub64 now ts < 60) timestamps)).
Proof.
  unfold countRecent.
  enough (H : forall count,
             fold_left (fun count ts => if decide (sub64 now ts < 60) then count + 1 else count)
                       timestamps count
             = count + Z.of_nat (length (filter (fun ts => sub64 now ts < 60) timestamps)))
    by apply (H 0).
  induction timestamps as [|ts l IH]; intros count; simpl.
  - lia.
  - rewrite IH, filter_cons. destruct (decide (sub64 now ts < 60)); simpl; lia.
Qed.

Lemma countRecent_bounds now timestamps :
  0 <= countRecent now timestamps <= Z.of_nat (length timestamps).
Proof.
  rewrite countRecent_filter. pose proof (length_filter (fun ts => sub64 now ts < 60) timestamps). lia.
Qed.

(** ** Keys: distinct (channel, model) pairs have distinct keys *)

Lemma pretty_N_char_colon x : pretty_N_char x <> ":"%char.
Proof. unfold pretty_N_char. by repeat case_match. Qed.

Lemma pretty_N_go_colonFree x s : colonFree s -> colonFree (pretty_N_go x s).
Proof.
  revert s. induction (N.lt_wf_0 x) as [x _ IH]; intros s Hs.
  destruct (decide (x = 0%N)) as [->|Hx].
  - by rewrite pretty_N_go_0.
  - rewrite pretty_N_go_step by lia. apply IH.
    + apply N.div_lt; lia.
    + split; [apply pretty_N_char_colon | done].
Qed.

Lemma pretty_N_colonFree (x : N) : colonFree (pretty x).
Proof.
  unfold pretty, pretty_N. case_decide; [by compute|].
  by apply pretty_N_go_colonFree.
Qed.

Lemma pretty_Z_colonFree (z : Z) : colonFree (pretty z).
Proof.
  unfold pretty, pretty_Z. destruct z as [|p|p]; simpl.
  - by compute.
  - apply pretty_N_colonFree.
  - split; [done | apply pretty_N_colonFree].
Qed.

Lemma append_empty s : "" +:+ s = s.
Proof. reflexivity. Qed.

Lemma append_String c a s : String c a +:+ s = String c (a +:+ s).
Proof. reflexivity. Qed.

Lemma append_inv_head p s1 s2 : p +:+ s1 = p +:+ s2 -> s1 = s2.
Proof.
  induction p as [|c p IH]; rewrite ?append_empty, ?append_String; [done|].
  intros [= H]. auto.
Qed.

Lemma colon_split a b x y :
  colonFree a -> colonFree b ->
  a +:+ ":" +:+ x = b +:+ ":" +:+ y -> a = b /\ x = y.
Proof.
  revert b. induction a as [|c a IH]; intros [|d b] Ha Hb;
    rewrite ?append_empty, ?append_String, ?append_empty.
  - by intros [= ->].
  - intros [= <- _]. by destruct Hb.
  - intros [= -> _]. by destruct Ha.
  - intros [= -> Heq]. destruct Ha as [_ Ha], Hb as [_ Hb].
    destruct (IH b Ha Hb Heq) as [-> ->]. done.
Qed.

Lemma memoryKey_inj c1 m1 c2 m2 :
  memoryKey c1 m1 = memoryKey c2 m2 -> c1 = c2 /\ m1 = m2.
Proof.
  unfold memoryKey. intros H.
  apply colon_split in H as [Hc ->]; [|apply pretty_Z_colonFree..].
  by apply (inj pretty) in Hc as ->.
Qed.

Lemma memoryKey_ne c1 m1 c2 m2 :
  (c1, m1) <> (c2, m2) -> memoryKey c1 m1 <> memoryKey c2 m2.
Proof. intros Hne Heq. apply memoryKey_inj in Heq as [-> ->]. done. Qed.

Lemma redisKey_memoryKey prefix c m : redisKey prefix c m = prefix +:+ memoryKey c m.
Proof. done. Qed.

(** ** Running programs *)

Section RunFacts.
Context {W : Type} (h : handler W).

Lemma result_bind {A B} (p : Go A) (f : A -> Go B) w :
  result h (bind p f) w
  = match result h p w with
    | Some a => result h (f a) (final h p w)
    | None => None
    end.
Proof. revert w. induction p as [a| |X e k IH]; intros w; simpl; auto. Qed.

Lemma final_bind {A B} (p : Go A) (f : A -> Go B) w :
  final h (bind p f) w
  = match result h p w with
    | Some a => final h (f a) (final h p w)
    | None => final h p w
    end.
Proof. revert w. induction p as [a| |X e k IH]; intros w; simpl; auto. Qed.

Lemma trace_bind {A B} (p : Go A) (f : A -> Go B) w :
  trace h (bind p f) w
  = trace h p w ++ match result h p w with
                   | Some a => trace h (f a) (final h p w)
                   | None => []
                   end.
Proof.
  revert w. induction p as [a| |X e k IH]; intros w; simpl; auto.
  by rewrite IH.
Qed.
End RunFacts.

(** [go_simpl] unfolds one layer of a running program, [go_split] splits on
    the condition or the answer the program branches on next, and [go_cases]
    goes through all the paths of the program. *)
Ltac go_simpl :=
  cbn [result final trace bind call returns falls fst snd default] in *.

Ltac go_split :=
  match goal with
  | |- context [match ?x with _ => _ end] => destruct x eqn:?
  | H : context [match ?x with _ => _ end] |- _ => destruct x eqn:?
  end.

Ltac go_cases :=
  repeat (go_simpl; go_split; simplify_eq; try lia); go_simpl.

(** ** Which dimension a call consults *)

Lemma prefix_append p s : String.prefix p (p +:+ s) = true.
Proof.
  induction p as [|c p IH]; [by destruct s|].
  rewrite append_String. simpl. by destruct (ascii_dec c c).
Qed.

Lemma keyDimension_rpm c m : keyDimension (redisKey ChannelRPMPrefix c m) = Some RPM.
Proof. unfold keyDimension, redisKey. by rewrite prefix_append. Qed.

Lemma keyDimension_tpm c m : keyDimension (redisKey ChannelTPMPrefix c m) = Some TPM.
Proof.
  unfold keyDimension, redisKey. rewrite (prefix_append ChannelTPMPrefix). reflexivity.
Qed.

Lemma keyDimension_rpd c m : keyDimension (redisKey ChannelRPDPrefix c m) = Some RPD.
Proof.
  unfold keyDimension, redisKey. rewrite (prefix_append ChannelRPDPrefix). reflexivity.
Qed.

Lemma unit_tt (u : unit) : u = tt.
Proof. by destruct u. Qed.

Ltac dims_simpl :=
  cbn [omap list_omap stepDimension eventDimension last app] in *;
  rewrite ?keyDimension_rpm, ?keyDimension_tpm, ?keyDimension_rpd in *;
  cbn [omap list_omap last option_bind mbind] in *.

(** Closes a goal [exists before v, ... /\ tr = before ++ [_]] for a
    trace [tr] that is known call by call. *)
Ltac ends_with :=
  first [ exists (@List.nil Step); eexists; split_and!; [..|reflexivity]; lia
        | eexists [_]; eexists; split_and!; [..|reflexivity]; lia
        | eexists [_; _]; eexists; split_and!; [..|reflexivity]; lia
        | eexists [_; _; _]; eexists; split_and!; [..|reflexivity]; lia
        | eexists [_; _; _; _]; eexists; split_and!; [..|reflexivity]; lia ].

(** ** What holds whatever the store answers *)

Lemma RecordChannelRateLimit_returns {W} (h : handler W) RedisEnabled w
    channelId modelName rpm tpm rpd tokens :
  result h (RecordChannelRateLimit RedisEnabled channelId modelName rpm tpm rpd tokens) w
  = Some tt.
Proof.
  unfold RecordChannelRateLimit, recordChannelRateLimitRedis, recordChannelRateLimitMemory,
    sliceFrom.
  destruct RedisEnabled.
  - go_cases; done.
  - go_cases; f_equal; apply unit_tt.
Qed.

Section AnyHandler.
Context {W : Type} (h : handler W).


(** C9.  Only [Check] has a failure to report: whatever the store answers,
    [Record] runs to its end and returns nothing, and [GetUsage] runs to
    its end and returns a triple. *)
Theorem record_and_usage_never_fail RedisEnabled w channelId modelName rpm tpm rpd tokens :
  result h (RecordChannelRateLimit RedisEnabled channelId modelName rpm tpm rpd tokens) w
  = Some tt /\
  exists usage : Z * Z * Z,
    result h (GetChannelRateLimitUsage RedisEnabled channelId modelName) w = Some usage.
Proof.
  split; [apply RecordChannelRateLimit_returns|].
  unfold GetChannelRateLimitUsage, getChannelRateLimitUsageRedis,
    getChannelRateLimitUsageMemory.
  destruct RedisEnabled; go_simpl; eauto.
Qed.

(** C8.  The Redis backend fails open: [Check] returns either no error, or
    the saturation error, and then the calls that decided it are the last
    ones it made and every one of them was answered without an error, with
    a value at or over the limit.  A read that the store answers with an
    error is never the one that blocks. *)
Theorem check_redis_fail_open w channelId modelName rpm tpm rpd :
  let p := checkChannelRateLimitRedis channelId modelName rpm tpm rpd in
  let keyRPM := redisKey ChannelRPMPrefix channelId modelName in
  let keyRPD := redisKey ChannelRPDPrefix channelId modelName in
  let keyTPM := redisKey ChannelTPMPrefix channelId modelName in
  result h p w = Some nil \/
  (result h p w = Some errSaturated /\
   ((exists lenVal oldTimeVal now,
       rpm > 0 /\ lenVal >= rpm /\ sub64 now oldTimeVal < 60 /\
       trace h p w = [Did (LLen keyRPM) (Ok lenVal);
                      Did (LIndex keyRPM (-1)) (Ok oldTimeVal);
                      Did TimeNowUnix now]) \/
    (exists before v,
       rpd > 0 /\ v >= rpd /\ trace h p w = before ++ [Did (Get keyRPD) (Ok v)]) \/
    (exists before v,
       tpm > 0 /\ v >= tpm /\ trace h p w = before ++ [Did (Get keyTPM) (Ok v)]))).
Proof.
  intros p keyRPM keyRPD keyTPM. subst p keyRPM keyRPD keyTPM.
  unfold checkChannelRateLimitRedis.
  go_cases; try (by left); right; (split; [done|]).
  all: try (left; do 3 eexists; split_and!; [..|reflexivity]; lia).
  all: try (right; left; ends_with).
  all: right; right; ends_with.
Qed.
End AnyHandler.


(** ** Running programs in the modelled world *)

(** The same for the handler [handle]. *)
Ltac world_simpl :=
  cbn [result final trace bind call returns falls fst snd default
       handle onRdb setClock setRdb setRPM setTPM setRPD
       clock rdb memoryRPMStore memoryTPMStore memoryRPDStore] in *.

(** ** The in-process backend in closed form *)

Lemma capOf_pos rpm : capOf rpm > 0.
Proof. unfold capOf. case_decide; lia. Qed.

Lemma recordChannelRateLimitMemory_final w channelId modelName rpm tpm rpd tokens :
  final handle (recordChannelRateLimitMemory channelId modelName rpm tpm rpd tokens) w
  = afterRecordMemory channelId modelName rpm tokens w.
Proof.
  unfold recordChannelRateLimitMemory, afterRecordMemory, nextTimestamps, sliceFrom.
  rewrite <- keepRecent_filter. fold (capOf rpm).
  pose proof (capOf_pos rpm) as Hcap.
  set (kept := keepRecent _ _ ++ _).
  world_simpl. fold kept.
  destruct (decide (Z.of_nat (length kept) > capOf rpm)) as [Hlen|Hlen].
  - destruct (decide (0 <= Z.of_nat (length kept) - capOf rpm <= Z.of_nat (length kept)));
      [|lia].
    replace (Z.to_nat (Z.of_nat (length kept) - capOf rpm))
      with (length kept - Z.to_nat (capOf rpm))%nat by lia.
    world_simpl. destruct (decide (tokens > 0)); world_simpl; reflexivity.
  - replace (length kept - Z.to_nat (capOf rpm))%nat with 0%nat by lia.
    rewrite drop_0.
    world_simpl. destruct (decide (tokens > 0)); world_simpl; reflexivity.
Qed.

(** ** Checking in closed form *)

(** [decide_bools] settles the [bool_decide]s of the goal from the
    hypotheses; [run_cases] goes through the paths of a program run by
    [handle], splitting in the goal only; [use_equations] rewrites with the
    answers collected on the way. *)
Ltac decide_bools :=
  repeat match goal with
         | |- context [bool_decide ?P] =>
             first [ rewrite (bool_decide_eq_true_2 P) by first [assumption | lia | tauto]
                   | rewrite (bool_decide_eq_false_2 P) by first [assumption | lia | tauto] ]
         end;
  cbn [andb orb]; rewrite ?orb_true_r, ?andb_false_r; cbn [andb orb].

Ltac go_goal_split :=
  match goal with
  | |- context [match ?x with _ => _ end] => destruct x eqn:?
  end.

Ltac use_equations :=
  repeat match goal with H : ?x = _ |- context [?x] => rewrite H end.

Ltac run_cases := world_simpl; repeat (go_goal_split; world_simpl).

Lemma CheckChannelRateLimit_result RedisEnabled w channelId modelName rpm tpm rpd :
  result handle (CheckChannelRateLimit RedisEnabled channelId modelName rpm tpm rpd) w
  = Some (verdict (blocks RedisEnabled w channelId modelName rpm tpm rpd RPM
                   || blocks RedisEnabled w channelId modelName rpm tpm rpd TPM
                   || blocks RedisEnabled w channelId modelName rpm tpm rpd RPD)).
Proof.
  unfold CheckChannelRateLimit, checkChannelRateLimitRedis, checkChannelRateLimitMemory,
    blocks, reachedRedis, reachedMemory.
  destruct RedisEnabled; cbn [limitOf]; run_cases; decide_bools; reflexivity.
Qed.

Lemma CheckChannelRateLimit_final RedisEnabled w channelId modelName rpm tpm rpd :
  final handle (CheckChannelRateLimit RedisEnabled channelId modelName rpm tpm rpd) w = w.
Proof.
  unfold CheckChannelRateLimit, checkChannelRateLimitRedis, checkChannelRateLimitMemory.
  destruct RedisEnabled; run_cases; reflexivity.
Qed.

Lemma getChannelRateLimitUsageMemory_result w channelId modelName :
  result handle (getChannelRateLimitUsageMemory channelId modelName) w
  = Some (match memoryRPMStore w !! memoryKey channelId modelName with
          | Some timestamps => countRecent (clock w) timestamps
          | None => 0
          end,
          readCounter (clock w) (memoryTPMStore w !! memoryKey channelId modelName),
          readCounter (clock w) (memoryRPDStore w !! memoryKey channelId modelName)).
Proof. reflexivity. Qed.

Lemma getChannelRateLimitUsageRedis_result w channelId modelName :
  result handle (getChannelRateLimitUsageRedis channelId modelName) w
  = Some (val (Redis.llen (clock w) (rdb w) (redisKey ChannelRPMPrefix channelId modelName)),
          val (Redis.get (clock w) (rdb w) (redisKey ChannelTPMPrefix channelId modelName)),
          val (Redis.get (clock w) (rdb w) (redisKey ChannelRPDPrefix channelId modelName))).
Proof. reflexivity. Qed.

Lemma GetChannelRateLimitUsage_final RedisEnabled w channelId modelName :
  final handle (GetChannelRateLimitUsage RedisEnabled channelId modelName) w = w.
Proof. by destruct RedisEnabled. Qed.

Lemma guarded_recordChannelRateLimitMemory_final w channelId modelName rpm tpm rpd tokens :
  final handle (Guarded.recordChannelRateLimitMemory channelId modelName rpm tpm rpd tokens) w
  = afterGuardedRecordMemory channelId modelName rpm tpm rpd tokens w.
Proof.
  unfold Guarded.recordChannelRateLimitMemory, afterGuardedRecordMemory.
  rewrite <- keepRecent_filter.
  destruct w, (decide (rpm > 0)), (decide (tpm > 0 /\ tokens > 0)), (decide (rpd > 0));
    reflexivity.
Qed.

(** ** The in-process backend *)

(** C10.  [Record] in the in-process backend, in either revision, leaves the
    RPM history, the TPM counter and the RPD counter of every other
    (channel, model) pair as they were. *)
Theorem record_memory_frame w channelId modelName rpm tpm rpd tokens channelId' modelName' w' :
  (channelId', modelName') <> (channelId, modelName) ->
  w' = final handle (recordChannelRateLimitMemory channelId modelName rpm tpm rpd tokens) w \/
  w' = final handle
         (Guarded.recordChannelRateLimitMemory channelId modelName rpm tpm rpd tokens) w ->
  let key' := memoryKey channelId' modelName' in
  memoryRPMStore w' !! key' = memoryRPMStore w !! key' /\
  memoryTPMStore w' !! key' = memoryTPMStore w !! key' /\
  memoryRPDStore w' !! key' = memoryRPDStore w !! key'.
Proof.
  intros Hne Hw' key'.
  assert (Hkey : memoryKey channelId modelName <> key').
  { intros Heq. symmetry in Heq. by apply memoryKey_ne in Heq. }
  destruct Hw' as [-> | ->].
  - rewrite recordChannelRateLimitMemory_final. unfold afterRecordMemory. cbn.
    case_decide; rewrite ?lookup_insert_ne by done; done.
  - rewrite guarded_recordChannelRateLimitMemory_final.
    unfold afterGuardedRecordMemory. cbn.
    repeat case_decide; rewrite ?lookup_insert_ne by done; done.
Qed.

Lemma record_memory_frame_witness :
  memoryRPMStore (final handle (recordChannelRateLimitMemory 1 "gpt-4" 2 100 10 5) busyWorld)
    !! memoryKey 2 "gpt-4" = Some [95].
Proof.
  refine (eq_trans
            (proj1 (record_memory_frame busyWorld 1 "gpt-4" 2 100 10 5 2 "gpt-4" _ _
                      (or_introl eq_refl))) _).
  - intros [= ?]; lia.
  - reflexivity.
Defined.

(** C5, as stated, fails for the TPM counter: a [Record] without tokens
    skips the TPM block (line 218) and leaves the stale pair where it is. *)
Lemma record_without_tokens_keeps_stale :
  memoryTPMStore (final handle (recordChannelRateLimitMemory 1 "gpt-4" 0 0 0 0) staleWorld)
    !! memoryKey 1 "gpt-4" = Some {| Count := 40; Expiration := 150 |} /\
  ~ replacesStale memoryTPMStore recordChannelRateLimitMemory.
Proof.
  split; [reflexivity|].
  intros H.
  destruct (H staleWorld 1 "gpt-4" {| Count := 40; Expiration := 150 |} 0 0 0 0)
    as (fresh & Hfresh & Hlater).
  - unfold unix_time. simpl. lia.
  - reflexivity.
  - simpl. lia.
  - change (Some {| Count := 40; Expiration := 150 |} = Some fresh) in Hfresh.
    injection Hfresh as <-. simpl in Hlater. lia.
Qed.

(** C5, amended.  In the in-process backend a TPM or RPD counter whose
    expiration time is not after the current time counts for nothing:
    [Check] answers as if the counter were absent and [GetUsage] reports 0
    for it.  The next [Record] that writes the dimension (every [Record] for
    RPD, a [Record] with a positive token count for TPM) stores a fresh
    pair, the amount of that call with an expiration one window ahead,
    instead of adding to the stale count; a [Record] whose token count is
    zero or negative leaves the stale TPM pair as it is. *)
Theorem stale_counter_memory w channelId modelName item :
  let now := clock w in
  let key := memoryKey channelId modelName in
  unix_time now ->
  Expiration item <= now ->
  (memoryTPMStore w !! key = Some item ->
     (forall rpm tpm rpd,
        result handle (checkChannelRateLimitMemory channelId modelName rpm tpm rpd) w
        = result handle (checkChannelRateLimitMemory channelId modelName rpm tpm rpd)
                 (setTPM (delete key (memoryTPMStore w)) w)) /\
     (exists rpm rpd,
        result handle (getChannelRateLimitUsageMemory channelId modelName) w
        = Some (rpm, 0, rpd)) /\
     (forall rpm tpm rpd tokens,
        tokens > 0 ->
        memoryTPMStore
          (final handle (recordChannelRateLimitMemory channelId modelName rpm tpm rpd tokens) w)
          !! key
        = Some {| Count := tokens; Expiration := now + 60 |}) /\
     (forall rpm tpm rpd tokens,
        tokens <= 0 ->
        memoryTPMStore
          (final handle (recordChannelRateLimitMemory channelId modelName rpm tpm rpd tokens) w)
          !! key
        = Some item)) /\
  (memoryRPDStore w !! key = Some item ->
     (forall rpm tpm rpd,
        result handle (checkChannelRateLimitMemory channelId modelName rpm tpm rpd) w
        = result handle (checkChannelRateLimitMemory channelId modelName rpm tpm rpd)
                 (setRPD (delete key (memoryRPDStore w)) w)) /\
     (exists rpm tpm,
        result handle (getChannelRateLimitUsageMemory channelId modelName) w
        = Some (rpm, tpm, 0)) /\
     (forall rpm tpm rpd tokens,
        memoryRPDStore
          (final handle (recordChannelRateLimitMemory channelId modelName rpm tpm rpd tokens) w)
          !! key
        = Some {| Count := 1; Expiration := now + 24 * 3600 |})).
Proof.
  intros now key Hnow Hstale. subst now key.
  split; intros Hitem; split_and!.
  - intros rpm tpm rpd.
    rewrite !(CheckChannelRateLimit_result false).
    unfold blocks, reachedMemory. cbn [limitOf setTPM memoryRPMStore memoryTPMStore
      memoryRPDStore clock].
    rewrite Hitem, lookup_delete_eq.
    rewrite (bool_decide_eq_false_2 (clock w < Expiration item /\ _)) by lia.
    reflexivity.
  - rewrite getChannelRateLimitUsageMemory_result, Hitem. unfold readCounter at 1.
    rewrite decide_False by lia. eauto.
  - intros rpm tpm rpd tokens Htokens.
    rewrite recordChannelRateLimitMemory_final. unfold afterRecordMemory.
    cbn [memoryTPMStore]. rewrite decide_True by done.
    rewrite lookup_insert_eq, Hitem. unfold nextCounter.
    rewrite decide_True by lia. by rewrite add64_unix by (done || lia).
  - intros rpm tpm rpd tokens Htokens.
    rewrite recordChannelRateLimitMemory_final. unfold afterRecordMemory.
    cbn [memoryTPMStore]. by rewrite decide_False by lia.
  - intros rpm tpm rpd.
    rewrite !(CheckChannelRateLimit_result false).
    unfold blocks, reachedMemory. cbn [limitOf setRPD memoryRPMStore memoryTPMStore
      memoryRPDStore clock].
    rewrite Hitem, lookup_delete_eq.
    rewrite (bool_decide_eq_false_2 (clock w < Expiration item /\ _)) by lia.
    reflexivity.
  - rewrite getChannelRateLimitUsageMemory_result, Hitem. unfold readCounter at 2.
    rewrite decide_False by lia. eauto.
  - intros rpm tpm rpd tokens.
    rewrite recordChannelRateLimitMemory_final. unfold afterRecordMemory.
    cbn [memoryRPDStore].
    rewrite lookup_insert_eq, Hitem. unfold nextCounter.
    rewrite decide_True by lia. by rewrite add64_unix by (done || lia).
Qed.

Lemma stale_counter_memory_witness :
  result handle (getChannelRateLimitUsageMemory 1 "gpt-4") staleWorld = Some (0, 0, 0) /\
  memoryTPMStore (final handle (recordChannelRateLimitMemory 1 "gpt-4" 0 0 0 9) staleWorld)
    !! memoryKey 1 "gpt-4" = Some {| Count := 9; Expiration := 260 |} /\
  memoryRPDStore (final handle (recordChannelRateLimitMemory 1 "gpt-4" 0 0 0 9) staleWorld)
    !! memoryKey 1 "gpt-4" = Some {| Count := 1; Expiration := 86600 |} /\
  memoryTPMStore (final handle (recordChannelRateLimitMemory 1 "gpt-4" 0 0 0 0) staleWorld)
    !! memoryKey 1 "gpt-4" = Some {| Count := 40; Expiration := 150 |}.
Proof.
  assert (Hnow : unix_time (clock staleWorld)) by (unfold unix_time; simpl; lia).
  assert (Hstale : Expiration {| Count := 40; Expiration := 150 |} <= clock staleWorld)
    by (simpl; lia).
  destruct (stale_counter_memory staleWorld 1 "gpt-4" {| Count := 40; Expiration := 150 |}
              Hnow Hstale) as [Htpm Hrpd].
  destruct (Htpm eq_refl) as (_ & _ & Hrecord & Hkeeps).
  destruct (Hrpd eq_refl) as (_ & _ & Hrecord').
  split_and!.
  - reflexivity.
  - apply (Hrecord 0 0 0 9). lia.
  - apply (Hrecord' 0 0 0 9).
  - apply (Hkeeps 0 0 0 0). lia.
Defined.

Lemma perform_record_memory w channelId modelName rpm tpm rpd tokens :
  (perform false (Record_ channelId modelName rpm tpm rpd tokens) w).2
  = afterRecordMemory channelId modelName rpm tokens w.
Proof. apply recordChannelRateLimitMemory_final. Qed.

Lemma totalTokens_window channelId modelName t1 script :
  Forall (recordsInWindow channelId modelName t1) script -> 0 <= totalTokens script.
Proof.
  induction 1 as [|[t c] script (_ & _ & rpm & tpm & rpd & tokens & Hc & Htok) _ IH];
    simpl in *; [lia|]. subst c. simpl. lia.
Qed.

(** Once the minute is open, every further [Record] in it adds its tokens. *)
Lemma endScript_window channelId modelName t1 script w acc :
  Forall (recordsInWindow channelId modelName t1) script ->
  memoryTPMStore w !! memoryKey channelId modelName
  = Some {| Count := acc; Expiration := t1 + 60 |} ->
  0 <= acc -> acc + totalTokens script < 2 ^ 63 ->
  memoryTPMStore (endScript false script w) !! memoryKey channelId modelName
  = Some {| Count := acc + totalTokens script; Expiration := t1 + 60 |}.
Proof.
  intros Hall. revert w acc.
  induction Hall as [|[t c] script (Ht & Hwin & rpm & tpm & rpd & tokens & Hc & Htok) Hall IH];
    intros w acc Hitem Hacc Hsum.
  { cbn [totalTokens endScript]. by rewrite Z.add_0_r. }
  simpl in Hc, Ht, Hwin. subst c. cbn [totalTokens tokensOf endScript] in *.
  pose proof (totalTokens_window _ _ _ _ Hall) as Hrest.
  rewrite perform_record_memory.
  replace (acc + (tokens + totalTokens script)) with ((acc + tokens) + totalTokens script) by lia.
  apply IH; [|lia..].
  unfold afterRecordMemory. cbn [memoryTPMStore setClock clock].
  rewrite decide_True by done. rewrite lookup_insert_eq, Hitem.
  unfold nextCounter. cbn [Expiration Count]. rewrite decide_False by lia.
  rewrite add64_int64 by (unfold int64; lia). done.
Qed.


(** ** The Redis store *)

Lemma live_insert_eq now db key e :
  Redis.live now (<[key := e]> db) key
  = match expireAt e with
    | Some t => if decide (t <= now) then None else Some e
    | None => Some e
    end.
Proof. unfold Redis.live. by rewrite lookup_insert_eq. Qed.

Lemma live_insert_ne now db key key' e :
  key <> key' -> Redis.live now (<[key := e]> db) key' = Redis.live now db key'.
Proof. intros. unfold Redis.live. by rewrite lookup_insert_ne. Qed.

Lemma live_expireAt now db key e :
  Redis.live now db key = Some e ->
  match expireAt e with Some t => now < t | None => True end.
Proof.
  unfold Redis.live. destruct (db !! key) as [e'|]; [|done].
  destruct (expireAt e') as [t|] eqn:He; [case_decide|]; intros [= <-]; rewrite He; [lia|done].
Qed.

(** LPUSH, LTRIM to [cap] elements, EXPIRE in 60 seconds. *)
Lemma rpm_write now db key cap :
  cap >= 1 -> listOrAbsent now db key ->
  (Redis.expire now (Redis.ltrim now (Redis.lpush now db key now).2 key 0 (cap - 1)).2 key 60).2
  = <[key := {| data := RList (take (Z.to_nat cap) (now :: liveList now db key));
                expireAt := Some (now + 60) |}]> db.
Proof.
  intros Hcap Hlist. unfold listOrAbsent, liveList in *.
  assert (Hlpush : exists e,
             (Redis.lpush now db key now).2
             = <[key := {| data := RList (now :: match Redis.live now db key with
                                                  | Some {| data := RList l |} => l
                                                  | _ => []
                                                  end);
                           expireAt := e |}]> db /\
             match e with Some t => now < t | None => True end).
  { unfold Redis.lpush. destruct (Redis.live now db key) as [[[l|n] e]|] eqn:Hlive;
      try done; cbn [data expireAt snd].
    - exists e. split; [done|]. by apply live_expireAt in Hlive.
    - by exists None. }
  destruct Hlpush as (e & -> & He).
  set (l := now :: _).
  assert (Hlive1 : Redis.live now (<[key := {| data := RList l; expireAt := e |}]> db) key
                   = Some {| data := RList l; expireAt := e |}).
  { rewrite live_insert_eq. cbn [expireAt]. destruct e as [t|]; [|done].
    by rewrite decide_False by lia. }
  unfold Redis.ltrim. rewrite Hlive1. cbn [data expireAt].
  assert (Hlen : 1 <= Z.of_nat (length l)) by (subst l; simpl; lia).
  cbv zeta.
  destruct (decide (0 < 0)); [lia|]. destruct (decide (cap - 1 < 0)); [lia|].
  rewrite Z.max_id. rewrite decide_True by lia.
  change (Z.to_nat 0) with 0%nat. rewrite drop_0.
  replace (take (Z.to_nat (Z.min (Z.of_nat (length l) - 1) (cap - 1) - 0 + 1)) l)
    with (take (Z.to_nat cap) l).
  2:{ destruct (decide (cap <= Z.of_nat (length l))).
      - f_equal. lia.
      - rewrite !take_ge by lia. done. }
  destruct (take (Z.to_nat cap) l) as [|x kept] eqn:Hkept.
  { exfalso. subst l. destruct (Z.to_nat cap) eqn:?; [lia|done]. }
  cbn [snd]. rewrite insert_insert_eq.
  unfold Redis.expire. rewrite live_insert_eq. cbn [expireAt data].
  destruct e as [t|]; [rewrite decide_False by lia|];
    rewrite decide_False by lia; cbn [snd data]; by rewrite insert_insert_eq.
Qed.

Lemma recordChannelRateLimitRedis_final w channelId modelName rpm tpm rpd tokens :
  final handle (recordChannelRateLimitRedis channelId modelName rpm tpm rpd tokens) w
  = let now := clock w in
    let keyRPM := redisKey ChannelRPMPrefix channelId modelName in
    let keyRPD := redisKey ChannelRPDPrefix channelId modelName in
    let keyTPM := redisKey ChannelTPMPrefix channelId modelName in
    let db1 := (Redis.expire now
                  (Redis.ltrim now (Redis.lpush now (rdb w) keyRPM now).2
                     keyRPM 0 (capOf rpm - 1)).2 keyRPM 60).2 in
    let db2 := counterWrite now db1 keyRPD 1 (24 * 3600) in
    setRdb (if decide (tokens > 0) then counterWrite now db2 keyTPM tokens 60 else db2) w.
Proof.
  unfold recordChannelRateLimitRedis, counterWrite. fold (capOf rpm).
  destruct w as [now db rpms tpms rpds]. world_simpl. cbv zeta.
  repeat (go_goal_split; world_simpl); reflexivity.
Qed.

Lemma live_ext now db db' key : db !! key = db' !! key -> Redis.live now db key = Redis.live now db' key.
Proof. unfold Redis.live. by intros ->. Qed.

Lemma lpush_ne now db key v key' :
  key <> key' -> (Redis.lpush now db key v).2 !! key' = db !! key'.
Proof.
  intros. unfold Redis.lpush. repeat case_match; cbn [snd]; by rewrite ?lookup_insert_ne.
Qed.

Lemma ltrim_ne now db key start stop key' :
  key <> key' -> (Redis.ltrim now db key start stop).2 !! key' = db !! key'.
Proof.
  intros. unfold Redis.ltrim.
  repeat case_match; cbn [snd]; by rewrite ?lookup_insert_ne, ?lookup_delete_ne.
Qed.

Lemma expire_ne now db key seconds key' :
  key <> key' -> (Redis.expire now db key seconds).2 !! key' = db !! key'.
Proof.
  intros. unfold Redis.expire.
  repeat case_match; cbn [snd]; by rewrite ?lookup_insert_ne, ?lookup_delete_ne.
Qed.

Lemma incrby_ne now db key n key' :
  key <> key' -> (Redis.incrby now db key n).2 !! key' = db !! key'.
Proof.
  intros. unfold Redis.incrby. repeat case_match; cbn [snd]; by rewrite ?lookup_insert_ne.
Qed.

Lemma counterWrite_ne now db key n ttl key' :
  key <> key' -> counterWrite now db key n ttl !! key' = db !! key'.
Proof.
  intros. unfold counterWrite. cbv zeta.
  case_decide; by rewrite ?expire_ne, ?incrby_ne.
Qed.

(** A counter that is absent is created with the amount and the window. *)
Lemma counterWrite_fresh now db key n ttl :
  Redis.live now db key = None -> ttl > 0 ->
  counterWrite now db key n ttl
  = <[key := {| data := RInt n; expireAt := Some (now + ttl) |}]> db.
Proof.
  intros Hlive Httl. unfold counterWrite, Redis.incrby. rewrite Hlive. cbn [fst snd val].
  destruct (decide (n = n)); [|done].
  unfold Redis.expire. rewrite live_insert_eq. cbn [expireAt data].
  rewrite decide_False by lia. cbn [snd]. by rewrite insert_insert_eq.
Qed.

(** A counter that is there grows and keeps its expiration. *)
Lemma counterWrite_bump now db key n ttl v e :
  Redis.live now db key = Some {| data := RInt v; expireAt := e |} ->
  v <> 0 -> int64 (v + n) ->
  counterWrite now db key n ttl = <[key := {| data := RInt (v + n); expireAt := e |}]> db.
Proof.
  intros Hlive Hv Hrange. unfold counterWrite, Redis.incrby. rewrite Hlive. cbn [data expireAt].
  unfold int64 in Hrange.
  destruct (decide (- 2 ^ 63 <= v + n < 2 ^ 63)); [|done]. cbn [fst snd val].
  destruct (decide (v + n = n)); [lia|done].
Qed.

Lemma redisKey_dimension_ne key key' :
  keyDimension key <> keyDimension key' -> key <> key'.
Proof. congruence. Qed.

Lemma redisKey_inj prefix c1 m1 c2 m2 :
  redisKey prefix c1 m1 = redisKey prefix c2 m2 -> c1 = c2 /\ m1 = m2.
Proof.
  rewrite !redisKey_memoryKey. intros H%append_inv_head. by apply memoryKey_inj.
Qed.

Lemma redisKey_rpm_rpd c1 m1 c2 m2 :
  redisKey ChannelRPDPrefix c1 m1 <> redisKey ChannelRPMPrefix c2 m2.
Proof. apply redisKey_dimension_ne. by rewrite keyDimension_rpm, keyDimension_rpd. Qed.

Lemma redisKey_rpm_tpm c1 m1 c2 m2 :
  redisKey ChannelTPMPrefix c1 m1 <> redisKey ChannelRPMPrefix c2 m2.
Proof. apply redisKey_dimension_ne. by rewrite keyDimension_rpm, keyDimension_tpm. Qed.

Lemma redisKey_tpm_rpd c1 m1 c2 m2 :
  redisKey ChannelTPMPrefix c1 m1 <> redisKey ChannelRPDPrefix c2 m2.
Proof. apply redisKey_dimension_ne. by rewrite keyDimension_tpm, keyDimension_rpd. Qed.

Lemma keyDimension_prefixOf d c m : keyDimension (redisKey (prefixOf d) c m) = Some d.
Proof.
  destruct d; [apply keyDimension_rpm | apply keyDimension_tpm | apply keyDimension_rpd].
Qed.

Lemma redisKey_ne d1 c1 m1 d2 c2 m2 :
  (c1, m1) <> (c2, m2) \/ d1 <> d2 ->
  redisKey (prefixOf d1) c1 m1 <> redisKey (prefixOf d2) c2 m2.
Proof.
  intros Hne Heq.
  assert (d1 = d2) as ->.
  { apply (f_equal keyDimension) in Heq. rewrite !keyDimension_prefixOf in Heq. congruence. }
  apply redisKey_inj in Heq as [-> ->]. by destruct Hne.
Qed.

(** What [Record] of the Redis backend leaves under the RPM key. *)
Lemma recordChannelRateLimitRedis_rpm w channelId modelName rpm tpm rpd tokens :
  let now := clock w in
  let key := redisKey ChannelRPMPrefix channelId modelName in
  listOrAbsent now (rdb w) key ->
  rdb (final handle (recordChannelRateLimitRedis channelId modelName rpm tpm rpd tokens) w) !! key
  = Some {| data := RList (take (Z.to_nat (capOf rpm)) (now :: liveList now (rdb w) key));
            expireAt := Some (now + 60) |}.
Proof.
  intros now key Hlist. subst now key.
  rewrite recordChannelRateLimitRedis_final. cbv zeta. cbn [rdb setRdb].
  pose proof (capOf_pos rpm).
  case_decide; rewrite ?counterWrite_ne by (apply redisKey_rpm_rpd || apply redisKey_rpm_tpm);
    rewrite rpm_write by (done || lia); by rewrite lookup_insert_eq.
Qed.

Lemma guarded_recordChannelRateLimitRedis_final w channelId modelName rpm tpm rpd tokens :
  final handle (Guarded.recordChannelRateLimitRedis channelId modelName rpm tpm rpd tokens) w
  = let now := clock w in
    let keyRPM := redisKey ChannelRPMPrefix channelId modelName in
    let keyRPD := redisKey ChannelRPDPrefix channelId modelName in
    let keyTPM := redisKey ChannelTPMPrefix channelId modelName in
    let db1 := if decide (rpm > 0)
               then (Redis.expire now
                       (Redis.ltrim now (Redis.lpush now (rdb w) keyRPM now).2
                          keyRPM 0 (rpm - 1)).2 keyRPM 60).2
               else rdb w in
    let db2 := if decide (rpd > 0) then counterWrite now db1 keyRPD 1 (24 * 3600) else db1 in
    setRdb (if decide (tpm > 0 /\ tokens > 0) then counterWrite now db2 keyTPM tokens 60
            else db2) w.
Proof.
  unfold Guarded.recordChannelRateLimitRedis, counterWrite.
  destruct w as [now db rpms tpms rpds]. world_simpl. cbv zeta.
  repeat (go_goal_split; world_simpl); reflexivity.
Qed.

Lemma guarded_recordChannelRateLimitRedis_rpm w channelId modelName rpm tpm rpd tokens :
  let now := clock w in
  let key := redisKey ChannelRPMPrefix channelId modelName in
  rdb (final handle (Guarded.recordChannelRateLimitRedis channelId modelName rpm tpm rpd tokens)
         w) !! key
  = if decide (rpm > 0)
    then (Redis.expire now
            (Redis.ltrim now (Redis.lpush now (rdb w) key now).2 key 0 (rpm - 1)).2 key 60).2
         !! key
    else rdb w !! key.
Proof.
  intros now key. subst now key.
  rewrite guarded_recordChannelRateLimitRedis_final. cbv zeta. cbn [rdb setRdb].
  repeat case_decide;
    by rewrite ?counterWrite_ne by (apply redisKey_rpm_rpd || apply redisKey_rpm_tpm).
Qed.

(** ** Recording the RPM history in the Redis backend *)

(** C3, as stated, fails for the [Record] of lines 363-373: with a limit of
    zero it writes nothing. *)
Lemma guarded_record_skips_history : ~ recordsHistory Guarded.recordChannelRateLimitRedis.
Proof.
  intros H. specialize (H (emptyWorld 100) 1 "gpt-4" 0 0 0 5 I). vm_compute in H. done.
Qed.

(** C3, amended.  The [Record] of lines 94-107 writes the RPM history on
    every call, capped to the limit or to 1000 when the limit is zero or
    negative.  The [Record] of lines 363-373 does so when the limit is
    positive, and leaves the RPM key as it is otherwise. *)
Theorem record_redis_history :
  recordsHistory recordChannelRateLimitRedis /\
  forall w channelId modelName rpm tpm rpd tokens,
    let now := clock w in
    let key := redisKey ChannelRPMPrefix channelId modelName in
    let w' := final handle
                (Guarded.recordChannelRateLimitRedis channelId modelName rpm tpm rpd tokens) w in
    (rpm > 0 -> listOrAbsent now (rdb w) key ->
       rdb w' !! key
       = Some {| data := RList (take (Z.to_nat rpm) (now :: liveList now (rdb w) key));
                 expireAt := Some (now + 60) |}) /\
    (rpm <= 0 -> rdb w' !! key = rdb w !! key).
Proof.
  split.
  - intros w channelId modelName rpm tpm rpd tokens. apply recordChannelRateLimitRedis_rpm.
  - intros w channelId modelName rpm tpm rpd tokens now key w'. subst now key w'.
    rewrite guarded_recordChannelRateLimitRedis_rpm. cbv zeta. split.
    + intros Hrpm Hlist. rewrite decide_True by done.
      rewrite rpm_write by (done || lia). by rewrite lookup_insert_eq.
    + intros Hrpm. by rewrite decide_False by lia.
Qed.

Lemma record_redis_history_witness :
  rdb (final handle (recordChannelRateLimitRedis 1 "gpt-4" 2 0 0 5) queuedWorld)
    !! redisKey ChannelRPMPrefix 1 "gpt-4"
  = Some {| data := RList [100; 90]; expireAt := Some 160 |} /\
  rdb (final handle (recordChannelRateLimitRedis 1 "gpt-4" 0 0 0 5) queuedWorld)
    !! redisKey ChannelRPMPrefix 1 "gpt-4"
  = Some {| data := RList [100; 90; 80; 70]; expireAt := Some 160 |} /\
  rdb (final handle (Guarded.recordChannelRateLimitRedis 1 "gpt-4" 2 0 0 5) queuedWorld)
    !! redisKey ChannelRPMPrefix 1 "gpt-4"
  = Some {| data := RList [100; 90]; expireAt := Some 160 |}.
Proof.
  destruct record_redis_history as [Hfirst Hsecond].
  split_and!.
  - apply (Hfirst queuedWorld 1 "gpt-4" 2 0 0 5). exact I.
  - apply (Hfirst queuedWorld 1 "gpt-4" 0 0 0 5). exact I.
  - apply (Hsecond queuedWorld 1 "gpt-4" 2 0 0 5); [lia | exact I].
Defined.

(** ** The sliding RPM window *)

Lemma perform_record_redis w channelId modelName rpm tpm rpd tokens :
  (perform true (Record_ channelId modelName rpm tpm rpd tokens) w).2
  = final handle (recordChannelRateLimitRedis channelId modelName rpm tpm rpd tokens) w.
Proof. reflexivity. Qed.

Lemma final_record_redis_clock w channelId modelName rpm tpm rpd tokens :
  clock (final handle (recordChannelRateLimitRedis channelId modelName rpm tpm rpd tokens) w)
  = clock w.
Proof. by rewrite recordChannelRateLimitRedis_final. Qed.

Lemma blocks_rpm_only RedisEnabled w channelId modelName rpm tpm rpd :
  blocks RedisEnabled w channelId modelName rpm tpm rpd RPM = false ->
  result handle (CheckChannelRateLimit RedisEnabled channelId modelName rpm tpm rpd) w
  = result handle (CheckChannelRateLimit RedisEnabled channelId modelName 0 tpm rpd) w.
Proof.
  intros Hrpm. rewrite !CheckChannelRateLimit_result, Hrpm.
  unfold blocks at 3. cbn [limitOf]. rewrite bool_decide_eq_false_2 by lia. done.
Qed.

Lemma check_unlimited_result RedisEnabled w channelId modelName rpm tpm rpd :
  rpm <= 0 -> tpm <= 0 -> rpd <= 0 ->
  result handle (CheckChannelRateLimit RedisEnabled channelId modelName rpm tpm rpd) w
  = Some nil.
Proof.
  intros. rewrite CheckChannelRateLimit_result. unfold blocks. cbn [limitOf].
  by rewrite !bool_decide_eq_false_2 by lia.
Qed.

(** C4.  For a key without history, after [Record] at [t] and at [t + 30]
    (with any limits and token counts) the RPM dimension does not block a
    [Check] with limit 2 at [t + 61], in either backend: the check answers as
    it would without an RPM limit, and succeeds when TPM and RPD are
    unlimited.  Both events are still stored at that time when the recording
    limit leaves room for two. *)
Theorem rpm_window_slides RedisEnabled w channelId modelName t
    rpm1 tpm1 rpd1 tokens1 rpm2 tpm2 rpd2 tokens2 :
  let script := [(t, Record_ channelId modelName rpm1 tpm1 rpd1 tokens1);
                 (t + 30, Record_ channelId modelName rpm2 tpm2 rpd2 tokens2)] in
  let w' := setClock (t + 61) (endScript RedisEnabled script w) in
  unix_time t -> unix_time (t + 61) ->
  memoryRPMStore w !! memoryKey channelId modelName = None ->
  rdb w !! redisKey ChannelRPMPrefix channelId modelName = None ->
  (forall tpm rpd,
     result handle (CheckChannelRateLimit RedisEnabled channelId modelName 2 tpm rpd) w'
     = result handle (CheckChannelRateLimit RedisEnabled channelId modelName 0 tpm rpd) w') /\
  (forall tpm rpd, tpm <= 0 -> rpd <= 0 ->
     result handle (CheckChannelRateLimit RedisEnabled channelId modelName 2 tpm rpd) w'
     = Some nil) /\
  (capOf rpm2 >= 2 ->
   if RedisEnabled
   then liveList (t + 61) (rdb w') (redisKey ChannelRPMPrefix channelId modelName) = [t + 30; t]
   else memoryRPMStore w' !! memoryKey channelId modelName = Some [t; t + 30]).
Proof.
  intros script w' Ht Ht61 Hmem Hredis. subst script.
  assert (Hrpm : blocks RedisEnabled w' channelId modelName 2 0 0 RPM = false /\
                 (capOf rpm2 >= 2 ->
                  if RedisEnabled
                  then liveList (t + 61) (rdb w')
                         (redisKey ChannelRPMPrefix channelId modelName) = [t + 30; t]
                  else memoryRPMStore w' !! memoryKey channelId modelName = Some [t; t + 30])).
  { pose proof (capOf_pos rpm1) as Hcap1. pose proof (capOf_pos rpm2) as Hcap2.
    assert (Ht30 : unix_time (t + 30)) by (unfold unix_time in *; lia).
    subst w'. destruct RedisEnabled; cbn [endScript].
    - rewrite !perform_record_redis.
      set (w1 := final handle _ (setClock t w)).
      set (w2 := final handle _ (setClock (t + 30) w1)).
      set (key := redisKey ChannelRPMPrefix channelId modelName) in *.
      assert (H1 : rdb w1 !! key = Some {| data := RList [t]; expireAt := Some (t + 60) |}).
      { subst w1 key. rewrite recordChannelRateLimitRedis_rpm.
        - unfold liveList, Redis.live. cbn [setClock rdb clock]. rewrite Hredis.
          by rewrite take_ge by (cbn [length]; lia).
        - unfold listOrAbsent, Redis.live. cbn [setClock rdb clock]. by rewrite Hredis. }
      assert (Hlive1 : Redis.live (t + 30) (rdb w1) key
                       = Some {| data := RList [t]; expireAt := Some (t + 60) |}).
      { unfold Redis.live. rewrite H1. cbn [expireAt]. by rewrite decide_False by lia. }
      assert (H2 : rdb w2 !! key
                   = Some {| data := RList (take (Z.to_nat (capOf rpm2)) [t + 30; t]);
                             expireAt := Some (t + 30 + 60) |}).
      { subst w2. unfold key. rewrite recordChannelRateLimitRedis_rpm; fold key.
        - unfold liveList. cbn [setClock rdb clock]. by rewrite Hlive1.
        - unfold listOrAbsent. cbn [setClock rdb clock]. by rewrite Hlive1. }
      assert (Hlive2 : Redis.live (t + 61) (rdb w2) key
                       = Some {| data := RList (take (Z.to_nat (capOf rpm2)) [t + 30; t]);
                                 expireAt := Some (t + 30 + 60) |}).
      { unfold Redis.live. rewrite H2. cbn [expireAt]. by rewrite decide_False by lia. }
      split.
      + unfold blocks, reachedRedis, Redis.llen, Redis.lindex. cbn [limitOf setClock rdb clock].
        fold key. rewrite Hlive2. cbn [data].
        destruct (decide (capOf rpm2 >= 2)) as [Hcap|Hcap].
        * rewrite take_ge by (cbn [length]; lia). cbn [length].
          destruct (decide (-1 < 0)); [|lia].
          destruct (decide (0 <= Z.of_nat 2 + -1)); [|lia].
          replace (Z.to_nat (Z.of_nat 2 + -1)) with 1%nat by lia.
          cbn [lookup list_lookup]. rewrite sub64_unix by done.
          rewrite (bool_decide_eq_false_2 (t + 61 - t < 60)) by lia.
          by rewrite !andb_false_r.
        * replace (Z.to_nat (capOf rpm2)) with 1%nat by lia.
          cbn [take length]. rewrite (bool_decide_eq_false_2 (Z.of_nat 1 >= 2)) by lia.
          by rewrite andb_false_r.
      + intros Hcap. unfold liveList. cbn [setClock rdb]. rewrite Hlive2.
        by rewrite take_ge by (cbn [length]; lia).
    - rewrite !perform_record_memory.
      set (key := memoryKey channelId modelName) in *.
      assert (H1 : memoryRPMStore (afterRecordMemory channelId modelName rpm1 tokens1
                                     (setClock t w)) !! key = Some [t]).
      { unfold afterRecordMemory. cbn [memoryRPMStore setClock clock]. fold key.
        rewrite lookup_insert_eq, Hmem. unfold nextTimestamps. cbn.
        replace (1 - Z.to_nat (capOf rpm1))%nat with 0%nat by lia. done. }
      assert (H2 : memoryRPMStore
                     (afterRecordMemory channelId modelName rpm2 tokens2
                        (setClock (t + 30)
                           (afterRecordMemory channelId modelName rpm1 tokens1 (setClock t w))))
                     !! key
                   = Some (drop (2 - Z.to_nat (capOf rpm2)) [t; t + 30])).
      { unfold afterRecordMemory at 1. cbn [memoryRPMStore setClock clock]. fold key.
        rewrite lookup_insert_eq, H1. unfold nextTimestamps. cbn [default from_option id].
        rewrite filter_cons, filter_nil. rewrite sub64_unix by done.
        rewrite decide_True by lia. done. }
      split.
      + unfold blocks, reachedMemory. cbn [limitOf setClock memoryRPMStore clock]. fold key.
        rewrite H2. rewrite countRecent_filter.
        destruct (decide (capOf rpm2 >= 2)) as [Hcap|Hcap].
        * replace (2 - Z.to_nat (capOf rpm2))%nat with 0%nat by lia. cbn [drop].
          rewrite !filter_cons, filter_nil. rewrite !sub64_unix by done.
          rewrite decide_False by lia. rewrite decide_True by lia. cbn [length].
          rewrite (bool_decide_eq_false_2 (Z.of_nat 1 >= 2)) by lia.
          by rewrite andb_false_r.
        * replace (2 - Z.to_nat (capOf rpm2))%nat with 1%nat by lia. cbn [drop].
          rewrite !filter_cons, filter_nil. rewrite !sub64_unix by done.
          rewrite decide_True by lia. cbn [length].
          rewrite (bool_decide_eq_false_2 (Z.of_nat 1 >= 2)) by lia.
          by rewrite andb_false_r.
      + intros Hcap. cbn [setClock memoryRPMStore]. rewrite H2.
        by replace (2 - Z.to_nat (capOf rpm2))%nat with 0%nat by lia. }
  destruct Hrpm as [Hblock Hstored].
  assert (Hblocks : forall tpm rpd, blocks RedisEnabled w' channelId modelName 2 tpm rpd RPM = false).
  { intros tpm rpd. revert Hblock. unfold blocks. by cbn [limitOf]. }
  split_and!.
  - intros tpm rpd. by apply blocks_rpm_only.
  - intros tpm rpd Htpm Hrpd. rewrite blocks_rpm_only by done.
    by apply check_unlimited_result.
  - done.
Qed.

Lemma rpm_window_slides_witness :
  result handle (CheckChannelRateLimit true 1 "gpt-4" 2 0 0)
    (setClock 1061
       (endScript true [(1000, Record_ 1 "gpt-4" 2 0 0 5); (1030, Record_ 1 "gpt-4" 2 0 0 7)]
          (emptyWorld 0))) = Some nil /\
  result handle (CheckChannelRateLimit false 1 "gpt-4" 2 0 0)
    (setClock 1061
       (endScript false [(1000, Record_ 1 "gpt-4" 2 0 0 5); (1030, Record_ 1 "gpt-4" 2 0 0 7)]
          (emptyWorld 0))) = Some nil.
Proof.
  assert (H1 : unix_time 1000) by (unfold unix_time; lia).
  assert (H2 : unix_time (1000 + 61)) by (unfold unix_time; lia).
  split.
  - apply (rpm_window_slides true (emptyWorld 0) 1 "gpt-4" 1000 2 0 0 5 2 0 0 7
             H1 H2 eq_refl eq_refl); lia.
  - apply (rpm_window_slides false (emptyWorld 0) 1 "gpt-4" 1000 2 0 0 5 2 0 0 7
             H1 H2 eq_refl eq_refl); lia.
Defined.

(** ** Token usage over a minute *)

(** What [Record] of the Redis backend leaves under the TPM key. *)
Lemma recordChannelRateLimitRedis_tpm_live w channelId modelName rpm :
  let now := clock w in
  let keyRPM := redisKey ChannelRPMPrefix channelId modelName in
  let keyRPD := redisKey ChannelRPDPrefix channelId modelName in
  let keyTPM := redisKey ChannelTPMPrefix channelId modelName in
  let db1 := (Redis.expire now
                (Redis.ltrim now (Redis.lpush now (rdb w) keyRPM now).2
                   keyRPM 0 (capOf rpm - 1)).2 keyRPM 60).2 in
  Redis.live now (counterWrite now db1 keyRPD 1 (24 * 3600)) keyTPM
  = Redis.live now (rdb w) keyTPM.
Proof.
  cbv zeta. apply live_ext.
  rewrite counterWrite_ne by (apply (redisKey_ne RPD _ _ TPM); by right).
  rewrite expire_ne, ltrim_ne, lpush_ne by (apply (redisKey_ne RPM _ _ TPM); by right).
  done.
Qed.

Lemma recordChannelRateLimitRedis_tpm_fresh w channelId modelName rpm tpm rpd tokens :
  let key := redisKey ChannelTPMPrefix channelId modelName in
  tokens > 0 ->
  Redis.live (clock w) (rdb w) key = None ->
  rdb (final handle (recordChannelRateLimitRedis channelId modelName rpm tpm rpd tokens) w) !! key
  = Some {| data := RInt tokens; expireAt := Some (clock w + 60) |}.
Proof.
  intros key Htok Hlive. subst key.
  rewrite recordChannelRateLimitRedis_final. cbv zeta. cbn [rdb setRdb].
  rewrite decide_True by done.
  rewrite counterWrite_fresh; [by rewrite lookup_insert_eq| |lia].
  by rewrite (recordChannelRateLimitRedis_tpm_live w channelId modelName rpm).
Qed.

Lemma recordChannelRateLimitRedis_tpm_bump w channelId modelName rpm tpm rpd tokens v e :
  let key := redisKey ChannelTPMPrefix channelId modelName in
  tokens > 0 ->
  Redis.live (clock w) (rdb w) key = Some {| data := RInt v; expireAt := e |} ->
  v <> 0 -> int64 (v + tokens) ->
  rdb (final handle (recordChannelRateLimitRedis channelId modelName rpm tpm rpd tokens) w) !! key
  = Some {| data := RInt (v + tokens); expireAt := e |}.
Proof.
  intros key Htok Hlive Hv Hrange. subst key.
  rewrite recordChannelRateLimitRedis_final. cbv zeta. cbn [rdb setRdb].
  rewrite decide_True by done.
  erewrite counterWrite_bump; [by rewrite lookup_insert_eq| |done..].
  by rewrite (recordChannelRateLimitRedis_tpm_live w channelId modelName rpm).
Qed.

(** Once the minute is open, every further [Record] in it adds its tokens. *)
Lemma endScript_window_redis channelId modelName t1 script w acc :
  Forall (recordsInWindow channelId modelName t1) script ->
  rdb w !! redisKey ChannelTPMPrefix channelId modelName
  = Some {| data := RInt acc; expireAt := Some (t1 + 60) |} ->
  0 < acc -> acc + totalTokens script < 2 ^ 63 ->
  rdb (endScript true script w) !! redisKey ChannelTPMPrefix channelId modelName
  = Some {| data := RInt (acc + totalTokens script); expireAt := Some (t1 + 60) |}.
Proof.
  intros Hall. revert w acc.
  induction Hall as [|[t c] script (Ht & Hwin & rpm & tpm & rpd & tokens & Hc & Htok) Hall IH];
    intros w acc Hitem Hacc Hsum.
  { cbn [totalTokens endScript]. by rewrite Z.add_0_r. }
  simpl in Hc, Ht, Hwin. subst c. cbn [totalTokens tokensOf endScript] in *.
  pose proof (totalTokens_window _ _ _ _ Hall) as Hrest.
  rewrite perform_record_redis.
  replace (acc + (tokens + totalTokens script)) with ((acc + tokens) + totalTokens script) by lia.
  apply IH; [|lia..].
  apply recordChannelRateLimitRedis_tpm_bump; [done| |lia|unfold int64; lia].
  unfold Redis.live. cbn [setClock rdb clock]. rewrite Hitem. cbn [expireAt].
  by rewrite decide_False by lia.
Qed.

(** C7.  For a key with no TPM counter, after [Record] calls with positive
    token counts that all fall in the minute that the first of them opens,
    [GetUsage] reports their sum as long as that minute lasts; once it is
    over [GetUsage] reports 0, and the next [Record] opens a new minute that
    starts from its own token count.  This holds in both backends. *)
Theorem tpm_usage RedisEnabled w channelId modelName t1 c1 script :
  let calls := (t1, c1) :: script in
  let w' := endScript RedisEnabled calls w in
  memoryTPMStore w !! memoryKey channelId modelName = None ->
  rdb w !! redisKey ChannelTPMPrefix channelId modelName = None ->
  Forall (recordsInWindow channelId modelName t1) calls ->
  totalTokens calls < 2 ^ 63 ->
  (forall t, t < t1 + 60 ->
     exists rpm rpd,
       result handle (GetChannelRateLimitUsage RedisEnabled channelId modelName) (setClock t w')
       = Some (rpm, totalTokens calls, rpd)) /\
  (forall t, t1 + 60 <= t ->
     exists rpm rpd,
       result handle (GetChannelRateLimitUsage RedisEnabled channelId modelName) (setClock t w')
       = Some (rpm, 0, rpd)) /\
  (forall t rpm tpm rpd tokens, t1 + 60 <= t -> unix_time t -> tokens > 0 ->
     exists rpm' rpd',
       result handle (GetChannelRateLimitUsage RedisEnabled channelId modelName)
         (endScript RedisEnabled [(t, Record_ channelId modelName rpm tpm rpd tokens)] w')
       = Some (rpm', tokens, rpd')).
Proof.
  intros calls w' Hnone Hnone' Hall Hsum. subst calls w'.
  apply Forall_cons in Hall as [(Ht & Hwin & rpm & tpm & rpd & tokens & Hc & Htok) Hall].
  simpl in Hc, Ht, Hwin. subst c1. cbn [totalTokens tokensOf] in *.
  pose proof (totalTokens_window _ _ _ _ Hall) as Hrest.
  cbn [endScript]. destruct RedisEnabled.
  - rewrite perform_record_redis.
    set (w1 := final handle _ _).
    assert (Hw1 : rdb w1 !! redisKey ChannelTPMPrefix channelId modelName
                  = Some {| data := RInt tokens; expireAt := Some (t1 + 60) |}).
    { subst w1. rewrite recordChannelRateLimitRedis_tpm_fresh; [done..|].
      unfold Redis.live. cbn [setClock rdb clock]. by rewrite Hnone'. }
    pose proof (endScript_window_redis _ _ _ _ _ _ Hall Hw1 ltac:(lia) Hsum) as Hend.
    set (w' := endScript true script w1) in *.
    split_and!.
    + intros t Hlt. cbn [GetChannelRateLimitUsage].
      rewrite getChannelRateLimitUsageRedis_result. cbn [setClock rdb clock].
      unfold Redis.get at 1, Redis.live. rewrite Hend. cbn [expireAt data val].
      rewrite decide_False by lia. cbn [data val]. eauto.
    + intros t Hge. cbn [GetChannelRateLimitUsage].
      rewrite getChannelRateLimitUsageRedis_result. cbn [setClock rdb clock].
      unfold Redis.get at 1, Redis.live. rewrite Hend. cbn [expireAt data val].
      rewrite decide_True by lia. cbn [val]. eauto.
    + intros t rpm' tpm' rpd' tokens' Hge Hunix Htok'. cbn [endScript].
      rewrite perform_record_redis. cbn [GetChannelRateLimitUsage].
      rewrite getChannelRateLimitUsageRedis_result.
      rewrite final_record_redis_clock. cbn [setClock clock].
      unfold Redis.get at 1, Redis.live.
      rewrite recordChannelRateLimitRedis_tpm_fresh; [|done|].
      * cbn [expireAt setClock clock]. rewrite decide_False by lia.
        cbn [data val]. eauto.
      * unfold Redis.live. cbn [setClock rdb clock]. rewrite Hend. cbn [expireAt].
        by rewrite decide_True by lia.
  - rewrite perform_record_memory.
    set (w1 := afterRecordMemory _ _ _ _ _).
    assert (Hw1 : memoryTPMStore w1 !! memoryKey channelId modelName
                  = Some {| Count := tokens; Expiration := t1 + 60 |}).
    { subst w1. unfold afterRecordMemory. cbn [memoryTPMStore setClock clock].
      rewrite decide_True by done. rewrite lookup_insert_eq, Hnone.
      unfold nextCounter. by rewrite add64_unix by (done || lia). }
    pose proof (endScript_window _ _ _ _ _ _ Hall Hw1 ltac:(lia) Hsum) as Hend.
    set (w' := endScript false script w1) in *.
    split_and!.
    + intros t Hlt. cbn [GetChannelRateLimitUsage].
      rewrite getChannelRateLimitUsageMemory_result. cbn [setClock memoryTPMStore clock].
      rewrite Hend. unfold readCounter at 1. cbn [Expiration Count].
      rewrite decide_True by done. eauto.
    + intros t Hge. cbn [GetChannelRateLimitUsage].
      rewrite getChannelRateLimitUsageMemory_result. cbn [setClock memoryTPMStore clock].
      rewrite Hend. unfold readCounter at 1. cbn [Expiration Count].
      rewrite decide_False by lia. eauto.
    + intros t rpm' tpm' rpd' tokens' Hge Hunix Htok'. cbn [endScript].
      rewrite perform_record_memory. cbn [GetChannelRateLimitUsage].
      rewrite getChannelRateLimitUsageMemory_result.
      unfold afterRecordMemory. cbn [setClock memoryTPMStore clock].
      rewrite decide_True by done. rewrite lookup_insert_eq, Hend.
      unfold nextCounter, readCounter at 1. cbn [Expiration Count].
      rewrite decide_True by lia. cbn [Expiration Count].
      rewrite add64_unix by (done || lia). rewrite decide_True by lia. eauto.
Qed.

Lemma tpm_usage_witness :
  result handle (GetChannelRateLimitUsage false 1 "gpt-4")
    (setClock 59
       (endScript false [(0, Record_ 1 "gpt-4" 0 0 0 5); (30, Record_ 1 "gpt-4" 0 0 0 7)]
          (emptyWorld 0)))
  = Some (2, 12, 2) /\
  result handle (GetChannelRateLimitUsage true 1 "gpt-4")
    (setClock 59
       (endScript true [(0, Record_ 1 "gpt-4" 0 0 0 5); (30, Record_ 1 "gpt-4" 0 0 0 7)]
          (emptyWorld 0)))
  = Some (2, 12, 2).
Proof.
  assert (Hall : Forall (recordsInWindow 1 "gpt-4" 0)
                   [(0, Record_ 1 "gpt-4" 0 0 0 5); (30, Record_ 1 "gpt-4" 0 0 0 7)]).
  { repeat constructor; unfold unix_time; simpl; try lia;
      eexists _, _, _, _; (split; [reflexivity | lia]). }
  split.
  - destruct (tpm_usage false (emptyWorld 0) 1 "gpt-4" 0 (Record_ 1 "gpt-4" 0 0 0 5)
                [(30, Record_ 1 "gpt-4" 0 0 0 7)] eq_refl eq_refl Hall ltac:(simpl; lia))
      as (Hin & _ & _).
    destruct (Hin 59 ltac:(lia)) as (rpm & rpd & Heq).
    rewrite Heq. revert Heq. vm_compute. intros [= <- <-]. reflexivity.
  - destruct (tpm_usage true (emptyWorld 0) 1 "gpt-4" 0 (Record_ 1 "gpt-4" 0 0 0 5)
                [(30, Record_ 1 "gpt-4" 0 0 0 7)] eq_refl eq_refl Hall ltac:(simpl; lia))
      as (Hin & _ & _).
    destruct (Hin 59 ltac:(lia)) as (rpm & rpd & Heq).
    rewrite Heq. revert Heq. vm_compute. intros [= <- <-]. reflexivity.
Defined.

(** ** The order in which [Check] evaluates the dimensions *)

(** C2, as stated, fails for the in-process backend: with TPM and RPD both
    at their limits it reads the TPM counter and stops there, where the
    order RPM, RPD, TPM would read the RPD counter and stop. *)
Lemma memory_check_reads_tpm_first :
  ~ followsOrder [RPM; RPD; TPM] false busyWorld 1 "gpt-4" 5 10 1.
Proof. unfold followsOrder. vm_compute. intros [[=] _]. Qed.

(** In the revision that names the dimension in its error, the same world
    shows the order in the result. *)
Example guarded_memory_check_names_tpm :
  result handle (Guarded.checkChannelRateLimitMemory 1 "gpt-4" 5 10 1) busyWorld
  = Some (Errorf "model gpt-4 TPM limit exceeded") /\
  result handle (Guarded.checkChannelRateLimitRedis 1 "gpt-4" 5 10 1)
    (setRdb {[ "channel:tpm:1:gpt-4" := {| data := RInt 40; expireAt := Some 150 |};
               "channel:rpd:1:gpt-4" := {| data := RInt 2; expireAt := Some 86410 |} ]}
            busyWorld)
  = Some (Errorf "model gpt-4 RPD limit exceeded").
Proof. split; reflexivity. Qed.

(** C2, amended.  [Check] consults the limited dimensions one after the
    other and returns the saturation error at the first one that has reached
    its limit, without consulting the ones after it; the order is RPM, RPD,
    TPM in the Redis backend and RPM, TPM, RPD in the in-process backend. *)
Theorem check_order w channelId modelName rpm tpm rpd :
  followsOrder [RPM; RPD; TPM] true w channelId modelName rpm tpm rpd /\
  followsOrder [RPM; TPM; RPD] false w channelId modelName rpm tpm rpd.
Proof.
  unfold followsOrder, CheckChannelRateLimit, checkChannelRateLimitRedis,
    checkChannelRateLimitMemory, reachedRedis, reachedMemory, consulted.
  cbn [walk limitOf]. cbv zeta.
  split; split;
    match goal with |- _ = ?rhs => remember rhs as expected eqn:Hexpected end;
    run_cases; subst expected; use_equations; dims_simpl; decide_bools;
    cbn [fst snd]; reflexivity.
Qed.

(** ** Sliding windows over a list of timestamps *)

Lemma filter_agree (P Q : Z -> Prop) `{!forall x, Decision (P x)} `{!forall x, Decision (Q x)}
    (l : list Z) :
  Forall (fun x => P x <-> Q x) l -> filter P l = filter Q l.
Proof.
  induction 1 as [|x l HPQ _ IH]; [done|].
  rewrite !filter_cons, IH. destruct (decide (P x)), (decide (Q x)); tauto.
Qed.

Lemma filter_sub64 now l :
  unix_time now -> Forall unix_time l ->
  filter (fun ts => sub64 now ts < 60) l = filter (fun ts => now - ts < 60) l.
Proof.
  intros Hnow Hl. apply filter_agree. eapply Forall_impl; [exact Hl|].
  intros x Hx. cbn beta. by rewrite sub64_unix.
Qed.

Lemma filter_none (P : Z -> Prop) `{!forall x, Decision (P x)} (l : list Z) :
  Forall (fun x => ~ P x) l -> filter P l = [].
Proof.
  induction 1 as [|x l Hx _ IH]; [done|]. rewrite filter_cons, IH. by rewrite decide_False.
Qed.

Lemma filter_all (P : Z -> Prop) `{!forall x, Decision (P x)} (l : list Z) :
  Forall P l -> filter P l = l.
Proof.
  induction 1 as [|x l Hx _ IH]; [done|]. rewrite filter_cons, IH. by rewrite decide_True.
Qed.

Lemma filter_full (P : Z -> Prop) `{!forall x, Decision (P x)} (l : list Z) :
  length (filter P l) = length l -> Forall P l.
Proof.
  induction l as [|x l IH]; [done|]. rewrite filter_cons.
  pose proof (length_filter P l). destruct (decide (P x)); cbn [length]; intros Hlen; [|lia].
  constructor; [done|]. apply IH. lia.
Qed.

Lemma filter_expired now hd (l : list Z) :
  Forall (fun y => y <= hd) l -> hd + 60 <= now -> filter (fun ts => now - ts < 60) l = [].
Proof.
  intros Hl Hhd. apply filter_none. eapply Forall_impl; [exact Hl|]. intros x Hx. cbn beta in *. lia.
Qed.

Lemma filter_window_shrink now hd (l : list Z) :
  hd <= now ->
  filter (fun ts => now - ts < 60) (filter (fun ts => hd - ts < 60) l)
  = filter (fun ts => now - ts < 60) l.
Proof.
  intros Hhd. rewrite list_filter_filter. apply list_filter_iff. intros x. lia.
Qed.

Lemma filter_take_descending now n (l : list Z) :
  descending l ->
  filter (fun ts => now - ts < 60) (take n l) = take n (filter (fun ts => now - ts < 60) l).
Proof.
  revert n. induction l as [|x l IH]; intros n Hl; [by destruct n|].
  destruct Hl as [Hx Hl]. destruct n as [|n]; [done|].
  cbn [take]. rewrite !filter_cons. destruct (decide (now - x < 60)).
  - cbn [take]. by rewrite IH.
  - rewrite (filter_none _ l), (filter_none _ (take n l)); [by destruct n| |].
    + apply Forall_take. eapply Forall_impl; [exact Hx|]. intros y Hy. cbn beta in *. lia.
    + eapply Forall_impl; [exact Hx|]. intros y Hy. cbn beta in *. lia.
Qed.

Lemma descending_take n l : descending l -> descending (take n l).
Proof.
  revert n. induction l as [|x l IH]; intros [|n] Hl; try done.
  destruct Hl as [Hx Hl]. split; [by apply Forall_take | by apply IH].
Qed.

Lemma descending_last l x : descending l -> last l = Some x -> Forall (fun y => x <= y) l.
Proof.
  induction l as [|y l IH]; [done|]. intros [Hy Hl] Hlast.
  destruct l as [|z l].
  - injection Hlast as ->. by repeat constructor.
  - rewrite last_cons_cons in Hlast. specialize (IH Hl Hlast).
    constructor; [|done].
    apply Forall_cons in IH as [Hz _]. apply Forall_cons in Hy as [Hzy _]. lia.
Qed.

Lemma drop_tail_reverse (l : list Z) n :
  drop (length l - n) l = reverse (take n (reverse l)).
Proof. by rewrite take_reverse, reverse_involutive. Qed.

Lemma Forall_filter_keeps (P Q : Z -> Prop) `{!forall x, Decision (P x)} (l : list Z) :
  Forall Q l -> Forall Q (filter P l).
Proof.
  rewrite !Forall_forall. intros Hl x [_ Hx]%list_elem_of_filter. by apply Hl.
Qed.

(** ** The Redis backend in closed form *)

Lemma live_lookup now db key : Redis.live now db key = liveEntry now (db !! key).
Proof. reflexivity. Qed.

Lemma counterWrite_next now db key n ttl :
  ttl > 0 -> counterOk now db key n ->
  counterWrite now db key n ttl = <[key := nextEntry now n ttl (Redis.live now db key)]> db.
Proof.
  unfold counterOk. intros Httl Hok.
  destruct (Redis.live now db key) as [[[l|v] e]|] eqn:Hlive; [done| |].
  - destruct Hok as [Hv Hrange]. by erewrite counterWrite_bump.
  - by rewrite counterWrite_fresh.
Qed.

Lemma counterOk_ext now db db' key n :
  db' !! key = db !! key -> counterOk now db key n -> counterOk now db' key n.
Proof. unfold counterOk. rewrite !live_lookup. by intros ->. Qed.

Lemma recordChannelRateLimitRedis_rdb w channelId modelName rpm tpm rpd tokens :
  let now := clock w in
  let db := rdb w in
  let keyRPM := redisKey ChannelRPMPrefix channelId modelName in
  let keyRPD := redisKey ChannelRPDPrefix channelId modelName in
  let keyTPM := redisKey ChannelTPMPrefix channelId modelName in
  listOrAbsent now db keyRPM ->
  counterOk now db keyRPD 1 ->
  (tokens > 0 -> counterOk now db keyTPM tokens) ->
  rdb (final handle (recordChannelRateLimitRedis channelId modelName rpm tpm rpd tokens) w)
  = let db1 := <[keyRPM := {| data := RList (take (Z.to_nat (capOf rpm))
                                                 (now :: liveList now db keyRPM));
                              expireAt := Some (now + 60) |}]> db in
    let db2 := <[keyRPD := nextEntry now 1 (24 * 3600) (Redis.live now db keyRPD)]> db1 in
    if decide (tokens > 0)
    then <[keyTPM := nextEntry now tokens 60 (Redis.live now db keyTPM)]> db2
    else db2.
Proof.
  intros now db keyRPM keyRPD keyTPM Hlist Hrpd Htpm.
  rewrite recordChannelRateLimitRedis_final. cbv zeta. cbn [rdb setRdb].
  fold now db keyRPM keyRPD keyTPM.
  pose proof (capOf_pos rpm).
  rewrite rpm_write by (done || lia).
  set (db1 := <[keyRPM := _]> db).
  assert (Hne1 : keyRPM <> keyRPD) by (intros Heq; symmetry in Heq; by apply redisKey_rpm_rpd in Heq).
  assert (Hne2 : keyRPM <> keyTPM) by (intros Heq; symmetry in Heq; by apply redisKey_rpm_tpm in Heq).
  assert (Hne3 : keyRPD <> keyTPM) by (intros Heq; symmetry in Heq; by apply redisKey_tpm_rpd in Heq).
  rewrite (counterWrite_next now db1 keyRPD).
  2: lia.
  2:{ eapply counterOk_ext; [|exact Hrpd]. subst db1. by rewrite lookup_insert_ne. }
  replace (Redis.live now db1 keyRPD) with (Redis.live now db keyRPD)
    by (subst db1; by rewrite live_insert_ne).
  set (db2 := <[keyRPD := _]> db1).
  case_decide; [|done].
  rewrite (counterWrite_next now db2 keyTPM).
  2: lia.
  2:{ eapply counterOk_ext; [|by apply Htpm]. subst db2 db1. by rewrite !lookup_insert_ne. }
  replace (Redis.live now db2 keyTPM) with (Redis.live now db keyTPM)
    by (subst db2 db1; by rewrite !live_insert_ne).
  done.
Qed.

(** ** The two backends side by side *)

Lemma rpmRelated_later now now' cap E M :
  now <= now' -> rpmRelated now cap E M -> rpmRelated now' cap E M.
Proof.
  intros Hle [?|(hd & tl & ? & ? & ? & ? & ? & ?)]; [by left|].
  right. exists hd, tl. split_and!; try done; lia.
Qed.

Lemma counterRelated_more bound bound' E M :
  bound <= bound' -> counterRelated bound E M -> counterRelated bound' E M.
Proof.
  intros Hle [?|(v & x & ? & ? & ?)]; [by left|].
  right. exists v, x. split_and!; try done; lia.
Qed.

(** Recording one request. *)
Lemma rpmRelated_record now0 now rpm E M :
  rpmRelated now0 (capOf rpm) E M -> now0 <= now -> unix_time now ->
  match liveEntry now E with Some {| data := RInt _ |} => False | _ => True end /\
  rpmRelated now (capOf rpm)
    (Some {| data := RList (take (Z.to_nat (capOf rpm))
                              (now :: match liveEntry now E with
                                      | Some {| data := RList l |} => l
                                      | _ => []
                                      end));
             expireAt := Some (now + 60) |})
    (Some (nextTimestamps now rpm M)).
Proof.
  intros Hrel Hle Hnow. pose proof (capOf_pos rpm) as Hcap.
  assert (Hfresh : forall M0,
             filter (fun ts => sub64 now ts < 60) (default [] M0) = [] ->
             rpmRelated now (capOf rpm)
               (Some {| data := RList (take (Z.to_nat (capOf rpm)) [now]);
                        expireAt := Some (now + 60) |})
               (Some (nextTimestamps now rpm M0))).
  { intros M0 HM0. right. exists now, []. unfold nextTimestamps. rewrite HM0.
    rewrite take_ge by (cbn [length]; lia).
    split_and!; try done.
    - f_equal. cbn [app length]. replace (1 - Z.to_nat (capOf rpm))%nat with 0%nat by lia.
      rewrite filter_cons, filter_nil. by rewrite decide_True by lia.
    - constructor; [done | constructor].
    - cbn [length]. lia. }
  destruct Hrel as [[-> ->]|(hd & tl & -> & -> & Hhd & Hdesc & Hunix & Hlen)].
  { cbn [liveEntry]. split; [done|]. by apply Hfresh. }
  assert (Hhd' : hd <= now) by lia.
  cbn [liveEntry expireAt].
  destruct (decide (hd + 60 <= now)) as [Hold|Hlive].
  - split; [done|]. apply Hfresh. cbn [default from_option id].
    rewrite filter_reverse, filter_sub64 by (done || by apply Forall_filter_keeps).
    rewrite (filter_expired now hd); [done| |done].
    apply Forall_filter_keeps. destruct Hdesc as [Htl _]. constructor; [lia|done].
  - split; [done|]. cbn [data].
    set (l := hd :: tl) in *.
    assert (Hdesc' : descending (now :: l)).
    { split; [|done]. subst l. destruct Hdesc as [Htl _].
      constructor; [done|]. eapply Forall_impl; [exact Htl|]. intros y Hy. cbn beta in *. lia. }
    assert (Hkept : filter (fun ts => sub64 now ts < 60)
                      (reverse (filter (fun ts => hd - ts < 60) l)) ++ [now]
                    = reverse (filter (fun ts => now - ts < 60) (now :: l))).
    { rewrite filter_reverse, filter_sub64 by (done || by apply Forall_filter_keeps).
      rewrite filter_window_shrink by done.
      rewrite (filter_cons _ now). rewrite decide_True by lia. by rewrite reverse_cons. }
    right. destruct (Z.to_nat (capOf rpm)) as [|k] eqn:Hk; [lia|].
    exists now, (take k l). cbn [take]. split_and!.
    + done.
    + f_equal. unfold nextTimestamps. cbn [default from_option id]. rewrite Hkept.
      rewrite Hk, drop_tail_reverse, reverse_involutive.
      rewrite <- filter_take_descending by done. done.
    + done.
    + change (descending (take (S k) (now :: l))). by apply descending_take.
    + constructor; [done|]. by apply Forall_take.
    + cbn [length]. rewrite length_take. lia.
Qed.

Lemma counterRelated_record bound now n ttl E M :
  counterRelated bound E M -> unix_time now ->
  0 <= bound -> n > 0 -> bound + n < 2 ^ 63 -> 0 < ttl <= 24 * 3600 ->
  match liveEntry now E with
  | None => True
  | Some {| data := RInt v |} => v <> 0 /\ int64 (v + n)
  | Some {| data := RList _ |} => False
  end /\
  counterRelated (bound + n)
    (Some (nextEntry now n ttl (liveEntry now E)))
    (Some (nextCounter now n ttl M)).
Proof.
  intros Hrel Hnow Hbound Hn Hsum Httl.
  assert (Hfresh : counterRelated (bound + n)
                     (Some {| data := RInt n; expireAt := Some (now + ttl) |})
                     (Some {| Count := n; Expiration := add64 now ttl |})).
  { right. exists n, (now + ttl). rewrite add64_unix by (done || lia).
    split_and!; try done; lia. }
  destruct Hrel as [[-> ->]|(v & x & -> & -> & Hv)].
  { cbn [liveEntry nextEntry nextCounter]. done. }
  cbn [liveEntry expireAt nextCounter Expiration Count].
  destruct (decide (x <= now)) as [Hold|Hlive].
  - rewrite decide_True by lia. done.
  - rewrite decide_False by lia. cbn [nextEntry data]. split.
    + split; [lia|]. unfold int64. lia.
    + right. exists (v + n), x. rewrite add64_int64 by (unfold int64; lia).
      split_and!; try done; lia.
Qed.

Lemma lookup_three_inserts (db : gmap string RedisEntry) kR kD kT eR eD eT (tokens : Z) key :
  kR <> kD -> kR <> kT -> kD <> kT ->
  (if decide (tokens > 0) then <[kT := eT]> (<[kD := eD]> (<[kR := eR]> db))
   else <[kD := eD]> (<[kR := eR]> db)) !! key
  = if decide (key = kR) then Some eR
    else if decide (key = kD) then Some eD
    else if decide (key = kT /\ tokens > 0) then Some eT
    else db !! key.
Proof.
  intros. repeat case_decide; destruct_and?; simplify_eq;
    rewrite ?lookup_insert_eq, ?lookup_insert_ne by congruence;
    rewrite ?lookup_insert_eq, ?lookup_insert_ne by congruence;
    rewrite ?lookup_insert_eq, ?lookup_insert_ne by congruence; try done.
  all: try tauto.
  assert (key <> kT) by tauto. by rewrite !lookup_insert_ne by congruence.
Qed.

(** [Record] keeps the two backends related. *)
Lemma related_record limit now0 bound wr wm t channelId modelName rpm tpm rpd tokens :
  related limit now0 bound wr wm ->
  now0 <= t -> unix_time t -> 0 <= bound ->
  rpm = limit channelId modelName ->
  bound + (1 + Z.max 0 tokens) < 2 ^ 63 ->
  related limit t (bound + (1 + Z.max 0 tokens))
    (final handle (recordChannelRateLimitRedis channelId modelName rpm tpm rpd tokens)
       (setClock t wr))
    (afterRecordMemory channelId modelName rpm tokens (setClock t wm)).
Proof.
  intros Hrel Hle Ht Hbound Hrpm Hsum.
  destruct (Hrel channelId modelName) as (Hrpm0 & Htpm0 & Hrpd0).
  rewrite <- Hrpm in Hrpm0.
  destruct (rpmRelated_record _ t _ _ _ Hrpm0 Hle Ht) as [Hlist Hrpm1].
  destruct (counterRelated_record bound t 1 (24 * 3600) _ _ Hrpd0 Ht Hbound
              ltac:(lia) ltac:(lia) ltac:(lia)) as [Hok_rpd Hrpd1].
  assert (Htpm1 : tokens > 0 ->
            match liveEntry t (rdb wr !! redisKey ChannelTPMPrefix channelId modelName) with
            | None => True
            | Some {| data := RInt v |} => v <> 0 /\ int64 (v + tokens)
            | Some {| data := RList _ |} => False
            end /\
            counterRelated (bound + tokens)
              (Some (nextEntry t tokens 60
                       (liveEntry t (rdb wr !! redisKey ChannelTPMPrefix channelId modelName))))
              (Some (nextCounter t tokens 60
                       (memoryTPMStore wm !! memoryKey channelId modelName)))).
  { intros Htok. apply counterRelated_record; try done; lia. }
  assert (Hdb := recordChannelRateLimitRedis_rdb (setClock t wr) channelId modelName
                   rpm tpm rpd tokens).
  cbv zeta in Hdb. cbn [setClock clock rdb] in Hdb.
  intros channelId' modelName'.
  rewrite Hdb; clear Hdb.
  2:{ unfold listOrAbsent. by rewrite live_lookup. }
  2:{ unfold counterOk. by rewrite live_lookup. }
  2:{ intros Htok. unfold counterOk. rewrite live_lookup. by apply Htpm1. }
  unfold liveList. rewrite !live_lookup.
  unfold afterRecordMemory. cbn [setClock clock rdb memoryRPMStore memoryTPMStore memoryRPDStore].
  pose proof (redisKey_ne RPM channelId modelName RPD channelId modelName) as HRD.
  pose proof (redisKey_ne RPM channelId modelName TPM channelId modelName) as HRT.
  pose proof (redisKey_ne RPD channelId modelName TPM channelId modelName) as HDT.
  cbn [prefixOf] in HRD, HRT, HDT.
  rewrite !lookup_three_inserts by (first [apply HRD | apply HRT | apply HDT]; by right).
  destruct (decide ((channelId', modelName') = (channelId, modelName))) as [[= -> ->]|Hother].
  - set (keyRPM := redisKey ChannelRPMPrefix channelId modelName) in *.
    set (keyRPD := redisKey ChannelRPDPrefix channelId modelName) in *.
    set (keyTPM := redisKey ChannelTPMPrefix channelId modelName) in *.
    assert (keyRPM <> keyRPD) by (apply HRD; by right).
    assert (keyRPM <> keyTPM) by (apply HRT; by right).
    assert (keyRPD <> keyTPM) by (apply HDT; by right).
    rewrite Hrpm in *.
    split_and!; rewrite ?lookup_insert_eq.
    + by rewrite decide_True by done.
    + rewrite decide_False by congruence. rewrite decide_False by congruence.
      destruct (decide (tokens > 0)) as [Htok|Htok].
      * rewrite decide_True by done. rewrite lookup_insert_eq.
        eapply counterRelated_more; [|by apply Htpm1]. lia.
      * rewrite decide_False by tauto.
        eapply counterRelated_more; [|done]. lia.
    + rewrite decide_False by congruence. rewrite decide_True by done.
      eapply counterRelated_more; [|done]. lia.
  - assert (Hkey : memoryKey channelId modelName <> memoryKey channelId' modelName').
    { intros Heq. symmetry in Heq. by apply memoryKey_ne in Heq. }
    assert (Hne : forall d d', redisKey (prefixOf d') channelId' modelName'
                               <> redisKey (prefixOf d) channelId modelName).
    { intros d d'. apply redisKey_ne. by left. }
    destruct (Hrel channelId' modelName') as (Hrpm' & Htpm' & Hrpd').
    rewrite !lookup_insert_ne by done.
    split_and!.
    + rewrite decide_False by apply (Hne RPM RPM). rewrite decide_False by apply (Hne RPD RPM).
      rewrite decide_False by (intros [Heq _]; by apply (Hne TPM RPM)).
      by apply (rpmRelated_later now0).
    + rewrite decide_False by apply (Hne RPM TPM). rewrite decide_False by apply (Hne RPD TPM).
      rewrite decide_False by (intros [Heq _]; by apply (Hne TPM TPM)).
      case_decide; rewrite ?lookup_insert_ne by done;
        (eapply counterRelated_more; [|done]); lia.
    + rewrite decide_False by apply (Hne RPM RPD). rewrite decide_False by apply (Hne RPD RPD).
      rewrite decide_False by (intros [Heq _]; by apply (Hne TPM RPD)).
      eapply counterRelated_more; [|done]. lia.
Qed.

(** Related stores give the same verdict on every dimension. *)
Lemma rpmRelated_reached now0 now rpm db key M :
  rpmRelated now0 (capOf rpm) (db !! key) M -> now0 <= now -> unix_time now -> rpm > 0 ->
  match Redis.llen now db key with
  | Ok lenVal =>
      bool_decide (lenVal >= rpm) &&
      match Redis.lindex now db key (-1) with
      | Ok oldTimeVal => bool_decide (sub64 now oldTimeVal < 60)
      | Err _ => false
      end
  | Err _ => false
  end
  = match M with
    | Some timestamps => bool_decide (countRecent now timestamps >= rpm)
    | None => false
    end.
Proof.
  intros Hrel Hle Hnow Hrpm.
  assert (Hcap : capOf rpm = rpm) by (unfold capOf; by rewrite decide_False by lia).
  unfold Redis.llen, Redis.lindex. rewrite !live_lookup.
  destruct Hrel as [[-> ->]|(hd & tl & -> & -> & Hhd & Hdesc & Hunix & Hlen)].
  { cbn [liveEntry]. by rewrite bool_decide_eq_false_2 by lia. }
  set (l := hd :: tl) in *.
  assert (Hcount : countRecent now (reverse (filter (fun ts => hd - ts < 60) l))
                   = Z.of_nat (length (filter (fun ts => now - ts < 60) l))).
  { rewrite countRecent_filter, filter_reverse, length_reverse.
    rewrite filter_sub64 by (done || by apply Forall_filter_keeps).
    by rewrite filter_window_shrink by lia. }
  rewrite Hcount. cbn [liveEntry expireAt].
  destruct (decide (hd + 60 <= now)) as [Hold|Hlive].
  - rewrite (bool_decide_eq_false_2 (0 >= rpm)) by lia.
    rewrite (filter_expired now hd); [|by destruct Hdesc as [Htl _]; constructor; [lia|]|done].
    cbn [length andb]. by rewrite bool_decide_eq_false_2 by lia.
  - cbn [data].
    destruct (decide (-1 < 0)); [|lia].
    destruct (decide (0 <= Z.of_nat (length l) + -1)); [|subst l; cbn [length] in *; lia].
    replace (Z.to_nat (Z.of_nat (length l) + -1)) with (pred (length l)) by lia.
    rewrite <- last_lookup.
    destruct (last l) as [x|] eqn:Hlast; [|by apply last_None in Hlast].
    assert (Hx : unix_time x).
    { rewrite Forall_forall in Hunix. apply Hunix. by eapply last_Some_elem_of. }
    rewrite sub64_unix by done.
    pose proof (length_filter (fun ts => now - ts < 60) l) as Hfilter.
    destruct (decide (now - x < 60)) as [Hin|Hout].
    + rewrite (filter_all (fun ts => now - ts < 60) l).
      * rewrite (bool_decide_eq_true_2 (now - x < 60)) by done. by rewrite andb_true_r.
      * eapply Forall_impl; [by apply descending_last|]. intros y Hy. cbn beta in *. lia.
    + rewrite (bool_decide_eq_false_2 (now - x < 60)) by done. rewrite andb_false_r.
      symmetry. apply bool_decide_eq_false_2.
      pose proof (length_filter_lt (fun ts => now - ts < 60) l x
                    ltac:(by eapply last_Some_elem_of) Hout).
      lia.
Qed.

Lemma counterRelated_reached bound now limit db key M :
  counterRelated bound (db !! key) M ->
  match Redis.get now db key with
  | Ok v => bool_decide (v >= limit)
  | Err _ => false
  end
  = match M with
    | Some item => bool_decide (now < Expiration item /\ Count item >= limit)
    | None => false
    end.
Proof.
  unfold Redis.get. rewrite live_lookup.
  intros [[-> ->]|(v & x & -> & -> & Hv)]; [done|].
  cbn [liveEntry expireAt Expiration Count]. case_decide; cbn [data].
  - by rewrite (bool_decide_eq_false_2 (now < x /\ _)) by lia.
  - apply bool_decide_ext. lia.
Qed.

Lemma related_blocks limit now0 bound wr wm t channelId modelName rpm tpm rpd d :
  related limit now0 bound wr wm -> now0 <= t -> unix_time t ->
  rpm = limit channelId modelName ->
  blocks true (setClock t wr) channelId modelName rpm tpm rpd d
  = blocks false (setClock t wm) channelId modelName rpm tpm rpd d.
Proof.
  intros Hrel Hle Ht Hrpm.
  destruct (Hrel channelId modelName) as (Hrpm0 & Htpm0 & Hrpd0).
  unfold blocks. case_bool_decide as Hlimit; [|done]. cbn [andb].
  destruct d; cbn [limitOf] in *; unfold reachedRedis, reachedMemory;
    cbn [setClock clock rdb memoryRPMStore memoryTPMStore memoryRPDStore]; cbv zeta.
  - subst rpm. by eapply rpmRelated_reached.
  - by eapply counterRelated_reached.
  - by eapply counterRelated_reached.
Qed.

(** Related stores report the same counters; the Redis backend reports the
    length of its list, the in-process backend the events of the last
    minute. *)
Lemma related_usage limit now0 bound wr wm t channelId modelName :
  related limit now0 bound wr wm -> now0 <= t -> unix_time t ->
  exists rpm rpm' tpm rpd,
    result handle (GetChannelRateLimitUsage true channelId modelName) (setClock t wr)
    = Some (rpm, tpm, rpd) /\
    result handle (GetChannelRateLimitUsage false channelId modelName) (setClock t wm)
    = Some (rpm', tpm, rpd) /\
    rpm' <= rpm.
Proof.
  intros Hrel Hle Ht.
  destruct (Hrel channelId modelName) as (Hrpm0 & Htpm0 & Hrpd0).
  cbn [GetChannelRateLimitUsage].
  rewrite getChannelRateLimitUsageRedis_result, getChannelRateLimitUsageMemory_result.
  cbn [setClock clock rdb memoryRPMStore memoryTPMStore memoryRPDStore].
  eexists _, _, _, _. split; [reflexivity|].
  assert (Hcounter : forall bound db key M,
             counterRelated bound (db !! key) M ->
             readCounter t M = val (Redis.get t db key)).
  { intros b db key M. unfold Redis.get. rewrite live_lookup.
    intros [[-> ->]|(v & x & -> & -> & Hv)]; [done|].
    cbn [liveEntry expireAt readCounter Expiration Count].
    case_decide; [by rewrite decide_False by lia | by rewrite decide_True by lia]. }
  rewrite (Hcounter _ _ _ _ Htpm0), (Hcounter _ _ _ _ Hrpd0).
  split; [reflexivity|].
  unfold Redis.llen. rewrite live_lookup.
  destruct Hrpm0 as [[-> ->]|(hd & tl & -> & -> & Hhd & Hdesc & Hunix & Hlen)]; [done|].
  rewrite countRecent_filter, filter_reverse, length_reverse.
  rewrite filter_sub64 by (done || by apply Forall_filter_keeps).
  rewrite filter_window_shrink by lia.
  cbn [liveEntry expireAt]. case_decide; cbn [data val].
  - rewrite (filter_expired t hd); [done| |done].
    destruct Hdesc as [Htl _]. constructor; [lia|done].
  - pose proof (length_filter (fun ts => t - ts < 60) (hd :: tl)). lia.
Qed.

(** ** Scripts on the two backends *)

Lemma load_nonneg script : 0 <= load script.
Proof. induction script as [|[t c] script IH]; simpl; lia. Qed.

Lemma related_setClock limit now0 now bound wr wm t :
  related limit now0 bound wr wm -> now0 <= now ->
  related limit now bound (setClock t wr) (setClock t wm).
Proof.
  intros Hrel Hle channelId modelName.
  destruct (Hrel channelId modelName) as (Hrpm & Htpm & Hrpd).
  split_and!; try done. by apply (rpmRelated_later now0).
Qed.

Lemma runScript_related limit script :
  forall now0 bound wr wm,
    related limit now0 bound wr wm -> 0 <= bound ->
    clockwise now0 script ->
    Forall (fun tc => usesLimit limit tc.2) script ->
    bound + load script < 2 ^ 63 ->
    Forall2 agree (runScript true script wr) (runScript false script wm).
Proof.
  induction script as [|[t c] script IH]; intros now0 bound wr wm Hrel Hbound Hclock Hlimit Hload;
    [constructor|].
  destruct Hclock as (Hle & Ht & Hclock).
  apply Forall_cons in Hlimit as [Hc Hlimit]. cbn [snd] in Hc.
  cbn [load] in Hload. pose proof (load_nonneg script) as Hrest.
  cbn [runScript].
  destruct c as [channelId modelName rpm tpm rpd|channelId modelName rpm tpm rpd tokens
                |channelId modelName]; cbn [usesLimit tokensOf] in *.
  - (* Check *)
    cbn [perform fst snd]. rewrite !CheckChannelRateLimit_final, !CheckChannelRateLimit_result.
    rewrite !(related_blocks limit now0 bound wr wm t) by done.
    constructor; [done|].
    apply (IH t bound); try done; [by apply (related_setClock limit now0) | lia].
  - (* Record *)
    cbn [perform fst snd]. rewrite !RecordChannelRateLimit_returns.
    constructor; [done|].
    change (final handle (RecordChannelRateLimit false channelId modelName rpm tpm rpd tokens)
              (setClock t wm))
      with (final handle (recordChannelRateLimitMemory channelId modelName rpm tpm rpd tokens)
              (setClock t wm)).
    rewrite recordChannelRateLimitMemory_final.
    apply (IH t (bound + (1 + Z.max 0 tokens))); try done; try lia.
    apply (related_record limit now0); try done; lia.
  - (* GetUsage *)
    cbn [perform fst snd]. rewrite !GetChannelRateLimitUsage_final.
    destruct (related_usage limit now0 bound wr wm t channelId modelName Hrel Hle Ht)
      as (rpm & rpm' & tpm & rpd & -> & -> & Hrpm).
    constructor; [done|].
    apply (IH t bound); try done; [by apply (related_setClock limit now0) | lia].
Qed.

(** C1, as stated, fails.  With the same limits on every call, the Redis
    backend reports as RPM usage the two events of its list while the
    in-process backend reports the one event of the last minute; a [Check]
    with a lower limit than the [Record] calls before it is answered
    differently; so is a [Check] after clock readings that went back; and a
    token counter that leaves the [int64] range is refused by Redis and wraps
    around in the in-process backend. *)
Lemma backends_differ :
  ~ backendsIdentical [(0, Record_ 1 "gpt-4" 2 0 0 5); (30, Record_ 1 "gpt-4" 2 0 0 7);
                       (61, GetUsage 1 "gpt-4")] /\
  ~ backendsIdentical [(0, Record_ 1 "gpt-4" 3 0 0 5); (30, Record_ 1 "gpt-4" 3 0 0 7);
                       (50, Record_ 1 "gpt-4" 3 0 0 7); (61, Check 1 "gpt-4" 2 0 0)] /\
  ~ backendsIdentical [(100, Record_ 1 "gpt-4" 3 0 0 5); (50, Record_ 1 "gpt-4" 3 0 0 5);
                       (95, Record_ 1 "gpt-4" 3 0 0 5); (120, Check 1 "gpt-4" 3 0 0)] /\
  ~ backendsIdentical [(0, Record_ 1 "gpt-4" 0 0 0 (2 ^ 62)); (1, Record_ 1 "gpt-4" 0 0 0 (2 ^ 62));
                       (2, GetUsage 1 "gpt-4")].
Proof. unfold backendsIdentical. split_and!; vm_compute; intros [=]. Qed.

(** C1, amended.  For a script whose clock readings are Unix times that
    never go back, whose [Check] and [Record] calls on a (channel, model)
    pair all carry the same RPM limit, and whose [load] is below 2^63, so
    that no counter leaves the [int64] range, the two backends agree at
    every step: [Check] returns the
    same result, [GetUsage] the same TPM and RPD usage, and an RPM usage that
    is the length of the stored list in the Redis backend and the number of
    events of the last minute, which is not larger, in the in-process
    backend. *)
Theorem backends_agree limit script :
  clockwise 0 script ->
  Forall (fun tc => usesLimit limit tc.2) script ->
  load script < 2 ^ 63 ->
  Forall2 agree (runScript true script (emptyWorld 0)) (runScript false script (emptyWorld 0)).
Proof.
  intros Hclock Hlimit Hload.
  apply (runScript_related limit script 0 0); try done; try lia.
  intros channelId modelName. cbn [emptyWorld rdb memoryRPMStore memoryTPMStore memoryRPDStore].
  rewrite !lookup_empty. split_and!; by left.
Qed.

Lemma backends_agree_witness :
  Forall2 agree
    (runScript true [(0, Record_ 1 "gpt-4" 2 0 0 5); (30, Record_ 1 "gpt-4" 2 0 0 7);
                     (61, GetUsage 1 "gpt-4"); (61, Check 1 "gpt-4" 2 0 0)] (emptyWorld 0))
    (runScript false [(0, Record_ 1 "gpt-4" 2 0 0 5); (30, Record_ 1 "gpt-4" 2 0 0 7);
                      (61, GetUsage 1 "gpt-4"); (61, Check 1 "gpt-4" 2 0 0)] (emptyWorld 0)).
Proof.
  apply (backends_agree (fun _ _ => 2)).
  - cbn [clockwise]. unfold unix_time. lia.
  - repeat constructor.
  - simpl. lia.
Defined.

(** * Further properties of the package *)

(** ** What the operations call, whatever the store answers *)

(** X1.  [Check] and [GetUsage] only read: in both backends and in both
    revisions of [Check], every call they make is the clock, a Redis read
    command or a map lookup, whatever the store answers. *)
Theorem check_and_usage_only_read {W} (h : handler W) RedisEnabled w channelId modelName rpm tpm rpd :
  Forall (fun s => stepIsRead s = true)
    (trace h (CheckChannelRateLimit RedisEnabled channelId modelName rpm tpm rpd) w) /\
  Forall (fun s => stepIsRead s = true)
    (trace h (Guarded.CheckChannelRateLimit RedisEnabled channelId modelName rpm tpm rpd) w) /\
  Forall (fun s => stepIsRead s = true)
    (trace h (GetChannelRateLimitUsage RedisEnabled channelId modelName) w).
Proof.
  unfold CheckChannelRateLimit, checkChannelRateLimitRedis, checkChannelRateLimitMemory,
    Guarded.CheckChannelRateLimit, Guarded.checkChannelRateLimitRedis,
    Guarded.checkChannelRateLimitMemory,
    GetChannelRateLimitUsage, getChannelRateLimitUsageRedis, getChannelRateLimitUsageMemory.
  destruct RedisEnabled; split_and!; go_cases; repeat constructor.
Qed.

(** X2.  The two revisions of the file read the store alike.  Their
    [Check] differs in the text of the error only: whatever the store
    answers the two make the same calls, leave the same world, and one
    returns no error exactly when the other does; neither panics.  Their
    [GetUsage] makes the same calls and returns the same figures. *)
Theorem check_revisions_agree {W} (h : handler W) RedisEnabled w channelId modelName rpm tpm rpd :
  let p := CheckChannelRateLimit RedisEnabled channelId modelName rpm tpm rpd in
  let q := Guarded.CheckChannelRateLimit RedisEnabled channelId modelName rpm tpm rpd in
  let u := GetChannelRateLimitUsage RedisEnabled channelId modelName in
  let v := Guarded.GetChannelRateLimitUsage RedisEnabled channelId modelName in
  (trace h q w = trace h p w /\
   final h q w = final h p w /\
   (result h q w = Some nil <-> result h p w = Some nil) /\
   result h p w <> None /\ result h q w <> None) /\
  (trace h v w = trace h u w /\ result h v w = result h u w).
Proof.
  unfold CheckChannelRateLimit, checkChannelRateLimitRedis, checkChannelRateLimitMemory,
    Guarded.CheckChannelRateLimit, Guarded.checkChannelRateLimitRedis,
    Guarded.checkChannelRateLimitMemory.
  cbv zeta. split; [|by destruct RedisEnabled].
  destruct RedisEnabled; split_and!; go_cases; done.
Qed.

(** X3.  In the revision of lines 270-533 the error names the dimension
    that decided: when [Check] returns an error, it is the "limit exceeded"
    error of the last dimension it read, and that dimension is limited. *)
Theorem guarded_check_names_dimension {W} (h : handler W) RedisEnabled w channelId modelName rpm tpm rpd msg :
  let q := Guarded.CheckChannelRateLimit RedisEnabled channelId modelName rpm tpm rpd in
  result h q w = Some (Some msg) ->
  exists d,
    last (omap stepDimension (trace h q w)) = Some d /\
    Some msg = Guarded.errExceeded modelName (dimensionName d) /\
    limitOf d rpm tpm rpd > 0.
Proof.
  unfold Guarded.CheckChannelRateLimit, Guarded.checkChannelRateLimitRedis,
    Guarded.checkChannelRateLimitMemory.
  cbv zeta. intros Hmsg.
  destruct RedisEnabled; go_cases; dims_simpl;
    injection Hmsg as Hmsg;
    match goal with
    | |- exists d, Some ?x = Some d /\ _ =>
        exists x; split_and!; [reflexivity|by rewrite <- Hmsg|cbn [limitOf]; lia]
    end.
Qed.

Lemma guarded_check_names_dimension_witness :
  exists d,
    last (omap stepDimension
            (trace handle (Guarded.CheckChannelRateLimit false 1 "gpt-4" 5 10 1) busyWorld))
    = Some d /\
    Some "model gpt-4 TPM limit exceeded" = Guarded.errExceeded "gpt-4" (dimensionName d) /\
    limitOf d 5 10 1 > 0.
Proof.
  apply (guarded_check_names_dimension handle false busyWorld 1 "gpt-4" 5 10 1).
  reflexivity.
Defined.

Ltac writes_simpl :=
  unfold writesTo, touches;
  cbn [existsb stepIsRead isRead stepDimension eventDimension];
  rewrite ?keyDimension_rpm, ?keyDimension_tpm, ?keyDimension_rpd;
  cbn [isDimension negb andb orb].

(** Closes the goal of [record_redis_commands] on one path of [Record],
    given the shapes of the two optional parts of the trace. *)
Ltac record_shape tokens day minute :=
  eexists day, minute; split; [reflexivity|];
  split;
  repeat match goal with
         | |- _ => progress lazy beta iota
         | H : decide ?P = _ |- context [decide ?P] => rewrite H
         | |- exists _ : reply bool, _ => eexists
         | H : decide (val ?u = tokens) = _ |- exists _ : reply Z, _ => exists u
         end;
  reflexivity.

(** X4.  The Redis commands of [Record] (lines 94-124), whatever Redis
    answers, errors included: the clock, then LPUSH, LTRIM to the cap and
    EXPIRE 60 on the RPM list, then INCR on the RPD counter with EXPIRE 86400
    exactly when the value it answered is 1, then, only for [tokens > 0],
    INCRBY on the TPM counter with EXPIRE 60 exactly when the value it
    answered equals [tokens]. *)
Theorem record_redis_commands {W} (h : handler W) w channelId modelName rpm tpm rpd tokens :
  let keyRPM := redisKey ChannelRPMPrefix channelId modelName in
  let keyRPD := redisKey ChannelRPDPrefix channelId modelName in
  let keyTPM := redisKey ChannelTPMPrefix channelId modelName in
  exists now r1 r2 r3 v day minute,
    trace h (recordChannelRateLimitRedis channelId modelName rpm tpm rpd tokens) w
    = [Did TimeNowUnix now; Did (LPush keyRPM now) r1;
       Did (LTrim keyRPM 0 (capOf rpm - 1)) r2; Did (Expire keyRPM 60) r3;
       Did (Incr keyRPD) v] ++ day ++ minute /\
    (if decide (val v = 1)
     then exists r, day = [Did (Expire keyRPD (24 * 3600)) r]
     else day = []) /\
    (if decide (tokens > 0)
     then exists u,
         if decide (val u = tokens)
         then exists r, minute = [Did (IncrBy keyTPM tokens) u; Did (Expire keyTPM 60) r]
         else minute = [Did (IncrBy keyTPM tokens) u]
     else minute = []).
Proof.
  cbv zeta. unfold recordChannelRateLimitRedis, capOf.
  go_simpl; repeat (go_goal_split; go_simpl); do 5 eexists;
    first
      [ solve [record_shape tokens (@List.nil Step) (@List.nil Step)]
      | solve [record_shape tokens (@List.nil Step) uconstr:([_])]
      | solve [record_shape tokens (@List.nil Step) uconstr:([_; _])]
      | solve [record_shape tokens uconstr:([_]) (@List.nil Step)]
      | solve [record_shape tokens uconstr:([_]) uconstr:([_])]
      | solve [record_shape tokens uconstr:([_]) uconstr:([_; _])] ].
Qed.

(** X5.  In the revision of lines 1-269 [Record] writes the RPM and the RPD
    store on every call, and the TPM store exactly when [tokens > 0]; in
    both backends, whatever the limits and whatever the store answers. *)
Theorem record_writes_every_dimension {W} (h : handler W) RedisEnabled w channelId modelName rpm tpm rpd tokens :
  let tr := trace h (RecordChannelRateLimit RedisEnabled channelId modelName
                       rpm tpm rpd tokens) w in
  writesTo RPM tr = true /\ writesTo RPD tr = true /\
  (writesTo TPM tr = true <-> tokens > 0).
Proof.
  cbv zeta.
  unfold RecordChannelRateLimit, recordChannelRateLimitRedis, recordChannelRateLimitMemory,
    sliceFrom.
  destruct RedisEnabled; go_cases; writes_simpl;
    (split_and!; [reflexivity..|split; [try discriminate|]; done]).
Qed.

(** X6.  In the revision of lines 270-533 [Record] leaves an unlimited
    dimension alone: whatever the store answers, it makes a call on the
    store of a dimension exactly when that dimension's limit is positive
    (and, for TPM, [tokens > 0]), and then it writes to it. *)
Theorem guarded_record_skips_unlimited {W} (h : handler W) RedisEnabled w channelId modelName rpm tpm rpd tokens d :
  let tr := trace h (Guarded.RecordChannelRateLimit RedisEnabled channelId modelName
                       rpm tpm rpd tokens) w in
  let recorded := limitOf d rpm tpm rpd > 0 /\ (d = TPM -> tokens > 0) in
  (touches d tr = true <-> recorded) /\ (writesTo d tr = true <-> recorded).
Proof.
  cbv zeta.
  unfold Guarded.RecordChannelRateLimit, Guarded.recordChannelRateLimitRedis,
    Guarded.recordChannelRateLimitMemory.
  destruct RedisEnabled, d; cbn [limitOf]; go_cases; writes_simpl;
    (split;
     (split;
      [ first [discriminate | intros _; split; [lia|first [done|lia]]]
      | intros [? Htok]; first [reflexivity | lia | specialize (Htok eq_refl); lia] ])).
Qed.

(** X7.  With all three limits positive the two revisions of the Redis
    [Record] are the same program: whatever Redis answers they make the same
    calls and leave the same world. *)
Theorem record_redis_revisions_agree {W} (h : handler W) w channelId modelName rpm tpm rpd tokens :
  rpm > 0 -> tpm > 0 -> rpd > 0 ->
  trace h (Guarded.recordChannelRateLimitRedis channelId modelName rpm tpm rpd tokens) w
  = trace h (recordChannelRateLimitRedis channelId modelName rpm tpm rpd tokens) w /\
  final h (Guarded.recordChannelRateLimitRedis channelId modelName rpm tpm rpd tokens) w
  = final h (recordChannelRateLimitRedis channelId modelName rpm tpm rpd tokens) w.
Proof.
  intros Hrpm Htpm Hrpd.
  unfold Guarded.recordChannelRateLimitRedis, recordChannelRateLimitRedis.
  split; go_cases; try reflexivity; tauto.
Qed.

Lemma record_redis_revisions_agree_witness :
  trace handle (Guarded.recordChannelRateLimitRedis 1 "gpt-4" 5 10 7 3) queuedWorld
  = trace handle (recordChannelRateLimitRedis 1 "gpt-4" 5 10 7 3) queuedWorld /\
  final handle (Guarded.recordChannelRateLimitRedis 1 "gpt-4" 5 10 7 3) queuedWorld
  = final handle (recordChannelRateLimitRedis 1 "gpt-4" 5 10 7 3) queuedWorld.
Proof.
  apply (record_redis_revisions_agree handle queuedWorld 1 "gpt-4" 5 10 7 3); lia.
Defined.

(** ** The modelled world: what the operations leave alone *)

(** X8.  [Check] and [GetUsage] consume nothing: in both backends, and for
    both revisions of [Check], the world after the call is the world before
    it, so that a refused or repeated check never counts against a quota. *)
Theorem check_and_usage_leave_world RedisEnabled w channelId modelName rpm tpm rpd :
  final handle (CheckChannelRateLimit RedisEnabled channelId modelName rpm tpm rpd) w = w /\
  final handle (Guarded.CheckChannelRateLimit RedisEnabled channelId modelName rpm tpm rpd) w
  = w /\
  final handle (GetChannelRateLimitUsage RedisEnabled channelId modelName) w = w.
Proof.
  split_and!.
  - apply CheckChannelRateLimit_final.
  - unfold Guarded.CheckChannelRateLimit, Guarded.checkChannelRateLimitRedis,
      Guarded.checkChannelRateLimitMemory.
    destruct w, RedisEnabled; run_cases; reflexivity.
  - apply GetChannelRateLimitUsage_final.
Qed.

(** X9.  Keys never collide: the in-process key determines the channel and
    the model, and the Redis key determines the dimension as well, also for
    model names that contain colons. *)
Theorem keys_determine_their_series d1 c1 m1 d2 c2 m2 :
  (memoryKey c1 m1 = memoryKey c2 m2 <-> (c1, m1) = (c2, m2)) /\
  (redisKey (prefixOf d1) c1 m1 = redisKey (prefixOf d2) c2 m2
   <-> (d1, c1, m1) = (d2, c2, m2)).
Proof.
  split; (split; [|by intros [= -> -> ->] || by intros [= -> ->]]).
  - intros [-> ->]%memoryKey_inj. done.
  - intros Heq.
    destruct (decide (d1 = d2)) as [->|Hd].
    + apply redisKey_inj in Heq as [-> ->]. done.
    + exfalso. revert Heq. apply redisKey_ne. by right.
Qed.

(** X10.  The two backends do not touch each other's store, and the Redis
    [Record] of either revision writes its own three keys only: the clock
    and the in-process maps are left as they were, and so is every Redis key
    other than the RPM, TPM and RPD key of the recorded (channel, model);
    the in-process [Record] of either revision leaves the Redis store as it
    was. *)
Theorem record_stays_in_its_backend (guarded : bool) w channelId modelName rpm tpm rpd tokens :
  let viaRedis :=
    final handle
      (if guarded
       then Guarded.recordChannelRateLimitRedis channelId modelName rpm tpm rpd tokens
       else recordChannelRateLimitRedis channelId modelName rpm tpm rpd tokens) w in
  let viaMemory :=
    final handle
      (if guarded
       then Guarded.recordChannelRateLimitMemory channelId modelName rpm tpm rpd tokens
       else recordChannelRateLimitMemory channelId modelName rpm tpm rpd tokens) w in
  (clock viaRedis = clock w /\
   memoryRPMStore viaRedis = memoryRPMStore w /\
   memoryTPMStore viaRedis = memoryTPMStore w /\
   memoryRPDStore viaRedis = memoryRPDStore w) /\
  (forall key,
     (forall d, key <> redisKey (prefixOf d) channelId modelName) ->
     rdb viaRedis !! key = rdb w !! key) /\
  (clock viaMemory = clock w /\ rdb viaMemory = rdb w).
Proof.
  cbv zeta. destruct guarded.
  - rewrite guarded_recordChannelRateLimitRedis_final,
      guarded_recordChannelRateLimitMemory_final.
    cbv zeta. split_and!; try reflexivity.
    intros key Hkey. cbn [rdb setRdb].
    pose proof (Hkey RPM) as HR. pose proof (Hkey TPM) as HT. pose proof (Hkey RPD) as HD.
    cbn [prefixOf] in HR, HT, HD.
    repeat case_decide;
      rewrite ?counterWrite_ne, ?expire_ne, ?ltrim_ne, ?lpush_ne by done; done.
  - rewrite recordChannelRateLimitRedis_final, recordChannelRateLimitMemory_final.
    cbv zeta. split_and!; try reflexivity.
    intros key Hkey. cbn [rdb setRdb].
    pose proof (Hkey RPM) as HR. pose proof (Hkey TPM) as HT. pose proof (Hkey RPD) as HD.
    cbn [prefixOf] in HR, HT, HD.
    repeat case_decide;
      rewrite ?counterWrite_ne, ?expire_ne, ?ltrim_ne, ?lpush_ne by done; done.
Qed.

Lemma record_stays_in_its_backend_witness :
  rdb (final handle (recordChannelRateLimitRedis 2 "gpt-4" 5 10 7 3) queuedWorld)
    !! "channel:rpm:1:gpt-4"
  = rdb queuedWorld !! "channel:rpm:1:gpt-4".
Proof.
  apply (proj1 (proj2 (record_stays_in_its_backend false queuedWorld 2 "gpt-4" 5 10 7 3))).
  intros d. destruct d; vm_compute; discriminate.
Defined.

(** ** The in-process backend: what [Record] stores and [GetUsage] reports *)

Lemma sub64_same now : sub64 now now = 0.
Proof. unfold sub64. by rewrite Z.sub_diag. Qed.

Lemma filter_drop_all (P : Z -> Prop) `{!forall x, Decision (P x)} (l : list Z) n :
  Forall P l -> filter P (drop n l) = drop n l.
Proof. intros Hall. apply filter_all. by apply Forall_drop. Qed.

Lemma last_drop_lt {A} (l : list A) n : (n < length l)%nat -> last (drop n l) = last l.
Proof.
  intros Hn. rewrite !last_lookup, lookup_drop, length_drop. f_equal. lia.
Qed.

Lemma kept_all_recent now (l : list Z) :
  Forall (fun ts => sub64 now ts < 60) (filter (fun ts => sub64 now ts < 60) l ++ [now]).
Proof.
  apply Forall_app. split.
  - apply Forall_forall. intros ts Hin. by apply list_elem_of_filter in Hin as [? _].
  - apply Forall_singleton. rewrite sub64_same. lia.
Qed.

Lemma countRecent_nextTimestamps now rpm found :
  countRecent now (nextTimestamps now rpm found)
  = Z.min (capOf rpm) (countRecent now (default [] found) + 1).
Proof.
  rewrite !countRecent_filter. unfold nextTimestamps. cbv zeta.
  set (kept := filter _ (default [] found) ++ [now]).
  assert (Hlen : Z.of_nat (length kept)
                 = Z.of_nat (length (filter (fun ts => sub64 now ts < 60) (default [] found)))
                   + 1).
  { subst kept. rewrite length_app. simpl. lia. }
  rewrite filter_drop_all by apply kept_all_recent.
  rewrite length_drop. pose proof (capOf_pos rpm). lia.
Qed.

(** X11.  The history the in-process [Record] of lines 190-236 stores: it
    ends with the current clock reading, holds at most the cap (the RPM
    limit, or 1000 when the limit is zero or negative), holds nothing older
    than a minute, and is a tail of the recent part of the old history
    followed by the current reading. *)
Theorem record_memory_history w channelId modelName rpm tpm rpd tokens :
  let now := clock w in
  let key := memoryKey channelId modelName in
  let w' := final handle (recordChannelRateLimitMemory channelId modelName rpm tpm rpd tokens) w in
  exists timestamps,
    memoryRPMStore w' !! key = Some timestamps /\
    last timestamps = Some now /\
    Z.of_nat (length timestamps) <= capOf rpm /\
    Forall (fun ts => sub64 now ts < 60) timestamps /\
    timestamps `suffix_of`
      filter (fun ts => sub64 now ts < 60) (default [] (memoryRPMStore w !! key)) ++ [now].
Proof.
  cbv zeta. rewrite recordChannelRateLimitMemory_final.
  unfold afterRecordMemory. cbn [memoryRPMStore]. rewrite lookup_insert_eq.
  eexists. split; [reflexivity|].
  unfold nextTimestamps. cbv zeta.
  set (kept := filter _ _ ++ [clock w]).
  pose proof (capOf_pos rpm) as Hcap.
  assert (Hlen : (length kept - Z.to_nat (capOf rpm) < length kept)%nat).
  { subst kept. rewrite length_app. simpl. lia. }
  split_and!.
  - rewrite last_drop_lt by done. subst kept. apply last_snoc.
  - rewrite length_drop. lia.
  - apply Forall_drop, kept_all_recent.
  - apply suffix_drop.
Qed.

Lemma readCounter_nextCounter now amount window found :
  unix_time now -> 0 < window <= 24 * 3600 ->
  int64 (readCounter now found + amount) ->
  readCounter now (Some (nextCounter now amount window found))
  = readCounter now found + amount.
Proof.
  intros Hnow Hwin Hrange. unfold readCounter, nextCounter in *.
  rewrite (add64_unix now window) by (done || lia).
  destruct found as [item|]; repeat case_decide; cbn [Count Expiration] in *;
    rewrite ?add64_int64 by done; lia.
Qed.

(** X12.  What one [Record] adds to the usage the in-process backend
    reports at the same clock reading, as long as the counters stay in the
    64-bit range: in lines 190-236 one request (up to the cap of the
    history), the tokens when they are positive, and one request of the day;
    in lines 458-500 the same, without a cap, for the dimensions whose limit
    is positive, and nothing for the others. *)
Theorem record_memory_adds_usage w channelId modelName rpm tpm rpd tokens u t d :
  unix_time (clock w) ->
  result handle (GetChannelRateLimitUsage false channelId modelName) w = Some (u, t, d) ->
  int64 (t + tokens) -> int64 (d + 1) ->
  result handle (GetChannelRateLimitUsage false channelId modelName)
    (final handle (RecordChannelRateLimit false channelId modelName rpm tpm rpd tokens) w)
  = Some (Z.min (capOf rpm) (u + 1), t + Z.max 0 tokens, d + 1) /\
  result handle (GetChannelRateLimitUsage false channelId modelName)
    (final handle (Guarded.RecordChannelRateLimit false channelId modelName rpm tpm rpd tokens) w)
  = Some (if decide (rpm > 0) then u + 1 else u,
          if decide (tpm > 0) then t + Z.max 0 tokens else t,
          if decide (rpd > 0) then d + 1 else d).
Proof.
  intros Hnow Husage Ht Hd. revert Husage.
  cbn [GetChannelRateLimitUsage RecordChannelRateLimit Guarded.RecordChannelRateLimit].
  rewrite !getChannelRateLimitUsageMemory_result.
  rewrite recordChannelRateLimitMemory_final, guarded_recordChannelRateLimitMemory_final.
  unfold afterRecordMemory, afterGuardedRecordMemory.
  cbn [memoryRPMStore memoryTPMStore memoryRPDStore clock].
  set (key := memoryKey channelId modelName).
  assert (Hsame : match memoryRPMStore w !! key with
                  | Some timestamps => countRecent (clock w) timestamps
                  | None => 0
                  end
                  = countRecent (clock w) (default [] (memoryRPMStore w !! key))).
  { by destruct (memoryRPMStore w !! key). }
  rewrite Hsame. intros [= <- <- <-].
  split; f_equal; repeat apply (f_equal2 pair).
  - rewrite lookup_insert_eq. apply countRecent_nextTimestamps.
  - case_decide.
    + rewrite lookup_insert_eq, readCounter_nextCounter by (done || lia). lia.
    + lia.
  - rewrite lookup_insert_eq, readCounter_nextCounter by (done || lia). lia.
  - case_decide; [|by rewrite Hsame].
    rewrite lookup_insert_eq, !countRecent_filter.
    rewrite filter_all by apply kept_all_recent.
    rewrite length_app. simpl. lia.
  - destruct (decide (tpm > 0 /\ tokens > 0)) as [[? ?]|?].
    + rewrite decide_True by done.
      rewrite lookup_insert_eq, readCounter_nextCounter by (done || lia). lia.
    + case_decide; lia.
  - case_decide; [|done].
    rewrite lookup_insert_eq, readCounter_nextCounter by (done || lia). lia.
Qed.

Lemma record_memory_adds_usage_witness :
  result handle (GetChannelRateLimitUsage false 1 "gpt-4")
    (final handle (RecordChannelRateLimit false 1 "gpt-4" 2 100 10 5) busyWorld)
  = Some (2, 45, 3) /\
  result handle (GetChannelRateLimitUsage false 1 "gpt-4")
    (final handle (Guarded.RecordChannelRateLimit false 1 "gpt-4" 2 100 10 5) busyWorld)
  = Some (2, 45, 3).
Proof.
  apply (record_memory_adds_usage busyWorld 1 "gpt-4" 2 100 10 5 1 40 2);
    [unfold unix_time; simpl; lia | vm_compute; reflexivity | unfold int64; lia..].
Defined.

(** ** [Check] against [GetUsage] *)

Lemma verdict_nil b : verdict b = nil <-> b = false.
Proof. by destruct b. Qed.

Lemma blocks_memory_rpm w channelId modelName rpm tpm rpd :
  blocks false w channelId modelName rpm tpm rpd RPM = true
  <-> reaches (match memoryRPMStore w !! memoryKey channelId modelName with
               | Some timestamps => countRecent (clock w) timestamps
               | None => 0
               end) rpm.
Proof.
  unfold blocks, reachedMemory, reaches. cbn [limitOf].
  rewrite andb_true_iff, bool_decide_eq_true.
  destruct (memoryRPMStore w !! _); rewrite ?bool_decide_eq_true; [done|].
  split; [by intros [_ ?]|lia].
Qed.

Lemma reached_counter now found limit :
  limit > 0 ->
  match found with
  | Some item => bool_decide (now < Expiration item /\ Count item >= limit)
  | None => false
  end = true
  <-> readCounter now found >= limit.
Proof.
  intros Hlimit. unfold readCounter.
  destruct found as [item|]; [|split; [done|lia]].
  rewrite bool_decide_eq_true. case_decide; [tauto|]. split; [tauto|lia].
Qed.

Lemma blocks_memory_tpm w channelId modelName rpm tpm rpd :
  blocks false w channelId modelName rpm tpm rpd TPM = true
  <-> reaches (readCounter (clock w) (memoryTPMStore w !! memoryKey channelId modelName)) tpm.
Proof.
  unfold blocks, reachedMemory, reaches. cbn [limitOf].
  rewrite andb_true_iff, bool_decide_eq_true.
  split; intros [Hlimit H]; (split; [done|]); by apply reached_counter.
Qed.

Lemma blocks_memory_rpd w channelId modelName rpm tpm rpd :
  blocks false w channelId modelName rpm tpm rpd RPD = true
  <-> reaches (readCounter (clock w) (memoryRPDStore w !! memoryKey channelId modelName)) rpd.
Proof.
  unfold blocks, reachedMemory, reaches. cbn [limitOf].
  rewrite andb_true_iff, bool_decide_eq_true.
  split; intros [Hlimit H]; (split; [done|]); by apply reached_counter.
Qed.

(** X13.  The in-process [Check] refuses exactly when [GetUsage] would
    report, at the same moment, a usage at or over a positive limit: it
    returns the error when the RPM, TPM or RPD figure has reached its limit,
    and no error otherwise. *)
Theorem check_memory_iff_usage w channelId modelName rpm tpm rpd :
  exists u t d,
    result handle (GetChannelRateLimitUsage false channelId modelName) w = Some (u, t, d) /\
    (result handle (CheckChannelRateLimit false channelId modelName rpm tpm rpd) w
     = Some errSaturated
     <-> reaches u rpm \/ reaches t tpm \/ reaches d rpd) /\
    (result handle (CheckChannelRateLimit false channelId modelName rpm tpm rpd) w
     = Some nil
     <-> ~ (reaches u rpm \/ reaches t tpm \/ reaches d rpd)).
Proof.
  do 3 eexists. split; [apply getChannelRateLimitUsageMemory_result|].
  rewrite CheckChannelRateLimit_result.
  rewrite <- (blocks_memory_rpm w channelId modelName rpm tpm rpd),
    <- (blocks_memory_tpm w channelId modelName rpm tpm rpd),
    <- (blocks_memory_rpd w channelId modelName rpm tpm rpd).
  destruct (blocks false w _ _ _ _ _ RPM), (blocks false w _ _ _ _ _ TPM),
    (blocks false w _ _ _ _ _ RPD); cbn [orb verdict]; split; split;
    first [done | tauto | intuition discriminate ].
Qed.

Lemma lindex_last now db key :
  Redis.lindex now db key (-1)
  = match Redis.live now db key with
    | None => Err RedisNil
    | Some {| data := RList l |} =>
        match last l with Some v => Ok v | None => Err RedisNil end
    | Some {| data := RInt _ |} => Err WrongType
    end.
Proof.
  unfold Redis.lindex. destruct (Redis.live now db key) as [[[l|n] e]|]; cbn [data]; [|done..].
  destruct (decide (-1 < 0)) as [_|?]; [|lia].
  destruct l as [|x l _] using rev_ind; [done|].
  rewrite length_app, last_snoc. cbn [length].
  destruct (decide (0 <= _)) as [_|?]; [|lia].
  replace (Z.to_nat (Z.of_nat (length l + 1) + -1)) with (length l) by lia.
  by rewrite lookup_app_r, Nat.sub_diag by lia.
Qed.

Lemma blocks_redis_rpm w channelId modelName rpm tpm rpd :
  let key := redisKey ChannelRPMPrefix channelId modelName in
  blocks true w channelId modelName rpm tpm rpd RPM = true
  <-> reaches (val (Redis.llen (clock w) (rdb w) key)) rpm /\
      exists oldest, last (liveList (clock w) (rdb w) key) = Some oldest /\
                     sub64 (clock w) oldest < 60.
Proof.
  cbv zeta. unfold blocks, reachedRedis, reaches. cbn [limitOf]. cbv zeta.
  rewrite lindex_last. unfold Redis.llen, liveList.
  rewrite andb_true_iff, bool_decide_eq_true.
  destruct (Redis.live _ _ _) as [[[l|n] e]|]; cbn [data val].
  - rewrite andb_true_iff, bool_decide_eq_true.
    destruct (last l) as [oldest|].
    + rewrite bool_decide_eq_true. split.
      * intros (? & ? & ?). eauto.
      * intros ((? & ?) & ? & [= <-] & ?). done.
    + split; [intros (_ & _ & [=])|intros (_ & ? & [=] & _)].
  - split; [intros (_ & [=])|intros ((? & ?) & _); lia].
  - rewrite andb_false_r. split; [intros (_ & [=])|intros ((? & ?) & _); lia].
Qed.

Lemma blocks_redis_counter w channelId modelName rpm tpm rpd d :
  d <> RPM ->
  blocks true w channelId modelName rpm tpm rpd d = true
  <-> reaches (val (Redis.get (clock w) (rdb w) (redisKey (prefixOf d) channelId modelName)))
        (limitOf d rpm tpm rpd).
Proof.
  intros Hd. unfold blocks, reachedRedis, reaches. cbv zeta.
  rewrite andb_true_iff, bool_decide_eq_true.
  destruct d; [done|..]; cbn [prefixOf limitOf];
    destruct (Redis.get _ _ _) as [v|err]; cbn [val];
    rewrite ?bool_decide_eq_true;
    first [tauto | split; [intros [_ [=]]|intros [? ?]; lia]].
Qed.

(** X14.  The Redis [Check] of lines 55-92 against the figures [GetUsage]
    reports at the same moment: it refuses exactly when the TPM or the RPD
    figure has reached a positive limit, or the RPM figure has and the
    oldest entry of the list is less than a minute old. *)
Theorem check_redis_iff_usage w channelId modelName rpm tpm rpd :
  let history := liveList (clock w) (rdb w) (redisKey ChannelRPMPrefix channelId modelName) in
  exists u t d,
    result handle (GetChannelRateLimitUsage true channelId modelName) w = Some (u, t, d) /\
    (result handle (CheckChannelRateLimit true channelId modelName rpm tpm rpd) w
     = Some errSaturated
     <-> (reaches u rpm /\
          exists oldest, last history = Some oldest /\ sub64 (clock w) oldest < 60) \/
         reaches t tpm \/ reaches d rpd) /\
    (result handle (CheckChannelRateLimit true channelId modelName rpm tpm rpd) w = Some nil
     \/ result handle (CheckChannelRateLimit true channelId modelName rpm tpm rpd) w
        = Some errSaturated).
Proof.
  cbv zeta. do 3 eexists. split; [apply getChannelRateLimitUsageRedis_result|].
  rewrite CheckChannelRateLimit_result.
  rewrite <- (blocks_redis_rpm w channelId modelName rpm tpm rpd).
  rewrite <- (blocks_redis_counter w channelId modelName rpm tpm rpd TPM) by done.
  rewrite <- (blocks_redis_counter w channelId modelName rpm tpm rpd RPD) by done.
  destruct (blocks true w _ _ _ _ _ RPM), (blocks true w _ _ _ _ _ TPM),
    (blocks true w _ _ _ _ _ RPD); cbn [orb verdict]; split;
    first [ split; first [done | tauto | intuition discriminate]
          | by left | by right ].
Qed.

(** ** A minute without requests *)

Lemma rpm_write_expires now db key cap :
  cap >= 1 ->
  exists e,
    (Redis.expire now (Redis.ltrim now (Redis.lpush now db key now).2 key 0 (cap - 1)).2 key 60).2
      !! key = Some e /\
    expireAt e = Some (now + 60).
Proof.
  intros Hcap.
  destruct (Redis.live now db key) as [[[l|n] e]|] eqn:Hlive.
  - rewrite rpm_write by (done || by unfold listOrAbsent; rewrite Hlive).
    rewrite lookup_insert_eq. eauto.
  - unfold Redis.lpush, Redis.ltrim. rewrite Hlive. cbn [data snd]. rewrite Hlive.
    cbn [data snd]. unfold Redis.expire. rewrite Hlive.
    destruct (decide (60 <= 0)) as [?|_]; [lia|]. cbn [snd].
    rewrite lookup_insert_eq. eauto.
  - rewrite rpm_write by (done || by unfold listOrAbsent; rewrite Hlive).
    rewrite lookup_insert_eq. eauto.
Qed.

Lemma recordChannelRateLimitRedis_rpm_expires w channelId modelName rpm tpm rpd tokens :
  exists e,
    rdb (final handle (recordChannelRateLimitRedis channelId modelName rpm tpm rpd tokens) w)
      !! redisKey ChannelRPMPrefix channelId modelName = Some e /\
    expireAt e = Some (clock w + 60).
Proof.
  rewrite recordChannelRateLimitRedis_final. cbv zeta. cbn [rdb setRdb].
  destruct (rpm_write_expires (clock w) (rdb w)
              (redisKey ChannelRPMPrefix channelId modelName) (capOf rpm))
    as (e & He & Hexp); [pose proof (capOf_pos rpm); lia|].
  exists e. split; [|done]. rewrite <- He.
  case_decide;
    rewrite ?(counterWrite_ne _ _ (redisKey ChannelTPMPrefix _ _))
      by apply redisKey_rpm_tpm;
    rewrite (counterWrite_ne _ _ (redisKey ChannelRPDPrefix _ _))
      by apply redisKey_rpm_rpd;
    done.
Qed.

Lemma nextTimestamps_keeps (Q : Z -> Prop) now rpm found :
  Q now -> Forall Q (default [] found) -> Forall Q (nextTimestamps now rpm found).
Proof.
  intros Hnow Hold. unfold nextTimestamps. cbv zeta.
  apply Forall_drop, Forall_app. split; [by apply Forall_filter_keeps|by apply Forall_singleton].
Qed.

Lemma countRecent_quiet now last_ timestamps :
  unix_time now -> last_ + 60 <= now ->
  Forall (fun ts => unix_time ts /\ ts <= last_) timestamps ->
  countRecent now timestamps = 0.
Proof.
  intros Hnow Hquiet Hall. rewrite countRecent_filter, filter_none; [done|].
  eapply Forall_impl; [exact Hall|]. cbn beta. intros ts [Hts Hle].
  rewrite sub64_unix by done. lia.
Qed.

(** X15.  A minute without requests empties the RPM window: when a full
    minute has passed since the last [Record], [GetUsage] reports an RPM
    usage of 0 and [Check] decides as if there were no RPM limit.  For the
    Redis backend this holds whatever the store held; for the in-process
    backend the stored history must not hold readings later than that
    [Record]. *)
Theorem rpm_quiet_minute RedisEnabled w channelId modelName rpm tpm rpd tokens t t' :
  let w' := setClock t'
              (endScript RedisEnabled [(t, Record_ channelId modelName rpm tpm rpd tokens)] w) in
  unix_time t -> unix_time t' -> t + 60 <= t' ->
  (RedisEnabled = false ->
   Forall (fun ts => unix_time ts /\ ts <= t)
     (default [] (memoryRPMStore w !! memoryKey channelId modelName))) ->
  (exists tpm' rpd',
     result handle (GetChannelRateLimitUsage RedisEnabled channelId modelName) w'
     = Some (0, tpm', rpd')) /\
  (forall rpm' tpm' rpd',
     result handle (CheckChannelRateLimit RedisEnabled channelId modelName rpm' tpm' rpd') w'
     = result handle (CheckChannelRateLimit RedisEnabled channelId modelName 0 tpm' rpd') w').
Proof.
  intros w' Ht Ht' Hquiet Hold. subst w'. cbn [endScript].
  destruct RedisEnabled.
  - rewrite perform_record_redis.
    destruct (recordChannelRateLimitRedis_rpm_expires (setClock t w) channelId modelName
                rpm tpm rpd tokens) as (e & He & Hexp).
    set (w1 := final handle _ _) in *. cbn [setClock clock] in Hexp.
    assert (Hlive : Redis.live t' (rdb w1) (redisKey ChannelRPMPrefix channelId modelName)
                    = None).
    { unfold Redis.live. rewrite He, Hexp. by rewrite decide_True by lia. }
    split.
    + cbn [GetChannelRateLimitUsage]. rewrite getChannelRateLimitUsageRedis_result.
      cbn [setClock clock rdb]. unfold Redis.llen at 1. rewrite Hlive. cbn [val]. eauto.
    + intros rpm' tpm' rpd'. apply blocks_rpm_only.
      unfold blocks, reachedRedis. cbn [limitOf setClock clock rdb]. cbv zeta.
      unfold Redis.llen. rewrite Hlive.
      apply andb_false_iff. destruct (decide (rpm' > 0)).
      * right. apply andb_false_iff. left. apply bool_decide_eq_false. lia.
      * left. by apply bool_decide_eq_false.
  - rewrite perform_record_memory. specialize (Hold eq_refl).
    set (w1 := afterRecordMemory _ _ _ _ _).
    assert (Hw1 : exists timestamps,
               memoryRPMStore w1 !! memoryKey channelId modelName = Some timestamps /\
               countRecent t' timestamps = 0).
    { subst w1. unfold afterRecordMemory. cbn [memoryRPMStore setClock clock].
      rewrite lookup_insert_eq. eexists. split; [done|].
      apply (countRecent_quiet t' t); [done..|].
      apply nextTimestamps_keeps; [split; [done|lia]|done]. }
    destruct Hw1 as (timestamps & Hw1 & Hcount).
    split.
    + cbn [GetChannelRateLimitUsage]. rewrite getChannelRateLimitUsageMemory_result.
      cbn [setClock clock memoryRPMStore]. rewrite Hw1, Hcount. eauto.
    + intros rpm' tpm' rpd'. apply blocks_rpm_only.
      unfold blocks, reachedMemory. cbn [limitOf setClock clock memoryRPMStore].
      rewrite Hw1, Hcount.
      apply andb_false_iff. destruct (decide (rpm' > 0)).
      * right. apply bool_decide_eq_false. lia.
      * left. by apply bool_decide_eq_false.
Qed.

Lemma rpm_quiet_minute_witness :
  (exists tpm' rpd',
     result handle (GetChannelRateLimitUsage false 1 "gpt-4")
       (setClock 180 (endScript false [(120, Record_ 1 "gpt-4" 2 100 10 5)] busyWorld))
     = Some (0, tpm', rpd')) /\
  (exists tpm' rpd',
     result handle (GetChannelRateLimitUsage true 1 "gpt-4")
       (setClock 180 (endScript true [(120, Record_ 1 "gpt-4" 2 100 10 5)] queuedWorld))
     = Some (0, tpm', rpd')).
Proof.
  split.
  - refine (proj1 (rpm_quiet_minute false busyWorld 1 "gpt-4" 2 100 10 5 120 180 _ _ _ _));
      [unfold unix_time; lia..|lia|].
    intros _. change (Forall (fun ts => unix_time ts /\ ts <= 120) [10; 90]).
    repeat constructor; unfold unix_time; lia.
  - refine (proj1 (rpm_quiet_minute true queuedWorld 1 "gpt-4" 2 100 10 5 120 180 _ _ _ _));
      [unfold unix_time; lia..|lia|discriminate].
Defined.

(** ** A burst of requests within one minute *)

Lemma inMinute_recent t1 now (l : list Z) :
  inMinute t1 now -> Forall (inMinute t1) l -> Forall (fun ts => sub64 now ts < 60) l.
Proof.
  intros [Hnow Hwin] Hall. eapply Forall_impl; [exact Hall|]. cbn beta.
  intros ts [Hts Hwin']. rewrite sub64_unix by done. lia.
Qed.

Lemma countRecent_inMinute t1 now (l : list Z) :
  inMinute t1 now -> Forall (inMinute t1) l -> countRecent now l = Z.of_nat (length l).
Proof.
  intros Hnow Hall. rewrite countRecent_filter, filter_all; [done|].
  by apply (inMinute_recent t1).
Qed.

Lemma usage_default now (found : option (list Z)) :
  match found with Some timestamps => countRecent now timestamps | None => 0 end
  = countRecent now (default [] found).
Proof. by destruct found. Qed.

Lemma endScript_burst_memory channelId modelName rpm t1 script :
  forall w,
    let key := memoryKey channelId modelName in
    Forall (recordsWithLimit channelId modelName rpm t1) script ->
    Forall (inMinute t1) (default [] (memoryRPMStore w !! key)) ->
    Z.of_nat (length (default [] (memoryRPMStore w !! key))) <= capOf rpm ->
    let history := default [] (memoryRPMStore (endScript false script w) !! key) in
    Forall (inMinute t1) history /\
    Z.of_nat (length history)
    = Z.min (capOf rpm)
        (Z.of_nat (length (default [] (memoryRPMStore w !! key))) + Z.of_nat (length script)).
Proof.
  pose proof (capOf_pos rpm) as Hcap.
  induction script as [|[t c] script IH]; intros w key Hall Hold Hlen; subst key; cbv zeta;
    set (key := memoryKey channelId modelName) in *.
  { cbn [endScript length]. split; [done|]. lia. }
  apply Forall_cons in Hall as [(Ht & Hwin & tpm & rpd & tokens & Hc) Hall].
  cbn [fst snd] in Ht, Hwin, Hc. subst c. cbn [endScript].
  rewrite perform_record_memory.
  set (w1 := afterRecordMemory _ _ _ _ _).
  assert (Hw1 : memoryRPMStore w1 !! key
                = Some (nextTimestamps t rpm (memoryRPMStore w !! key))).
  { subst w1. unfold afterRecordMemory. cbn [memoryRPMStore setClock clock].
    by rewrite lookup_insert_eq. }
  assert (Hnext : Forall (inMinute t1) (nextTimestamps t rpm (memoryRPMStore w !! key))).
  { by apply nextTimestamps_keeps. }
  assert (Hcount : Z.of_nat (length (nextTimestamps t rpm (memoryRPMStore w !! key)))
                   = Z.min (capOf rpm)
                       (Z.of_nat (length (default [] (memoryRPMStore w !! key))) + 1)).
  { rewrite <- (countRecent_inMinute t1 t) by done.
    rewrite countRecent_nextTimestamps.
    by rewrite (countRecent_inMinute t1 t). }
  destruct (IH w1) as [Hin Hlen']; [done|by rewrite Hw1|rewrite Hw1; cbn [default from_option id]; lia|].
  split; [done|]. rewrite Hlen', Hw1. cbn [default from_option id length]. lia.
Qed.

Lemma endScript_burst_redis channelId modelName rpm t1 script :
  forall w l,
    let key := redisKey ChannelRPMPrefix channelId modelName in
    Forall (recordsWithLimit channelId modelName rpm t1) script ->
    (rdb w !! key = None /\ l = [] \/
     exists e, rdb w !! key = Some {| data := RList l; expireAt := Some e |} /\ t1 + 60 <= e) ->
    Forall (inMinute t1) l ->
    Z.of_nat (length l) <= capOf rpm ->
    exists l',
      (rdb (endScript true script w) !! key = None /\ l' = [] \/
       exists e, rdb (endScript true script w) !! key
                 = Some {| data := RList l'; expireAt := Some e |} /\ t1 + 60 <= e) /\
      Forall (inMinute t1) l' /\
      Z.of_nat (length l')
      = Z.min (capOf rpm) (Z.of_nat (length l) + Z.of_nat (length script)).
Proof.
  pose proof (capOf_pos rpm) as Hcap.
  induction script as [|[t c] script IH]; intros w l key Hall Hentry Hold Hlen; subst key;
    cbv zeta; set (key := redisKey ChannelRPMPrefix channelId modelName) in *.
  { cbn [endScript length]. exists l. split_and!; [done..|lia]. }
  apply Forall_cons in Hall as [(Ht & Hwin & tpm & rpd & tokens & Hc) Hall].
  cbn [fst snd] in Ht, Hwin, Hc. subst c. cbn [endScript].
  rewrite perform_record_redis.
  set (w1 := final handle _ _).
  assert (Hlive : Redis.live t (rdb w) key = rdb w !! key).
  { unfold Redis.live. destruct Hentry as [[-> _]|(e & -> & He)]; [done|].
    cbn [expireAt]. by rewrite decide_False by lia. }
  assert (Hlist : liveList t (rdb w) key = l).
  { unfold liveList. rewrite Hlive. by destruct Hentry as [[-> ->]|(e & -> & He)]. }
  assert (Hw1 : rdb w1 !! key
                = Some {| data := RList (take (Z.to_nat (capOf rpm)) (t :: l));
                          expireAt := Some (t + 60) |}).
  { subst w1. rewrite <- Hlist. apply recordChannelRateLimitRedis_rpm.
    unfold listOrAbsent. cbv zeta. cbn [setClock clock rdb]. fold key. rewrite Hlive.
    by destruct Hentry as [[-> _]|(e & -> & He)]. }
  destruct (IH w1 (take (Z.to_nat (capOf rpm)) (t :: l))) as (l' & Hentry' & Hin & Hlen').
  - done.
  - right. eexists. split; [exact Hw1|lia].
  - apply Forall_take. by constructor.
  - rewrite length_take. cbn [length]. lia.
  - exists l'. split_and!; [done..|].
    rewrite Hlen', length_take. cbn [length]. lia.
Qed.

(** X16.  A burst within one minute, on a (channel, model) without RPM
    history: after [n] calls of [Record] with RPM limit [rpm], all in the
    same minute, [GetUsage] reports an RPM usage of [n], or of the cap of the
    history once [n] exceeds it; [Check] with that limit refuses as soon as
    [n] has reached it, and before that it decides as if there were no RPM
    limit.  This holds in both backends. *)
Theorem rpm_burst RedisEnabled w channelId modelName rpm t1 script t :
  let w' := setClock t (endScript RedisEnabled script w) in
  let n := Z.of_nat (length script) in
  memoryRPMStore w !! memoryKey channelId modelName = None ->
  rdb w !! redisKey ChannelRPMPrefix channelId modelName = None ->
  Forall (recordsWithLimit channelId modelName rpm t1) script ->
  inMinute t1 t ->
  (exists tpm' rpd',
     result handle (GetChannelRateLimitUsage RedisEnabled channelId modelName) w'
     = Some (Z.min (capOf rpm) n, tpm', rpd')) /\
  (forall tpm rpd, rpm > 0 -> n >= rpm ->
     result handle (CheckChannelRateLimit RedisEnabled channelId modelName rpm tpm rpd) w'
     = Some errSaturated) /\
  (forall tpm rpd, n < rpm ->
     result handle (CheckChannelRateLimit RedisEnabled channelId modelName rpm tpm rpd) w'
     = result handle (CheckChannelRateLimit RedisEnabled channelId modelName 0 tpm rpd) w').
Proof.
  intros w' n Hnone Hnone' Hall Ht. subst w' n.
  pose proof (capOf_pos rpm) as Hcap.
  assert (Hcap' : rpm > 0 -> capOf rpm = rpm).
  { intros. unfold capOf. by rewrite decide_False by lia. }
  destruct RedisEnabled.
  - destruct (endScript_burst_redis channelId modelName rpm t1 script w [])
      as (l & Hentry & Hin & Hlen); [done|by left|done|cbn [length]; lia|].
    cbn [length] in Hlen. rewrite Z.add_0_l in Hlen.
    set (w1 := endScript true script w) in *.
    set (key := redisKey ChannelRPMPrefix channelId modelName) in *.
    assert (Hlist : liveList t (rdb w1) key = l).
    { unfold liveList, Redis.live. destruct Hentry as [[-> ->]|(e & -> & He)]; [done|].
      cbn [expireAt]. destruct Ht as [_ Ht]. by rewrite decide_False by lia. }
    assert (Hllen : Redis.llen t (rdb w1) key = Ok (Z.of_nat (length l))).
    { unfold Redis.llen, Redis.live. destruct Hentry as [[-> ->]|(e & -> & He)]; [done|].
      cbn [expireAt]. destruct Ht as [_ Ht]. by rewrite decide_False by lia. }
    assert (Hblocks : forall tpm rpd,
               blocks true (setClock t w1) channelId modelName rpm tpm rpd RPM = true
               <-> rpm > 0 /\ Z.of_nat (length script) >= rpm).
    { intros tpm rpd. rewrite blocks_redis_rpm. cbv zeta. cbn [setClock clock rdb].
      fold key. rewrite Hllen, Hlist. cbn [val]. unfold reaches. split.
      - intros [[Hrpm Hreach] _]. split; [done|]. specialize (Hcap' Hrpm). lia.
      - intros [Hrpm Hreach]. specialize (Hcap' Hrpm). split; [lia|].
        destruct l as [|x l _] using rev_ind; [cbn [length] in Hlen; lia|].
        rewrite last_snoc. eexists. split; [done|].
        apply Forall_app in Hin as [_ Hx]. apply (proj1 (Forall_singleton _ _)) in Hx.
        destruct Ht as [Ht Hwin], Hx as [Hx Hwin']. rewrite sub64_unix by done. lia. }
    split_and!.
    + cbn [GetChannelRateLimitUsage]. rewrite getChannelRateLimitUsageRedis_result.
      cbn [setClock clock rdb]. fold key. rewrite Hllen. cbn [val]. rewrite Hlen. eauto.
    + intros tpm rpd Hrpm Hreach. rewrite CheckChannelRateLimit_result.
      by rewrite (proj2 (Hblocks tpm rpd)).
    + intros tpm rpd Hless. apply blocks_rpm_only.
      destruct (blocks true _ _ _ _ _ _ RPM) eqn:Hb; [|done].
      apply Hblocks in Hb. lia.
  - destruct (endScript_burst_memory channelId modelName rpm t1 script w) as [Hin Hlen];
      [done|by rewrite Hnone|rewrite Hnone; cbn [default from_option id length]; lia|].
    rewrite Hnone in Hlen. cbn [default from_option id length] in Hlen. rewrite Z.add_0_l in Hlen.
    set (w1 := endScript false script w) in *.
    set (key := memoryKey channelId modelName) in *.
    assert (Husage : match memoryRPMStore w1 !! key with
                     | Some timestamps => countRecent t timestamps
                     | None => 0
                     end = Z.min (capOf rpm) (Z.of_nat (length script))).
    { rewrite usage_default, (countRecent_inMinute t1) by done. done. }
    assert (Hblocks : forall tpm rpd,
               blocks false (setClock t w1) channelId modelName rpm tpm rpd RPM = true
               <-> rpm > 0 /\ Z.of_nat (length script) >= rpm).
    { intros tpm rpd. rewrite blocks_memory_rpm. cbn [setClock clock memoryRPMStore].
      fold key. rewrite Husage. unfold reaches. split.
      - intros [Hrpm Hreach]. specialize (Hcap' Hrpm). lia.
      - intros [Hrpm Hreach]. specialize (Hcap' Hrpm). lia. }
    split_and!.
    + cbn [GetChannelRateLimitUsage]. rewrite getChannelRateLimitUsageMemory_result.
      cbn [setClock clock memoryRPMStore]. fold key. rewrite Husage. eauto.
    + intros tpm rpd Hrpm Hreach. rewrite CheckChannelRateLimit_result.
      by rewrite (proj2 (Hblocks tpm rpd)).
    + intros tpm rpd Hless. apply blocks_rpm_only.
      destruct (blocks false _ _ _ _ _ _ RPM) eqn:Hb; [|done].
      apply Hblocks in Hb. lia.
Qed.

Lemma rpm_burst_witness :
  result handle (CheckChannelRateLimit true 1 "gpt-4" 2 0 0)
    (setClock 1050
       (endScript true [(1000, Record_ 1 "gpt-4" 2 0 0 5); (1030, Record_ 1 "gpt-4" 2 0 0 7)]
          (emptyWorld 0)))
  = Some errSaturated /\
  result handle (CheckChannelRateLimit false 1 "gpt-4" 2 0 0)
    (setClock 1050
       (endScript false [(1000, Record_ 1 "gpt-4" 2 0 0 5); (1030, Record_ 1 "gpt-4" 2 0 0 7)]
          (emptyWorld 0)))
  = Some errSaturated.
Proof.
  assert (Hscript : Forall (recordsWithLimit 1 "gpt-4" 2 1000)
                      [(1000, Record_ 1 "gpt-4" 2 0 0 5); (1030, Record_ 1 "gpt-4" 2 0 0 7)]).
  { repeat constructor; cbn [fst snd]; unfold unix_time; try lia; by do 3 eexists. }
  assert (Ht : inMinute 1000 1050) by (unfold inMinute, unix_time; lia).
  split.
  - refine (proj1 (proj2 (rpm_burst true (emptyWorld 0) 1 "gpt-4" 2 1000 _ 1050
                            eq_refl eq_refl Hscript Ht)) 0 0 _ _); cbn [length]; lia.
  - refine (proj1 (proj2 (rpm_burst false (emptyWorld 0) 1 "gpt-4" 2 1000 _ 1050
                            eq_refl eq_refl Hscript Ht)) 0 0 _ _); cbn [length]; lia.
Defined.

(** ** The requests of a day *)

Lemma blocks_rpd_only RedisEnabled w channelId modelName rpm tpm rpd :
  blocks RedisEnabled w channelId modelName rpm tpm rpd RPD = false ->
  result handle (CheckChannelRateLimit RedisEnabled channelId modelName rpm tpm rpd) w
  = result handle (CheckChannelRateLimit RedisEnabled channelId modelName rpm tpm 0) w.
Proof.
  intros Hrpd. rewrite !CheckChannelRateLimit_result, Hrpd.
  replace (blocks RedisEnabled w channelId modelName rpm tpm 0 RPD) with false
    by (unfold blocks; cbn [limitOf]; by rewrite bool_decide_eq_false_2 by lia).
  done.
Qed.

Lemma endScript_day channelId modelName t0 script w acc :
  Forall (recordsInDay channelId modelName t0) script ->
  memoryRPDStore w !! memoryKey channelId modelName
  = Some {| Count := acc; Expiration := t0 + 24 * 3600 |} ->
  0 <= acc -> acc + Z.of_nat (length script) < 2 ^ 63 ->
  memoryRPDStore (endScript false script w) !! memoryKey channelId modelName
  = Some {| Count := acc + Z.of_nat (length script); Expiration := t0 + 24 * 3600 |}.
Proof.
  intros Hall. revert w acc.
  induction Hall as [|[t c] script (Ht & Hwin & rpm & tpm & rpd & tokens & Hc) Hall IH];
    intros w acc Hitem Hacc Hsum.
  { cbn [length endScript]. by rewrite Z.add_0_r. }
  cbn [fst snd] in Hc, Ht, Hwin. subst c. cbn [endScript].
  rewrite perform_record_memory.
  replace (acc + Z.of_nat (length ((t, Record_ channelId modelName rpm tpm rpd tokens) :: script)))
    with ((acc + 1) + Z.of_nat (length script)) in * by (cbn [length]; lia).
  apply IH; [|lia..].
  unfold afterRecordMemory. cbn [memoryRPDStore setClock clock].
  rewrite lookup_insert_eq, Hitem.
  unfold nextCounter. cbn [Expiration Count].
  destruct (decide (t >= t0 + 24 * 3600)) as [?|_]; [lia|].
  by rewrite add64_int64 by (unfold int64; lia).
Qed.

Lemma recordChannelRateLimitRedis_rpd_live w channelId modelName rpm :
  let now := clock w in
  let keyRPM := redisKey ChannelRPMPrefix channelId modelName in
  let keyRPD := redisKey ChannelRPDPrefix channelId modelName in
  let db1 := (Redis.expire now
                (Redis.ltrim now (Redis.lpush now (rdb w) keyRPM now).2
                   keyRPM 0 (capOf rpm - 1)).2 keyRPM 60).2 in
  Redis.live now db1 keyRPD = Redis.live now (rdb w) keyRPD.
Proof.
  cbv zeta. apply live_ext.
  rewrite expire_ne, ltrim_ne, lpush_ne by (apply (redisKey_ne RPM _ _ RPD); by right).
  done.
Qed.

Lemma recordChannelRateLimitRedis_rpd w channelId modelName rpm tpm rpd tokens :
  let key := redisKey ChannelRPDPrefix channelId modelName in
  counterOk (clock w) (rdb w) key 1 ->
  rdb (final handle (recordChannelRateLimitRedis channelId modelName rpm tpm rpd tokens) w) !! key
  = Some (nextEntry (clock w) 1 (24 * 3600) (Redis.live (clock w) (rdb w) key)).
Proof.
  intros key Hok. subst key.
  rewrite recordChannelRateLimitRedis_final. cbv zeta. cbn [rdb setRdb].
  pose proof (recordChannelRateLimitRedis_rpd_live w channelId modelName rpm) as Hlive.
  cbv zeta in Hlive.
  assert (Hrpd : forall db, db !! redisKey ChannelRPDPrefix channelId modelName
                 = counterWrite (clock w) db (redisKey ChannelTPMPrefix channelId modelName)
                     tokens 60 !! redisKey ChannelRPDPrefix channelId modelName).
  { intros db. symmetry. apply counterWrite_ne, redisKey_tpm_rpd. }
  case_decide; rewrite <- ?Hrpd;
    (rewrite counterWrite_next;
     [by rewrite lookup_insert_eq, Hlive
     |lia
     |unfold counterOk in *; by rewrite Hlive]).
Qed.

Lemma endScript_day_redis channelId modelName t0 script w acc :
  Forall (recordsInDay channelId modelName t0) script ->
  rdb w !! redisKey ChannelRPDPrefix channelId modelName
  = Some {| data := RInt acc; expireAt := Some (t0 + 24 * 3600) |} ->
  0 < acc -> acc + Z.of_nat (length script) < 2 ^ 63 ->
  rdb (endScript true script w) !! redisKey ChannelRPDPrefix channelId modelName
  = Some {| data := RInt (acc + Z.of_nat (length script));
            expireAt := Some (t0 + 24 * 3600) |}.
Proof.
  intros Hall. revert w acc.
  induction Hall as [|[t c] script (Ht & Hwin & rpm & tpm & rpd & tokens & Hc) Hall IH];
    intros w acc Hitem Hacc Hsum.
  { cbn [length endScript]. by rewrite Z.add_0_r. }
  cbn [fst snd] in Hc, Ht, Hwin. subst c. cbn [endScript].
  rewrite perform_record_redis.
  replace (acc + Z.of_nat (length ((t, Record_ channelId modelName rpm tpm rpd tokens) :: script)))
    with ((acc + 1) + Z.of_nat (length script)) in * by (cbn [length]; lia).
  apply IH; [|lia..].
  assert (Hlive : Redis.live t (rdb w) (redisKey ChannelRPDPrefix channelId modelName)
                  = Some {| data := RInt acc; expireAt := Some (t0 + 24 * 3600) |}).
  { unfold Redis.live. rewrite Hitem. cbn [expireAt]. by rewrite decide_False by lia. }
  rewrite recordChannelRateLimitRedis_rpd; cbn [setClock clock rdb].
  - by rewrite Hlive.
  - unfold counterOk. rewrite Hlive. unfold int64. lia.
Qed.

(** X17.  The RPD window is a fixed day: for a (channel, model) without RPD
    counter, after [n] calls of [Record] that all fall in the day the first
    of them opens, [GetUsage] reports an RPD usage of [n] until that day is
    over and 0 afterwards; [Check] refuses while the day lasts once [n] has
    reached a positive RPD limit, and decides as if there were no RPD limit
    before that and once the day is over.  This holds in both backends. *)
Theorem rpd_usage RedisEnabled w channelId modelName t0 c0 script :
  let calls := (t0, c0) :: script in
  let n := Z.of_nat (length calls) in
  let w' := endScript RedisEnabled calls w in
  memoryRPDStore w !! memoryKey channelId modelName = None ->
  rdb w !! redisKey ChannelRPDPrefix channelId modelName = None ->
  Forall (recordsInDay channelId modelName t0) calls ->
  n < 2 ^ 63 ->
  (forall t, t < t0 + 24 * 3600 ->
     exists rpm tpm,
       result handle (GetChannelRateLimitUsage RedisEnabled channelId modelName) (setClock t w')
       = Some (rpm, tpm, n)) /\
  (forall t, t0 + 24 * 3600 <= t ->
     exists rpm tpm,
       result handle (GetChannelRateLimitUsage RedisEnabled channelId modelName) (setClock t w')
       = Some (rpm, tpm, 0)) /\
  (forall t rpm tpm rpd, t < t0 + 24 * 3600 -> rpd > 0 -> n >= rpd ->
     result handle (CheckChannelRateLimit RedisEnabled channelId modelName rpm tpm rpd)
       (setClock t w')
     = Some errSaturated) /\
  (forall t rpm tpm rpd, n < rpd \/ t0 + 24 * 3600 <= t ->
     result handle (CheckChannelRateLimit RedisEnabled channelId modelName rpm tpm rpd)
       (setClock t w')
     = result handle (CheckChannelRateLimit RedisEnabled channelId modelName rpm tpm 0)
         (setClock t w')).
Proof.
  intros calls n w' Hnone Hnone' Hall Hsum. subst calls n w'.
  apply Forall_cons in Hall as [(Ht & Hwin & rpm0 & tpm0 & rpd0 & tokens0 & Hc) Hall].
  cbn [fst snd] in Hc, Ht, Hwin. subst c0.
  set (n := Z.of_nat (length (_ :: script))) in *.
  assert (Hn : n = 1 + Z.of_nat (length script)) by (subst n; cbn [length]; lia).
  cbn [endScript]. destruct RedisEnabled.
  - rewrite perform_record_redis.
    set (w1 := final handle _ _).
    assert (Hw1 : rdb w1 !! redisKey ChannelRPDPrefix channelId modelName
                  = Some {| data := RInt 1; expireAt := Some (t0 + 24 * 3600) |}).
    { subst w1. rewrite recordChannelRateLimitRedis_rpd; cbn [setClock clock rdb].
      - unfold Redis.live. by rewrite Hnone'.
      - unfold counterOk, Redis.live. by rewrite Hnone'. }
    pose proof (endScript_day_redis _ _ _ _ _ _ Hall Hw1 ltac:(lia) ltac:(lia)) as Hend.
    rewrite <- Hn in Hend.
    set (w' := endScript true script w1) in *.
    assert (Hget : forall t,
               Redis.get t (rdb w') (redisKey ChannelRPDPrefix channelId modelName)
               = if decide (t0 + 24 * 3600 <= t) then Err RedisNil else Ok n).
    { intros t. unfold Redis.get, Redis.live. rewrite Hend. cbn [expireAt].
      by case_decide. }
    assert (Hblocks : forall t rpm tpm rpd,
               blocks true (setClock t w') channelId modelName rpm tpm rpd RPD
               = bool_decide (rpd > 0 /\ n >= rpd /\ t < t0 + 24 * 3600)).
    { intros t rpm tpm rpd. unfold blocks, reachedRedis. cbn [limitOf setClock clock rdb].
      cbv zeta. rewrite Hget. case_decide.
      - rewrite andb_false_r. symmetry. apply bool_decide_eq_false. lia.
      - apply eq_true_iff_eq. rewrite andb_true_iff, !bool_decide_eq_true. lia. }
    split_and!.
    + intros t Hlt. cbn [GetChannelRateLimitUsage].
      rewrite getChannelRateLimitUsageRedis_result. cbn [setClock rdb clock].
      rewrite (Hget t), decide_False by lia. cbn [val]. eauto.
    + intros t Hge. cbn [GetChannelRateLimitUsage].
      rewrite getChannelRateLimitUsageRedis_result. cbn [setClock rdb clock].
      rewrite (Hget t), decide_True by lia. cbn [val]. eauto.
    + intros t rpm tpm rpd Hlt Hrpd Hreach. rewrite CheckChannelRateLimit_result, Hblocks.
      rewrite bool_decide_eq_true_2 by lia. by rewrite !orb_true_r.
    + intros t rpm tpm rpd Hfree. apply blocks_rpd_only. rewrite Hblocks.
      apply bool_decide_eq_false. lia.
  - rewrite perform_record_memory.
    set (w1 := afterRecordMemory _ _ _ _ _).
    assert (Hw1 : memoryRPDStore w1 !! memoryKey channelId modelName
                  = Some {| Count := 1; Expiration := t0 + 24 * 3600 |}).
    { subst w1. unfold afterRecordMemory. cbn [memoryRPDStore setClock clock].
      rewrite lookup_insert_eq, Hnone.
      unfold nextCounter. by rewrite add64_unix by (done || lia). }
    pose proof (endScript_day _ _ _ _ _ _ Hall Hw1 ltac:(lia) ltac:(lia)) as Hend.
    rewrite <- Hn in Hend.
    set (w' := endScript false script w1) in *.
    assert (Hblocks : forall t rpm tpm rpd,
               blocks false (setClock t w') channelId modelName rpm tpm rpd RPD
               = bool_decide (rpd > 0 /\ n >= rpd /\ t < t0 + 24 * 3600)).
    { intros t rpm tpm rpd. unfold blocks, reachedMemory.
      cbn [limitOf setClock clock memoryRPDStore]. rewrite Hend. cbn [Expiration Count].
      apply eq_true_iff_eq. rewrite andb_true_iff, !bool_decide_eq_true. lia. }
    split_and!.
    + intros t Hlt. cbn [GetChannelRateLimitUsage].
      rewrite getChannelRateLimitUsageMemory_result. cbn [setClock memoryRPDStore clock].
      rewrite Hend. unfold readCounter at 2. cbn [Expiration Count].
      rewrite decide_True by done. eauto.
    + intros t Hge. cbn [GetChannelRateLimitUsage].
      rewrite getChannelRateLimitUsageMemory_result. cbn [setClock memoryRPDStore clock].
      rewrite Hend. unfold readCounter at 2. cbn [Expiration Count].
      rewrite decide_False by lia. eauto.
    + intros t rpm tpm rpd Hlt Hrpd Hreach. rewrite CheckChannelRateLimit_result, Hblocks.
      rewrite bool_decide_eq_true_2 by lia. by rewrite !orb_true_r.
    + intros t rpm tpm rpd Hfree. apply blocks_rpd_only. rewrite Hblocks.
      apply bool_decide_eq_false. lia.
Qed.

Lemma rpd_usage_witness :
  result handle (CheckChannelRateLimit true 1 "gpt-4" 0 0 2)
    (setClock 80000
       (endScript true [(1000, Record_ 1 "gpt-4" 0 0 2 5); (50000, Record_ 1 "gpt-4" 0 0 2 7)]
          (emptyWorld 0)))
  = Some errSaturated /\
  result handle (CheckChannelRateLimit false 1 "gpt-4" 0 0 2)
    (setClock 80000
       (endScript false [(1000, Record_ 1 "gpt-4" 0 0 2 5); (50000, Record_ 1 "gpt-4" 0 0 2 7)]
          (emptyWorld 0)))
  = Some errSaturated.
Proof.
  assert (Hscript : Forall (recordsInDay 1 "gpt-4" 1000)
                      [(1000, Record_ 1 "gpt-4" 0 0 2 5); (50000, Record_ 1 "gpt-4" 0 0 2 7)]).
  { repeat constructor; cbn [fst snd]; unfold unix_time; try lia; by do 4 eexists. }
  split.
  - refine (proj1 (proj2 (proj2 (rpd_usage true (emptyWorld 0) 1 "gpt-4" 1000 _ _
                                   eq_refl eq_refl Hscript _))) 80000 0 0 2 _ _ _);
      cbn [length]; lia.
  - refine (proj1 (proj2 (proj2 (rpd_usage false (emptyWorld 0) 1 "gpt-4" 1000 _ _
                                   eq_refl eq_refl Hscript _))) 80000 0 0 2 _ _ _);
      cbn [length]; lia.
Defined.

(** ** What [Record] adds to the usage of the Redis backend *)

Lemma llen_ext now db db' key :
  db !! key = db' !! key -> Redis.llen now db key = Redis.llen now db' key.
Proof. intros Heq. unfold Redis.llen. by rewrite (live_ext now db db'). Qed.

Lemma lindex_ext now db db' key index :
  db !! key = db' !! key -> Redis.lindex now db key index = Redis.lindex now db' key index.
Proof. intros Heq. unfold Redis.lindex. by rewrite (live_ext now db db'). Qed.

Lemma get_ext now db db' key :
  db !! key = db' !! key -> Redis.get now db key = Redis.get now db' key.
Proof. intros Heq. unfold Redis.get. by rewrite (live_ext now db db'). Qed.

Lemma get_nextEntry now db db' key n ttl :
  db' !! key = Some (nextEntry now n ttl (Redis.live now db key)) ->
  counterOk now db key n -> ttl > 0 ->
  Redis.get now db' key = Ok (val (Redis.get now db key) + n).
Proof.
  intros Hnew Hok Httl. unfold Redis.get at 1, Redis.live at 1. rewrite Hnew.
  unfold Redis.get, counterOk in *.
  destruct (Redis.live now db key) as [[[l|v] e]|] eqn:Hlive; [done| |].
  - apply live_expireAt in Hlive. cbn [nextEntry expireAt data val] in *.
    destruct e as [x|]; [|done]. by rewrite decide_False by lia.
  - cbn [nextEntry expireAt data val]. by rewrite decide_False by lia.
Qed.

Lemma llen_pushed now db db' key cap :
  db' !! key = Some {| data := RList (take (Z.to_nat cap) (now :: liveList now db key));
                       expireAt := Some (now + 60) |} ->
  listOrAbsent now db key -> cap > 0 ->
  Redis.llen now db' key = Ok (Z.min cap (val (Redis.llen now db key) + 1)).
Proof.
  intros Hnew Hlist Hcap. unfold Redis.llen at 1, Redis.live at 1. rewrite Hnew.
  cbn [expireAt data]. rewrite decide_False by lia. cbn [data].
  unfold Redis.llen, liveList, listOrAbsent in *.
  destruct (Redis.live now db key) as [[[l|v] e]|]; [|done|];
    rewrite length_take; cbn [length val data]; f_equal; lia.
Qed.

(** X18.  What one [Record] of lines 94-124 adds to the usage the Redis
    backend reports at the same clock reading: one request, up to the cap of
    the list, the tokens when they are positive, and one request of the day;
    provided the RPM key holds no integer and the counters written hold an
    integer other than 0 that stays in the 64-bit range, or are absent. *)
Theorem record_redis_adds_usage w channelId modelName rpm tpm rpd tokens u t d :
  let now := clock w in
  listOrAbsent now (rdb w) (redisKey ChannelRPMPrefix channelId modelName) ->
  counterOk now (rdb w) (redisKey ChannelRPDPrefix channelId modelName) 1 ->
  (tokens > 0 -> counterOk now (rdb w) (redisKey ChannelTPMPrefix channelId modelName) tokens) ->
  result handle (GetChannelRateLimitUsage true channelId modelName) w = Some (u, t, d) ->
  result handle (GetChannelRateLimitUsage true channelId modelName)
    (final handle (RecordChannelRateLimit true channelId modelName rpm tpm rpd tokens) w)
  = Some (Z.min (capOf rpm) (u + 1), t + Z.max 0 tokens, d + 1).
Proof.
  intros now Hlist Hrpd Htpm.
  cbn [GetChannelRateLimitUsage RecordChannelRateLimit].
  rewrite !getChannelRateLimitUsageRedis_result, final_record_redis_clock.
  intros [= <- <- <-]. fold now.
  pose proof (recordChannelRateLimitRedis_rdb w channelId modelName rpm tpm rpd tokens
                Hlist Hrpd Htpm) as Hdb.
  cbv zeta in Hdb. fold now in Hdb.
  set (db' := rdb (final handle _ w)) in *.
  set (kR := redisKey ChannelRPMPrefix channelId modelName) in *.
  set (kD := redisKey ChannelRPDPrefix channelId modelName) in *.
  set (kT := redisKey ChannelTPMPrefix channelId modelName) in *.
  assert (Hne1 : kR <> kD) by (intros Heq; symmetry in Heq; by apply redisKey_rpm_rpd in Heq).
  assert (Hne2 : kR <> kT) by (intros Heq; symmetry in Heq; by apply redisKey_rpm_tpm in Heq).
  assert (Hne3 : kD <> kT) by (intros Heq; symmetry in Heq; by apply redisKey_tpm_rpd in Heq).
  pose proof (capOf_pos rpm) as Hcap.
  assert (HR : db' !! kR
               = Some {| data := RList (take (Z.to_nat (capOf rpm))
                                          (now :: liveList now (rdb w) kR));
                         expireAt := Some (now + 60) |}).
  { rewrite Hdb. case_decide; rewrite ?lookup_insert_ne by done; by rewrite lookup_insert_eq. }
  assert (HD : db' !! kD = Some (nextEntry now 1 (24 * 3600) (Redis.live now (rdb w) kD))).
  { rewrite Hdb. case_decide; rewrite ?lookup_insert_ne by done; by rewrite lookup_insert_eq. }
  f_equal. repeat apply (f_equal2 pair).
  - by erewrite llen_pushed.
  - destruct (decide (tokens > 0)) as [Htok|Htok].
    + replace (Z.max 0 tokens) with tokens by lia.
      apply (f_equal val (y := Ok _)).
      apply (get_nextEntry now (rdb w) db' kT tokens 60); [|by apply Htpm|lia].
      by rewrite Hdb, lookup_insert_eq.
    + rewrite (get_ext now db' (rdb w)); [lia|].
      by rewrite Hdb, !lookup_insert_ne by done.
  - apply (f_equal val (y := Ok _)).
    by apply (get_nextEntry now (rdb w) db' kD 1 (24 * 3600)); [| |lia].
Qed.

Lemma record_redis_adds_usage_witness :
  result handle (GetChannelRateLimitUsage true 1 "gpt-4")
    (final handle (RecordChannelRateLimit true 1 "gpt-4" 4 100 10 5) queuedWorld)
  = Some (4, 5, 1).
Proof.
  apply (record_redis_adds_usage queuedWorld 1 "gpt-4" 4 100 10 5 3 0 0).
  - exact I.
  - exact I.
  - intros _. exact I.
  - reflexivity.
Defined.

(** ** The two revisions of the in-process [Record] *)

(** X19.  With all three limits positive the two revisions of the
    in-process [Record] differ in the cap of the history only: as long as
    fewer requests than the RPM limit are on record for the last minute,
    they leave the same world. *)
Theorem record_memory_revisions_agree w channelId modelName rpm tpm rpd tokens :
  rpm > 0 -> tpm > 0 -> rpd > 0 ->
  countRecent (clock w) (default [] (memoryRPMStore w !! memoryKey channelId modelName)) < rpm ->
  final handle (Guarded.recordChannelRateLimitMemory channelId modelName rpm tpm rpd tokens) w
  = final handle (recordChannelRateLimitMemory channelId modelName rpm tpm rpd tokens) w.
Proof.
  intros Hrpm Htpm Hrpd Hfew.
  rewrite recordChannelRateLimitMemory_final, guarded_recordChannelRateLimitMemory_final.
  unfold afterRecordMemory, afterGuardedRecordMemory. cbv zeta.
  rewrite countRecent_filter in Hfew.
  f_equal.
  - rewrite decide_True by done. f_equal. unfold nextTimestamps, capOf. cbv zeta.
    rewrite (decide_False (P := rpm <= 0)) by lia.
    set (kept := filter _ _ ++ [clock w]).
    assert (Hlen : (length kept <= Z.to_nat rpm)%nat).
    { subst kept. rewrite length_app. cbn [length]. lia. }
    replace (length kept - Z.to_nat rpm)%nat with 0%nat by lia. by rewrite drop_0.
  - destruct (decide (tokens > 0)).
    + by rewrite decide_True by done.
    + by rewrite decide_False by tauto.
  - by rewrite decide_True by done.
Qed.

Lemma record_memory_revisions_agree_witness :
  final handle (Guarded.recordChannelRateLimitMemory 1 "gpt-4" 5 100 10 3) busyWorld
  = final handle (recordChannelRateLimitMemory 1 "gpt-4" 5 100 10 3) busyWorld.
Proof.
  apply (record_memory_revisions_agree busyWorld 1 "gpt-4" 5 100 10 3); try lia.
  change (countRecent 100 [10; 90] < 5). vm_compute. reflexivity.
Defined.

(** ** Raising a limit *)

Lemma reaches_mono usage limit limit' :
  0 < limit <= limit' -> reaches usage limit' -> reaches usage limit.
Proof. unfold reaches. lia. Qed.

Lemma blocks_mono RedisEnabled w channelId modelName rpm tpm rpd rpm' tpm' rpd' d :
  0 < limitOf d rpm tpm rpd <= limitOf d rpm' tpm' rpd' ->
  blocks RedisEnabled w channelId modelName rpm tpm rpd d = false ->
  blocks RedisEnabled w channelId modelName rpm' tpm' rpd' d = false.
Proof.
  intros Hle Hfree. apply not_true_is_false. intros Hblocked.
  apply not_true_iff_false in Hfree. apply Hfree. clear Hfree. revert Hblocked.
  destruct RedisEnabled, d.
  - rewrite !blocks_redis_rpm. cbv zeta. intros [Hreach Hold]. split; [|done].
    by apply (reaches_mono _ _ rpm').
  - rewrite !blocks_redis_counter by done. by apply reaches_mono.
  - rewrite !blocks_redis_counter by done. by apply reaches_mono.
  - rewrite !blocks_memory_rpm. by apply reaches_mono.
  - rewrite !blocks_memory_tpm. by apply reaches_mono.
  - rewrite !blocks_memory_rpd. by apply reaches_mono.
Qed.

(** X20.  Raising limits never turns an accepted request into a refused
    one: in both backends, if [Check] returns no error under positive limits,
    it returns no error under limits that are at least as high. *)
Theorem check_monotone RedisEnabled w channelId modelName rpm tpm rpd rpm' tpm' rpd' :
  0 < rpm <= rpm' -> 0 < tpm <= tpm' -> 0 < rpd <= rpd' ->
  result handle (CheckChannelRateLimit RedisEnabled channelId modelName rpm tpm rpd) w
  = Some nil ->
  result handle (CheckChannelRateLimit RedisEnabled channelId modelName rpm' tpm' rpd') w
  = Some nil.
Proof.
  intros Hrpm Htpm Hrpd. rewrite !CheckChannelRateLimit_result.
  intros [= Hfree%verdict_nil]. f_equal. apply verdict_nil.
  apply orb_false_iff in Hfree as [[HR HT]%orb_false_iff HD].
  rewrite (blocks_mono _ _ _ _ rpm tpm rpd rpm' tpm' rpd' RPM) by done.
  rewrite (blocks_mono _ _ _ _ rpm tpm rpd rpm' tpm' rpd' TPM) by done.
  by rewrite (blocks_mono _ _ _ _ rpm tpm rpd rpm' tpm' rpd' RPD) by done.
Qed.

Lemma check_monotone_witness :
  result handle (CheckChannelRateLimit false 1 "gpt-4" 5 80 6) busyWorld = Some nil.
Proof.
  apply (check_monotone false busyWorld 1 "gpt-4" 2 50 3 5 80 6); try lia.
  reflexivity.
Defined.

(** ** One (channel, model) pair does not disturb another *)

Lemma blocks_ext RedisEnabled w w' channelId modelName rpm tpm rpd d :
  clock w' = clock w ->
  (forall d, rdb w' !! redisKey (prefixOf d) channelId modelName
             = rdb w !! redisKey (prefixOf d) channelId modelName) ->
  memoryRPMStore w' !! memoryKey channelId modelName
  = memoryRPMStore w !! memoryKey channelId modelName ->
  memoryTPMStore w' !! memoryKey channelId modelName
  = memoryTPMStore w !! memoryKey channelId modelName ->
  memoryRPDStore w' !! memoryKey channelId modelName
  = memoryRPDStore w !! memoryKey channelId modelName ->
  blocks RedisEnabled w' channelId modelName rpm tpm rpd d
  = blocks RedisEnabled w channelId modelName rpm tpm rpd d.
Proof.
  intros Hclock Hdb HR HT HD. unfold blocks, reachedRedis, reachedMemory. cbv zeta.
  rewrite Hclock, HR, HT, HD.
  rewrite (llen_ext _ _ _ _ (Hdb RPM)), (lindex_ext _ _ _ _ _ (Hdb RPM)),
    (get_ext _ _ _ _ (Hdb TPM)), (get_ext _ _ _ _ (Hdb RPD)).
  done.
Qed.

(** X21.  A [Record] on one (channel, model) pair changes nothing for
    another pair: in both backends and for both revisions of [Record], what
    [Check] returns and what [GetUsage] reports for the other pair is the
    same after the call as before it. *)
Theorem record_leaves_other_pairs (guarded RedisEnabled : bool) w
    channelId modelName rpm tpm rpd tokens channelId' modelName' :
  let w' :=
    final handle
      (if guarded
       then Guarded.RecordChannelRateLimit RedisEnabled channelId modelName rpm tpm rpd tokens
       else RecordChannelRateLimit RedisEnabled channelId modelName rpm tpm rpd tokens) w in
  (channelId', modelName') <> (channelId, modelName) ->
  (forall rpm' tpm' rpd',
     result handle (CheckChannelRateLimit RedisEnabled channelId' modelName' rpm' tpm' rpd') w'
     = result handle (CheckChannelRateLimit RedisEnabled channelId' modelName' rpm' tpm' rpd') w)
  /\
  result handle (GetChannelRateLimitUsage RedisEnabled channelId' modelName') w'
  = result handle (GetChannelRateLimitUsage RedisEnabled channelId' modelName') w.
Proof.
  intros w' Hother.
  assert (Hkey : memoryKey channelId modelName <> memoryKey channelId' modelName').
  { intros Heq. apply memoryKey_inj in Heq as [-> ->]. done. }
  assert (Hkeys : forall d d', redisKey (prefixOf d) channelId modelName
                               <> redisKey (prefixOf d') channelId' modelName').
  { intros d d'. apply redisKey_ne. left. intros [= -> ->]. done. }
  assert (Hframe : clock w' = clock w /\
            (forall d, rdb w' !! redisKey (prefixOf d) channelId' modelName'
                       = rdb w !! redisKey (prefixOf d) channelId' modelName') /\
            memoryRPMStore w' !! memoryKey channelId' modelName'
            = memoryRPMStore w !! memoryKey channelId' modelName' /\
            memoryTPMStore w' !! memoryKey channelId' modelName'
            = memoryTPMStore w !! memoryKey channelId' modelName' /\
            memoryRPDStore w' !! memoryKey channelId' modelName'
            = memoryRPDStore w !! memoryKey channelId' modelName').
  { subst w'. destruct guarded, RedisEnabled;
      cbn [RecordChannelRateLimit Guarded.RecordChannelRateLimit];
      rewrite ?recordChannelRateLimitRedis_final, ?guarded_recordChannelRateLimitRedis_final,
        ?recordChannelRateLimitMemory_final, ?guarded_recordChannelRateLimitMemory_final;
      unfold afterRecordMemory, afterGuardedRecordMemory; cbv zeta;
      cbn [clock rdb setRdb memoryRPMStore memoryTPMStore memoryRPDStore];
      (split_and!; [reflexivity|intros d|..]);
      repeat case_decide;
      rewrite ?lookup_insert_ne by done;
      rewrite ?counterWrite_ne by first [apply (Hkeys TPM d) | apply (Hkeys RPD d)];
      rewrite ?expire_ne, ?ltrim_ne, ?lpush_ne by apply (Hkeys RPM d);
      reflexivity. }
  destruct Hframe as (Hclock & Hdb & HR & HT & HD).
  split.
  - intros rpm' tpm' rpd'. rewrite !CheckChannelRateLimit_result.
    by rewrite !(blocks_ext RedisEnabled w w').
  - destruct RedisEnabled; cbn [GetChannelRateLimitUsage].
    + rewrite !getChannelRateLimitUsageRedis_result, Hclock.
      by rewrite (llen_ext _ _ _ _ (Hdb RPM)), (get_ext _ _ _ _ (Hdb TPM)),
        (get_ext _ _ _ _ (Hdb RPD)).
    + rewrite !getChannelRateLimitUsageMemory_result, Hclock.
      by rewrite HR, HT, HD.
Qed.

Lemma record_leaves_other_pairs_witness :
  result handle (GetChannelRateLimitUsage false 2 "gpt-4")
    (final handle (RecordChannelRateLimit false 1 "gpt-4" 2 100 10 5) busyWorld)
  = Some (1, 7, 1).
Proof.
  refine (eq_trans (proj2 (record_leaves_other_pairs false false busyWorld
                             1 "gpt-4" 2 100 10 5 2 "gpt-4" _)) _).
  - intros [= ?]; lia.
  - reflexivity.
Defined.
